(** * placeholderPolyfill.js: a shallow embedding and its properties

    The script emulates the [placeholder] attribute of input elements in
    browsers that lack it.  This development models the script's string and
    class-name manipulation, its event callbacks and its form-submission
    hooks, and states the properties of the specification over that model.

    Strings are sequences of code units below 256 ([string]); objects of the
    page (input elements, forms) live in a store and are referred to by
    their index, so that closures capturing an element capture its
    reference.  The browser's side (the token list behind [classList], the
    creation and insertion of elements, the delivery of events) is modelled
    next to the script.  The last lines of the script, which run the
    constructor once the page has loaded, are not modelled. *)

From Stdlib Require Import Ascii String.
From stdpp Require Import base tactics option list strings.

(** ** Strings *)

Module JsString.

(** The characters matched by the pattern escape [\s]: the white space and
    line terminator code units TAB, LF, VT, FF, CR, SP and NBSP. *)
Definition isWhiteSpace (c : ascii) : bool :=
  let n := nat_of_ascii c in
  (Nat.eqb n 9 || Nat.eqb n 10 || Nat.eqb n 11 || Nat.eqb n 12
   || Nat.eqb n 13 || Nat.eqb n 32 || Nat.eqb n 160)%bool.

(** [s.length]. *)
Definition length := String.length.

Fixpoint drop (n : nat) (s : string) : string :=
  match n, s with
  | S k, String _ s' => drop k s'
  | _, _ => s
  end.

(** [s.replace(pattern, replacement)] with a string pattern: the first
    occurrence of [pattern] (searched from the left) is replaced, the rest
    of the string is kept. *)
Fixpoint replaceString (pattern replacement s : string) : string :=
  if String.prefix pattern s then replacement +:+ drop (length pattern) s
  else match s with
       | String a s' => String a (replaceString pattern replacement s')
       | EmptyString => EmptyString
       end.

(** Truthiness of a string value: every string but the empty one. *)
Definition truthy (s : string) : bool :=
  match s with EmptyString => false | _ => true end.

End JsString.

(** ** Regular expressions

    The three patterns of the script use pattern characters, the class
    escape [\s], the assertions [^] and [$], alternation, sequencing, groups
    and the greedy quantifier [+].  Groups only delimit (no pattern refers
    back to a capture and no replacement string uses one), so the syntax
    tree has no node for them. *)

Module RegExp.
Import JsString.

Inductive regex : Type :=
| Chr (c : ascii)            (* a pattern character *)
| Space                      (* \s *)
| Bol                        (* ^ *)
| Eol                        (* $ *)
| Empty                      (* the empty alternative *)
| Seq (r1 r2 : regex)
| Alt (r1 r2 : regex)        (* r1|r2 *)
| Plus (r : regex).          (* r+ *)

(** The pattern characters of a string, in sequence. *)
Fixpoint literal (s : string) : regex :=
  match s with
  | EmptyString => Empty
  | String a s' => Seq (Chr a) (literal s')
  end.

(** A position in the subject string is the suffix that starts there
    together with a flag telling whether it is position 0.  A
    continuation receives the position reached and returns the suffix at
    which the whole match ends, or [None] for failure. *)
Definition cont := bool -> string -> option string.

(** Greedy iteration of a matcher [m] after its first, mandatory, round:
    another round is tried first and must consume input; when it fails
    the continuation is tried at the current position.  [fuel] bounds the
    number of rounds and is at least the length of the suffix. *)
Fixpoint repeat (m : bool -> string -> cont -> option string)
         (fuel : nat) (bol : bool) (s : string) (k : cont) : option string :=
  match fuel with
  | O => k bol s
  | S fuel' =>
      match m bol s (fun b s' =>
                       if Nat.ltb (length s') (length s)
                       then repeat m fuel' b s' k else None) with
      | Some e => Some e
      | None => k bol s
      end
  end.

(** The backtracking matcher: [matcher r bol s k] matches [r] at the
    position [(bol, s)] and then runs [k]; alternatives are tried left to
    right. *)
Fixpoint matcher (r : regex) (bol : bool) (s : string) (k : cont)
  : option string :=
  match r with
  | Chr c =>
      match s with
      | String a s' => if Ascii.eqb a c then k false s' else None
      | EmptyString => None
      end
  | Space =>
      match s with
      | String a s' => if isWhiteSpace a then k false s' else None
      | EmptyString => None
      end
  | Bol => if bol then k bol s else None
  | Eol => match s with EmptyString => k bol s | _ => None end
  | Empty => k bol s
  | Seq r1 r2 => matcher r1 bol s (fun b s' => matcher r2 b s' k)
  | Alt r1 r2 =>
      match matcher r1 bol s k with
      | Some e => Some e
      | None => matcher r2 bol s k
      end
  | Plus r' =>
      matcher r' bol s (fun b s' => repeat (matcher r') (length s') b s' k)
  end.

(** A match attempt at one position: the suffix after the match. *)
Definition matchAt (r : regex) (bol : bool) (s : string) : option string :=
  matcher r bol s (fun _ rest => Some rest).

(** [regex.exec(s)] without the global flag: the leftmost position at
    which the pattern matches.  The result is the text before the match
    and the suffix after it. *)
Fixpoint exec (r : regex) (bol : bool) (s : string)
  : option (string * string) :=
  match matchAt r bol s with
  | Some rest => Some (EmptyString, rest)
  | None =>
      match s with
      | String a s' =>
          match exec r false s' with
          | Some (before, rest) => Some (String a before, rest)
          | None => None
          end
      | EmptyString => None
      end
  end.

(** [regex.test(s)], and the truth value of [s.match(regex)]. *)
Definition test (r : regex) (s : string) : bool :=
  match exec r true s with Some _ => true | None => false end.

(** [s.replace(regex, replacement)] without the global flag: the first
    match is replaced. *)
Definition replace (r : regex) (replacement s : string) : string :=
  match exec r true s with
  | Some (before, rest) => before +:+ replacement +:+ rest
  | None => s
  end.

(** [s.replace(regex, replacement)] with the global flag: matches are
    searched one after the other, each search starting where the previous
    match ended (one character further after an empty match).  [skip]
    counts the characters of the current match still to be dropped. *)
Fixpoint replaceAllFrom (r : regex) (replacement : string)
         (skip : nat) (bol : bool) (s : string) : string :=
  match skip, s with
  | S k, String _ s' => replaceAllFrom r replacement k false s'
  | S _, EmptyString => EmptyString
  | O, _ =>
      match matchAt r bol s, s with
      | Some rest, String a s' =>
          match length s - length rest with
          | O => replacement +:+ String a (replaceAllFrom r replacement 0 false s')
          | S k => replacement +:+ replaceAllFrom r replacement k false s'
          end
      | Some _, EmptyString => replacement
      | None, String a s' => String a (replaceAllFrom r replacement 0 false s')
      | None, EmptyString => EmptyString
      end
  end.

Definition replaceAll (r : regex) (replacement s : string) : string :=
  replaceAllFrom r replacement 0 true s.

End RegExp.

(** ** Class names

    A class name is one token of a [class] attribute: it is not empty and
    has no white space.  The script splices the class name into the source
    text of a pattern, ['(\\s|^)' + className + '(\\s|$)'], so the name is
    read as pattern text; the model covers the names in which every
    character is a pattern character, that is, none of the syntax characters
    [^ $ \ . * + ? ( ) [ ] { } |] occurs.  Both names the script itself uses,
    ['placeholder'] and ['displayNone'], are such names. *)

Module ClassNames.
Import JsString RegExp.

Definition syntaxCharacter (c : ascii) : bool :=
  existsb (Ascii.eqb c) (list_ascii_of_string "^$\.*+?()[]{}|").

(** White space of HTML (TAB, LF, FF, CR, SP), which separates the tokens
    of a [class] attribute. *)
Definition isHtmlSpace (c : ascii) : bool :=
  let n := nat_of_ascii c in
  (Nat.eqb n 9 || Nat.eqb n 10 || Nat.eqb n 12 || Nat.eqb n 13
   || Nat.eqb n 32)%bool.

Definition tokenCharacter (c : ascii) : bool :=
  negb (syntaxCharacter c) && negb (isWhiteSpace c) && negb (isHtmlSpace c).

Definition isClassName (s : string) : bool :=
  truthy s && forallb tokenCharacter (list_ascii_of_string s).

Record ClassName : Type := mkClassName {
  text :> string;
  text_ok : isClassName text = true
}.

(** [new RegExp('(\\s|^)' + className + '(\\s|$)')]. *)
Definition classPattern (className : ClassName) : regex :=
  Seq (Alt Space Bol) (Seq (literal className) (Alt Space Eol)).

(** The pattern literal [/^\s+|\s+$/g] (the flag is in the operation that
    uses it, [replaceAll]). *)
Definition marginPattern : regex :=
  Alt (Seq Bol (Plus Space)) (Seq (Plus Space) Eol).

End ClassNames.

(** ** The [classList] of an element

    Browser code, modelled after the DOM standard's token list: the
    [class] attribute is split at HTML white space into an ordered set of
    tokens, the operation is done on the set and the set is written back,
    tokens joined by single spaces. *)

Module DOMTokenList.
Import JsString ClassNames.

(** Splitting at white space; [cur] is the token being read. *)
Fixpoint splitFrom (cur : string) (s : string) : list string :=
  match s with
  | EmptyString => if truthy cur then [cur] else []
  | String a s' =>
      if isHtmlSpace a
      then (if truthy cur then cur :: splitFrom EmptyString s'
            else splitFrom EmptyString s')
      else splitFrom (cur +:+ String a EmptyString) s'
  end.

Definition member (t : string) (l : list string) : bool :=
  existsb (String.eqb t) l.

(** An ordered set keeps the first occurrence of each token. *)
Fixpoint orderedSet (seen l : list string) : list string :=
  match l with
  | [] => []
  | t :: l' =>
      if member t seen then orderedSet seen l'
      else t :: orderedSet (t :: seen) l'
  end.

Definition parse (s : string) : list string := orderedSet [] (splitFrom EmptyString s).

Fixpoint serialize (l : list string) : string :=
  match l with
  | [] => EmptyString
  | [t] => t
  | t :: l' => t +:+ " " +:+ serialize l'
  end.

Definition contains (className : string) (token : ClassName) : bool :=
  member token (parse className).

Definition add (className : string) (token : ClassName) : string :=
  let tokens := parse className in
  serialize (if member token tokens then tokens else tokens ++ [text token]).

Definition remove (className : string) (token : ClassName) : string :=
  serialize (filter (fun t => t ≠ text token) (parse className)).

End DOMTokenList.
(** ** Objects of the page

    Input elements and forms are objects with identity; they are kept in a
    store and named by their index in it.  Function values are data: each
    closure the script creates is a constructor carrying what the closure
    captured, and functions of other scripts are named by a number. *)

Abbreviation ref := nat (only parsing).

(** The functions the script stores in event-handler properties of
    elements. *)
Inductive Handler : Type :=
| PolyfillOnClick                 (* function () { onClick(this) } *)
| PolyfillOnFocus                 (* function () { onFocus(this) } *)
| PolyfillOnBlur                  (* function () { onBlur(this) } *)
| DecoyOnClick (element placeholderElement : ref)
    (* function () { onClickPassword(element, placeholderElement) } *)
| DecoyOnFocus (element placeholderElement : ref)
    (* function () { onFocusPassword(element, placeholderElement) } *)
| PasswordOnBlur (element placeholderElement : ref)
    (* function () { onBlurPassword(element, placeholderElement) } *)
| ReturnFalse                     (* function () { return false; } *)
| ForeignHandler (n : nat).       (* a handler set by other code *)

(** The functions stored in [form.beforeOnSubmit] and
    [form.afterOnSubmit]. *)
#[warnings="-register-all"]
Inductive Fn : Type :=
| BeforeOnSubmitOf (element : ref)   (* function(){beforeOnSubmit(element)} *)
| AfterOnSubmitOf (element : ref)    (* function(){afterOnSubmit(element)} *)
| Chained (existingFunctions : option Fn) (newFunction : Fn)
    (* function() { if (existingFunctions) { existingFunctions(); }
                    newFunction(); } *)
| ForeignFn (n : nat).               (* a function of other code *)

(** The functions stored in [form.onsubmit]. *)
Inductive SubmitHandler : Type :=
| CustomOnSubmit (form : ref)
    (* function() { form.beforeOnSubmit(); form.submit();
                    form.afterOnSubmit(); return false; } *)
| ForeignOnSubmit (n : nat).

(** A sibling of an input element in its parent's list of children. *)
Inductive Node : Type :=
| InputNode (element : ref)
| OtherNode (n : nat).

Module Element.

Record t : Type := make {
  type : string;
  value : string;
  className : string;
  classList : bool;                  (* whether [element.classList] exists *)
  placeholderAttribute : option string;  (* getAttribute('placeholder') *)
  placeholder : option string;       (* the property; [None] is undefined *)
  onclick : option Handler;
  onfocus : option Handler;
  onblur : option Handler;
  onselectstart : option Handler;
  onmousedown : option Handler;
  form : option ref;                 (* the form owner; [None] is null *)
  nextSibling : option Node
}.

Definition set_type (x : string) (e : t) : t :=
  make x (value e) (className e) (classList e) (placeholderAttribute e)
    (placeholder e) (onclick e) (onfocus e) (onblur e) (onselectstart e)
    (onmousedown e) (form e) (nextSibling e).
Definition set_value (x : string) (e : t) : t :=
  make (type e) x (className e) (classList e) (placeholderAttribute e)
    (placeholder e) (onclick e) (onfocus e) (onblur e) (onselectstart e)
    (onmousedown e) (form e) (nextSibling e).
Definition set_className (x : string) (e : t) : t :=
  make (type e) (value e) x (classList e) (placeholderAttribute e)
    (placeholder e) (onclick e) (onfocus e) (onblur e) (onselectstart e)
    (onmousedown e) (form e) (nextSibling e).
Definition set_placeholder (x : option string) (e : t) : t :=
  make (type e) (value e) (className e) (classList e)
    (placeholderAttribute e) x (onclick e) (onfocus e) (onblur e)
    (onselectstart e) (onmousedown e) (form e) (nextSibling e).
Definition set_onclick (x : option Handler) (e : t) : t :=
  make (type e) (value e) (className e) (classList e)
    (placeholderAttribute e) (placeholder e) x (onfocus e) (onblur e)
    (onselectstart e) (onmousedown e) (form e) (nextSibling e).
Definition set_onfocus (x : option Handler) (e : t) : t :=
  make (type e) (value e) (className e) (classList e)
    (placeholderAttribute e) (placeholder e) (onclick e) x (onblur e)
    (onselectstart e) (onmousedown e) (form e) (nextSibling e).
Definition set_onblur (x : option Handler) (e : t) : t :=
  make (type e) (value e) (className e) (classList e)
    (placeholderAttribute e) (placeholder e) (onclick e) (onfocus e) x
    (onselectstart e) (onmousedown e) (form e) (nextSibling e).
Definition set_onselectstart (x : option Handler) (e : t) : t :=
  make (type e) (value e) (className e) (classList e)
    (placeholderAttribute e) (placeholder e) (onclick e) (onfocus e)
    (onblur e) x (onmousedown e) (form e) (nextSibling e).
Definition set_onmousedown (x : option Handler) (e : t) : t :=
  make (type e) (value e) (className e) (classList e)
    (placeholderAttribute e) (placeholder e) (onclick e) (onfocus e)
    (onblur e) (onselectstart e) x (form e) (nextSibling e).
Definition set_form (x : option ref) (e : t) : t :=
  make (type e) (value e) (className e) (classList e)
    (placeholderAttribute e) (placeholder e) (onclick e) (onfocus e)
    (onblur e) (onselectstart e) (onmousedown e) x (nextSibling e).
Definition set_nextSibling (x : option Node) (e : t) : t :=
  make (type e) (value e) (className e) (classList e)
    (placeholderAttribute e) (placeholder e) (onclick e) (onfocus e)
    (onblur e) (onselectstart e) (onmousedown e) (form e) x.

End Element.

Module Form.

Record t : Type := make {
  id : string;
  name : string;
  onsubmit : option SubmitHandler;
  onSubmitIsSet : bool;              (* undefined counts as false *)
  beforeOnSubmit : option Fn;
  afterOnSubmit : option Fn
}.

Definition set_onsubmit (x : option SubmitHandler) (f : t) : t :=
  make (id f) (name f) x (onSubmitIsSet f) (beforeOnSubmit f)
    (afterOnSubmit f).
Definition set_onSubmitIsSet (x : bool) (f : t) : t :=
  make (id f) (name f) (onsubmit f) x (beforeOnSubmit f) (afterOnSubmit f).
Definition set_beforeOnSubmit (x : option Fn) (f : t) : t :=
  make (id f) (name f) (onsubmit f) (onSubmitIsSet f) x (afterOnSubmit f).
Definition set_afterOnSubmit (x : option Fn) (f : t) : t :=
  make (id f) (name f) (onsubmit f) (onSubmitIsSet f) (beforeOnSubmit f) x.

End Form.

(** ** The script's functions that work on one element

    A function that only reads and assigns properties of the element it is
    given is a function from the element's record to the updated record. *)

Module Shim.
Import JsString RegExp ClassNames.

(** Name of the class used to identify active placeholder polyfills. *)
Definition placeholderClassName : ClassName :=
  mkClassName "placeholder" eq_refl.

(** The literal ['displayNone']. *)
Definition displayNone : ClassName := mkClassName "displayNone" eq_refl.

(** Verify is a given element has a given class. *)
Definition hasClass (element : Element.t) (className : ClassName) : bool :=
  if Element.classList element
  then DOMTokenList.contains (Element.className element) className
  else test (classPattern className) (Element.className element).

(** Adds the specified class name to an element. *)
Definition addClass (element : Element.t) (className : ClassName)
  : Element.t :=
  if Element.classList element
  then Element.set_className
         (DOMTokenList.add (Element.className element) className) element
  else if negb (hasClass element className)
  then
    let element :=
      Element.set_className
        (Element.className element +:+ " " +:+ className) element in
    Element.set_className
      (replaceAll marginPattern "" (Element.className element)) element
  else element.

(** Removes the specified class name off an element. *)
Definition removeClass (element : Element.t) (className : ClassName)
  : Element.t :=
  let element :=
    if Element.classList element
    then Element.set_className
           (DOMTokenList.remove (Element.className element) className)
           element
    else if hasClass element className
    then Element.set_className
           (replace (classPattern className) " "
              (Element.className element)) element
    else element in
  Element.set_className
    (replaceAll marginPattern ""
       (replaceString className "" (Element.className element))) element.

(** Enables text select on an specified element. *)
Definition enableTextSelection (element : Element.t) : Element.t :=
  Element.set_onmousedown None (Element.set_onselectstart None element).

(** Disabled text select on an specified element. *)
Definition disableTextSelection (element : Element.t) : Element.t :=
  Element.set_onmousedown (Some ReturnFalse)
    (Element.set_onselectstart (Some ReturnFalse) element).

(** The string assigned by [element.value = element.placeholder]: the
    property's text, or the text of [undefined] when it is not set. *)
Definition placeholderText (element : Element.t) : string :=
  match Element.placeholder element with
  | Some p => p
  | None => "undefined"
  end.

(** Activate the placeholder polyfill on a specified element. *)
Definition activatePlaceholder (element : Element.t) : Element.t :=
  let element := Element.set_value (placeholderText element) element in
  let element := addClass element placeholderClassName in
  disableTextSelection element.

(** Deactivate the placeholder polyfill on a specified element. *)
Definition deactivatePlaceholder (element : Element.t) : Element.t :=
  let element := Element.set_value "" element in
  let element := removeClass element placeholderClassName in
  enableTextSelection element.

(** Mimics placeholder behavior during an onFocus event. *)
Definition onFocus (element : Element.t) : Element.t :=
  if hasClass element placeholderClassName
  then deactivatePlaceholder element
  else element.

(** Mimics placeholder behavior during an onBlur event. *)
Definition onBlur (element : Element.t) : Element.t :=
  if String.eqb (Element.value element) ""
  then activatePlaceholder element
  else element.

(** Removes the element's value before submit when the placeholder is
    active. *)
Definition beforeOnSubmit (element : Element.t) : Element.t :=
  if hasClass element placeholderClassName
  then Element.set_value "" element
  else element.

(** Puts the placeholder text back after submit when the placeholder is
    active. *)
Definition afterOnSubmit (element : Element.t) : Element.t :=
  if hasClass element placeholderClassName
  then Element.set_value (placeholderText element) element
  else element.

End Shim.

(** ** The page and the effects of running code on it *)

Module Page.

(** The store of objects, the collection
    [document.getElementsByTagName('input')] in document order, the
    focused element and what the browser supports. *)
Record World : Type := mkWorld {
  elements : list Element.t;
  forms : list Form.t;
  inputs : list ref;
  activeElement : option ref;
  placeholderSupported : bool;   (* 'placeholder' in an input element *)
  classListSupported : bool      (* new elements have a classList *)
}.

Definition set_elements (x : list Element.t) (w : World) : World :=
  mkWorld x (forms w) (inputs w) (activeElement w) (placeholderSupported w)
    (classListSupported w).
Definition set_forms (x : list Form.t) (w : World) : World :=
  mkWorld (elements w) x (inputs w) (activeElement w)
    (placeholderSupported w) (classListSupported w).
Definition set_inputs (x : list ref) (w : World) : World :=
  mkWorld (elements w) (forms w) x (activeElement w)
    (placeholderSupported w) (classListSupported w).
Definition set_activeElement (x : option ref) (w : World) : World :=
  mkWorld (elements w) (forms w) (inputs w) x (placeholderSupported w)
    (classListSupported w).

(** What running code does besides changing objects, in order: calls of
    the functions registered for submission, [form.submit()] with the
    elements as they are at that moment, and [console.log]. *)
Inductive Action : Type :=
| Invoke (fn : Fn)
| Submit (form : ref) (data : list Element.t)
| ConsoleLog (message : string).

(** The result of running code: the actions done, the value returned
    ([None] when an exception was thrown) and the page as it is left. *)
Record Result (A : Type) : Type := mkResult {
  actions : list Action;
  outcome : option A;
  world : World
}.
Arguments mkResult {A} _ _ _.
Arguments actions {A} _.
Arguments outcome {A} _.
Arguments world {A} _.

Definition M (A : Type) : Type := World -> Result A.

Definition ret {A} (a : A) : M A := fun w => mkResult [] (Some a) w.

Definition bind {A B} (m : M A) (k : A -> M B) : M B :=
  fun w =>
    let r := m w in
    match outcome r with
    | Some a =>
        let r' := k a (world r) in
        mkResult (actions r ++ actions r') (outcome r') (world r')
    | None => mkResult (actions r) None (world r)
    end.

(** A thrown exception (a [TypeError] for a property of [null] or
    [undefined], or whatever foreign code throws). *)
Definition throw {A} : M A := fun w => mkResult [] None w.

Definition tell (a : Action) : M unit := fun w => mkResult [a] (Some tt) w.
Definition get : M World := fun w => mkResult [] (Some w) w.
Definition modify (f : World -> World) : M unit :=
  fun w => mkResult [] (Some tt) (f w).

Declare Scope page_scope.
Delimit Scope page_scope with page.
Notation "x <- m ; k" := (bind m (fun x => k))
  (at level 100, m at next level, right associativity) : page_scope.
Notation "m ;; k" := (bind m (fun _ => k))
  (at level 100, right associativity) : page_scope.
Local Open Scope page_scope.

(** Reading an object through a reference.  A reference obtained from
    the page always names an object of the store; a reference outside
    the store stops the code like [null] does. *)
Definition getElement (element : ref) : M Element.t :=
  w <- get;
  match elements w !! element with
  | Some el => ret el
  | None => throw
  end.

Definition getForm (form : option ref) : M (ref * Form.t) :=
  w <- get;
  match form with
  | Some r =>
      match forms w !! r with
      | Some f => ret (r, f)
      | None => throw
      end
  | None => throw
  end.

(** Running one of the element functions on the object behind a
    reference. *)
Definition onElement (element : ref) (f : Element.t -> Element.t)
  : M unit :=
  el <- getElement element;
  modify (fun w => set_elements (<[element := f el]> (elements w)) w).

Definition onForm (form : ref) (f : Form.t -> Form.t) : M unit :=
  fm <- getForm (Some form);
  modify (fun w => set_forms (<[form := f (snd fm)]> (forms w)) w).

Fixpoint forEach {A} (l : list A) (body : A -> M unit) : M unit :=
  match l with
  | [] => ret tt
  | x :: l' => body x ;; forEach l' body
  end.

End Page.

(** ** The script's functions that work on the page *)

Module Polyfill.
Import JsString ClassNames Page.
Local Open Scope page_scope.

(** Verify if placeholders attributes are supported.  (The element
    created for the test is dropped at once and is not put in the
    store.) *)
Definition placeholderIsSupported : M bool :=
  w <- get; ret (placeholderSupported w).

Definition truthyText (o : option string) : bool :=
  match o with Some s => truthy s | None => false end.

(** Get all input elements with a placeholder attribute. *)
Fixpoint collectPlaceholders (inputElements : list ref) : M (list ref) :=
  match inputElements with
  | [] => ret []
  | element :: rest =>
      el <- getElement element;
      if truthyText (Element.placeholder el)
         || truthyText (Element.placeholderAttribute el)
      then
        onElement element
          (fun el => Element.set_placeholder
                       (if truthyText (Element.placeholder el)
                        then Element.placeholder el
                        else Element.placeholderAttribute el) el) ;;
        found <- collectPlaceholders rest;
        ret (element :: found)
      else collectPlaceholders rest
  end.

Definition getElementsWithPlaceholders : M (list ref) :=
  w <- get; collectPlaceholders (inputs w).

(** Add a new 'beforeOnSubmit' custom event. *)
Definition addBeforeOnSubmit (form : option ref) (newFunction : Fn)
  : M unit :=
  fm <- getForm form;
  let existingFunctions := Form.beforeOnSubmit (snd fm) in
  onForm (fst fm) (Form.set_beforeOnSubmit None) ;;
  onForm (fst fm)
    (Form.set_beforeOnSubmit (Some (Chained existingFunctions newFunction))).

(** Add a new 'afterOnSubmit' custom event. *)
Definition addAfterOnSubmit (form : option ref) (newFunction : Fn)
  : M unit :=
  fm <- getForm form;
  let existingFunctions := Form.afterOnSubmit (snd fm) in
  onForm (fst fm) (Form.set_afterOnSubmit None) ;;
  onForm (fst fm)
    (Form.set_afterOnSubmit (Some (Chained existingFunctions newFunction))).

(** The text logged when a form already has an [onsubmit] handler. *)
Definition extraInfo (fm : Form.t) : string :=
  if truthy (Form.id fm) then " with id `" +:+ Form.id fm +:+ "`"
  else if truthy (Form.name fm) then " with name `" +:+ Form.id fm +:+ "`"
  else "".

Definition onsubmitWarning (fm : Form.t) : string :=
  "Onsubmit event was already set on form" +:+ extraInfo fm
  +:+ ". Make sure that all"
  +:+ " scripts used on this form use the custom `beforeOnSubmit` and `afterOnSubmit` events to ensure that"
  +:+ " that all functionalities are operational.".

(** Configure a specified form to use custom before and after submit
    events. *)
Definition setCustomBeforeAndAfterOnSubmitEvents (form : option ref)
  : M unit :=
  fm <- getForm form;
  if negb (Form.onSubmitIsSet (snd fm))
     && bool_decide (is_Some (Form.beforeOnSubmit (snd fm)))
     && bool_decide (is_Some (Form.afterOnSubmit (snd fm)))
  then
    (if bool_decide (is_Some (Form.onsubmit (snd fm)))
     then tell (ConsoleLog (onsubmitWarning (snd fm)))
     else ret tt) ;;
    onForm (fst fm) (Form.set_onsubmit (Some (CustomOnSubmit (fst fm)))) ;;
    onForm (fst fm) (Form.set_onSubmitIsSet true)
  else ret tt.

(** Polyfill a specified input element. *)
Definition polyfill (element : ref) : M unit :=
  onElement element Shim.activatePlaceholder ;;
  onElement element (Element.set_onclick (Some PolyfillOnClick)) ;;
  onElement element (Element.set_onfocus (Some PolyfillOnFocus)) ;;
  onElement element (Element.set_onblur (Some PolyfillOnBlur)) ;;
  el <- getElement element;
  addBeforeOnSubmit (Element.form el) (BeforeOnSubmitOf element) ;;
  el <- getElement element;
  addAfterOnSubmit (Element.form el) (AfterOnSubmitOf element) ;;
  el <- getElement element;
  setCustomBeforeAndAfterOnSubmitEvents (Element.form el).

(** [document.createElement('input')]: a new input element, of type
    text, with no attribute and no handler, outside the document. *)
Definition createInput : M ref :=
  w <- get;
  modify (set_elements
            (elements w ++
               [Element.make "text" "" "" (classListSupported w) None None
                  None None None None None None None])) ;;
  ret (List.length (elements w)).

Fixpoint insertAfter (element new : ref) (l : list ref) : list ref :=
  match l with
  | [] => []
  | x :: l' =>
      if Nat.eqb x element then x :: new :: l'
      else x :: insertAfter element new l'
  end.

(** [element.parentNode.insertBefore(placeholderElement,
    element.nextSibling)] for an element of the document: the new element
    becomes the next sibling of [element], gets the old next sibling as
    its own, joins the form of its new place and follows [element] in the
    collection of inputs. *)
Definition insertAsNextSibling (element placeholderElement : ref)
  : M unit :=
  el <- getElement element;
  onElement placeholderElement
    (fun p => Element.set_form (Element.form el)
                (Element.set_nextSibling (Element.nextSibling el) p)) ;;
  onElement element
    (Element.set_nextSibling (Some (InputNode placeholderElement))) ;;
  modify (fun w => set_inputs
                     (insertAfter element placeholderElement (inputs w)) w).

(** Polyfill a specified input element of type password. *)
Definition polyfillPassword (element : ref) : M unit :=
  el <- getElement element;
  if String.eqb (Element.type el) "password"
  then
    placeholderElement <- createInput;
    onElement placeholderElement (Element.set_type "text") ;;
    el <- getElement element;
    onElement placeholderElement
      (Element.set_className (Element.className el)) ;;
    el <- getElement element;
    onElement placeholderElement
      (Element.set_placeholder (Element.placeholder el)) ;;
    onElement placeholderElement Shim.activatePlaceholder ;;
    onElement placeholderElement
      (Element.set_onclick (Some (DecoyOnClick element placeholderElement))) ;;
    onElement placeholderElement
      (Element.set_onfocus (Some (DecoyOnFocus element placeholderElement))) ;;
    onElement element
      (Element.set_onblur (Some (PasswordOnBlur element placeholderElement))) ;;
    onElement element (fun el => Shim.addClass el Shim.displayNone) ;;
    insertAsNextSibling element placeholderElement
  else ret tt.

(** Mimics placeholder behavior during an onClick event: the same as a
    focus, only if the element was not active. *)
Definition onClick (element : ref) : M unit :=
  w <- get;
  if bool_decide (activeElement w = Some element)
  then ret tt
  else onElement element Shim.onFocus.

(** [element.focus()]: the element becomes the active element.  (The
    focus and blur events the browser fires for that are events of their
    own.) *)
Definition focus (element : ref) : M unit :=
  getElement element ;;
  modify (set_activeElement (Some element)).

(** Mimics placeholder behavior on a password during an onClick event. *)
Definition onClickPassword (element placeholderElement : ref) : M unit :=
  onElement placeholderElement
    (fun el => Shim.addClass el Shim.displayNone) ;;
  onElement element (fun el => Shim.removeClass el Shim.displayNone) ;;
  focus element.

(** Mimics placeholder behavior on a password during an onFocus event. *)
Definition onFocusPassword (element placeholderElement : ref) : M unit :=
  onClickPassword element placeholderElement.

(** Mimics placeholder behavior on a password during an onBlur event. *)
Definition onBlurPassword (element placeholderElement : ref) : M unit :=
  el <- getElement element;
  if Nat.eqb (length (Element.value el)) 0
  then
    onElement element (fun el => Shim.addClass el Shim.displayNone) ;;
    onElement placeholderElement
      (fun el => Shim.removeClass el Shim.displayNone)
  else ret tt.


(** The constructor. *)
Definition placeholderPolyfill : M unit :=
  supported <- placeholderIsSupported;
  if negb supported
  then
    inputElementsWithPlaceholders <- getElementsWithPlaceholders;
    forEach inputElementsWithPlaceholders
      (fun element =>
         el <- getElement element;
         if String.eqb (Element.type el) "password"
         then polyfillPassword element
         else polyfill element)
  else ret tt.

End Polyfill.

(** ** Events

    The browser calls back into the script: the handler stored in an
    element's or a form's property runs when the event reaches the object.
    Code of other scripts is a parameter: [foreign n w] is the page after
    function [n] of other code ran on the page [w], or [None] when it
    throws. *)

Inductive Event : Type :=
| Click (target : ref)
| Focus (target : ref)
| Blur (target : ref)
| Input (target : ref) (text : string)   (* the user edits the field *)
| SubmitEvent (form : ref).              (* the user submits the form *)

Module Events.
Import JsString ClassNames Page Polyfill.
Local Open Scope page_scope.

Section Foreign.

Variable foreign : nat -> World -> option World.

Definition runForeign (n : nat) : M unit :=
  fun w =>
    match foreign n w with
    | Some w' => mkResult [] (Some tt) w'
    | None => mkResult [] None w
    end.

(** Calling a function stored in [beforeOnSubmit] or
    [afterOnSubmit]. *)
Fixpoint call (fn : Fn) : M unit :=
  match fn with
  | BeforeOnSubmitOf element =>
      tell (Invoke fn) ;; onElement element Shim.beforeOnSubmit
  | AfterOnSubmitOf element =>
      tell (Invoke fn) ;; onElement element Shim.afterOnSubmit
  | Chained existingFunctions newFunction =>
      match existingFunctions with
      | Some existing => call existing
      | None => ret tt
      end ;;
      call newFunction
  | ForeignFn n => tell (Invoke fn) ;; runForeign n
  end.

(** Calling a property that should hold a function. *)
Definition callProperty (property : option Fn) : M unit :=
  match property with
  | Some fn => call fn
  | None => throw
  end.

(** [form.submit()]: the form is sent with the values its elements
    have now. *)
Definition submit (form : ref) : M unit :=
  w <- get; tell (Submit form (elements w)).

(** The handler the script stores in [form.onsubmit]. *)
Definition customOnSubmit (form : ref) : M bool :=
  fm <- getForm (Some form);
  callProperty (Form.beforeOnSubmit (snd fm)) ;;
  submit form ;;
  fm <- getForm (Some form);
  callProperty (Form.afterOnSubmit (snd fm)) ;;
  ret false.

(** Running an event handler with [this] bound to the target. *)
Definition runHandler (h : Handler) (this : ref) : M unit :=
  match h with
  | PolyfillOnClick => onClick this
  | PolyfillOnFocus => onElement this Shim.onFocus
  | PolyfillOnBlur => onElement this Shim.onBlur
  | DecoyOnClick element placeholderElement =>
      onClickPassword element placeholderElement
  | DecoyOnFocus element placeholderElement =>
      onFocusPassword element placeholderElement
  | PasswordOnBlur element placeholderElement =>
      onBlurPassword element placeholderElement
  | ReturnFalse => ret tt
  | ForeignHandler n => runForeign n
  end.

Definition runProperty (property : option Handler) (this : ref)
  : M unit :=
  match property with
  | Some h => runHandler h this
  | None => ret tt
  end.

(** One event reaching its target.  A form without handler is sent by
    the browser itself. *)
Definition dispatch (ev : Event) : M unit :=
  match ev with
  | Click target =>
      el <- getElement target; runProperty (Element.onclick el) target
  | Focus target =>
      el <- getElement target;
      modify (set_activeElement (Some target)) ;;
      runProperty (Element.onfocus el) target
  | Blur target =>
      el <- getElement target;
      modify (fun w => if bool_decide (activeElement w = Some target)
                       then set_activeElement None w else w) ;;
      runProperty (Element.onblur el) target
  | Input target text => onElement target (Element.set_value text)
  | SubmitEvent form =>
      fm <- getForm (Some form);
      match Form.onsubmit (snd fm) with
      | Some (CustomOnSubmit form') => customOnSubmit form' ;; ret tt
      | Some (ForeignOnSubmit n) => runForeign n
      | None => submit form
      end
  end.

(** A sequence of events; an exception thrown by a handler ends that
    handler only. *)
Fixpoint run (evs : list Event) : M unit :=
  match evs with
  | [] => ret tt
  | ev :: evs' =>
      fun w =>
        let r := dispatch ev w in
        let r' := run evs' (world r) in
        mkResult (actions r ++ actions r') (Some tt) (world r')
  end.

End Foreign.

End Events.

(** ** Vocabulary of the properties *)

Module Vocabulary.
Import JsString Page Polyfill Events.

(** What the installing call logs for a form. *)
Definition warning (fm : Form.t) : list Action :=
  if bool_decide (is_Some (Form.onsubmit fm))
  then [ConsoleLog (onsubmitWarning fm)] else [].

(** A form after the installing call. *)
Definition installed (r : ref) (fm : Form.t) : Form.t :=
  Form.set_onSubmitIsSet true
    (Form.set_onsubmit (Some (CustomOnSubmit r)) fm).

(** The value of a function property after registering the functions
    [fns], one after the other, on top of [existing]. *)
Definition chainOnto (existing : option Fn) (fns : list Fn) : option Fn :=
  fold_left (fun acc fn => Some (Chained acc fn)) fns existing.

(** The functions found in a property: none when it is not set. *)
Definition held (property : option Fn) : list Fn :=
  match property with Some fn => [fn] | None => [] end.

(** Calling functions one after the other. *)
Definition callEach (foreign : nat -> World -> option World)
           (fns : list Fn) : M unit :=
  forEach fns (call foreign).

(** The functions a stored function ends up calling, in call order: a
    chain calls what it captured, any other function is itself. *)
Fixpoint callees (fn : Fn) : list Fn :=
  match fn with
  | Chained existingFunctions newFunction =>
      match existingFunctions with
      | Some existing => callees existing
      | None => []
      end ++ callees newFunction
  | _ => [fn]
  end.

Definition calleesOf (fns : list Fn) : list Fn :=
  concat (map callees fns).

(** Dropping the white space at the left end, and at the right end, of a
string: what replacing the matches of [/^\s+|\s+$/g] by nothing comes to. *)
Fixpoint trimLeft (s : string) : string :=
  match s with
  | String a s' => if isWhiteSpace a then trimLeft s' else s
  | EmptyString => EmptyString
  end.

Fixpoint allSpace (s : string) : bool :=
  match s with
  | String a s' => isWhiteSpace a && allSpace s'
  | EmptyString => true
  end.

Fixpoint trimRight (s : string) : string :=
  match s with
  | String a s' =>
      if isWhiteSpace a && allSpace s' then EmptyString
      else String a (trimRight s')
  | EmptyString => EmptyString
  end.

(** No character of the string is white space. *)
Fixpoint noSpace (s : string) : bool :=
  match s with
  | String a s' =>
      negb (isWhiteSpace a) && negb (ClassNames.isHtmlSpace a) && noSpace s'
  | EmptyString => true
  end.

(** The continuation that ends a match. *)
Definition accept : RegExp.cont := fun _ rest => Some rest.

(** A token of a [class] attribute: not empty, no HTML white space. *)
Fixpoint noHtmlSpace (s : string) : bool :=
  match s with
  | String a s' => negb (ClassNames.isHtmlSpace a) && noHtmlSpace s'
  | EmptyString => true
  end.

Definition isToken (t : string) : Prop :=
  truthy t = true /\ noHtmlSpace t = true.

(** An element as [polyfill] leaves it. *)
Definition wired (el : Element.t) : Element.t :=
  Element.set_onblur (Some PolyfillOnBlur)
    (Element.set_onfocus (Some PolyfillOnFocus)
       (Element.set_onclick (Some PolyfillOnClick)
          (Shim.activatePlaceholder el))).

(** A relation between the page before and the page after that holds for
every run of a computation, whether it returns or throws. *)
Definition Frame (R : World -> World -> Prop) {A} (m : M A) : Prop :=
  forall w, R w (world (m w)).

(** The store of elements is the same. *)
Definition sameElements (w w' : World) : Prop := elements w' = elements w.

(** A form after [polyfill] registered element [e] for it. *)
Definition registeredFor (e r : ref) (fm : Form.t) : Form.t :=
  let fm1 :=
    Form.set_afterOnSubmit
      (Some (Chained (Form.afterOnSubmit fm) (AfterOnSubmitOf e)))
      (Form.set_beforeOnSubmit
         (Some (Chained (Form.beforeOnSubmit fm) (BeforeOnSubmitOf e))) fm) in
  if Form.onSubmitIsSet fm then fm1 else installed r fm1.

(** The form an element belongs to, when it is in the store. *)
Definition formOf (w : World) (el : Element.t) : option (ref * Form.t) :=
  match Element.form el with
  | Some r =>
      match forms w !! r with
      | Some fm => Some (r, fm)
      | None => None
      end
  | None => None
  end.

(** The store after running an element function on the elements [es], one
after the other. *)
Fixpoint applyAll (f : Element.t -> Element.t) (es : list ref)
         (l : list Element.t) : list Element.t :=
  match es with
  | [] => l
  | e :: es' =>
      applyAll f es'
        (match l !! e with Some el => <[e := f el]> l | None => l end)
  end.

(** The form [r] holds the functions that [polyfill] registered for the
elements [es], in this order, all of them in the store, and the custom
handler is installed. *)
Definition hooked (w : World) (r : ref) (es : list ref) : Prop :=
  exists fm,
    forms w !! r = Some fm
    /\ Form.beforeOnSubmit fm = chainOnto None (map BeforeOnSubmitOf es)
    /\ Form.afterOnSubmit fm = chainOnto None (map AfterOnSubmitOf es)
    /\ Form.onsubmit fm = Some (CustomOnSubmit r)
    /\ es <> []
    /\ Forall (fun e => e < List.length (elements w)) es.

(** The elements for which functions of the script are found in a stored
function. *)
Fixpoint targetsOf (fn : Fn) : list ref :=
  match fn with
  | BeforeOnSubmitOf e => [e]
  | AfterOnSubmitOf e => [e]
  | Chained existingFunctions newFunction =>
      match existingFunctions with
      | Some existing => targetsOf existing
      | None => []
      end ++ targetsOf newFunction
  | ForeignFn _ => []
  end.

Definition targets (property : option Fn) : list ref :=
  match property with Some fn => targetsOf fn | None => [] end.

(** A handler property is fine for an element when it holds nothing or a
handler of the script, the handlers of [polyfill] only on elements that are
not password fields. *)
Definition handlerFine (el : Element.t) (h : option Handler) : Prop :=
  match h with
  | None => True
  | Some PolyfillOnClick | Some PolyfillOnFocus | Some PolyfillOnBlur =>
      Element.type el <> "password"
  | Some (ForeignHandler _) => False
  | Some _ => True
  end.

(** An element is fine on a page when its handlers are, its form is on the
page and, if [polyfill] wired it, it is registered with its form. *)
Definition elementFine (w : World) (e : ref) (el : Element.t) : Prop :=
  handlerFine el (Element.onclick el)
  /\ handlerFine el (Element.onfocus el)
  /\ handlerFine el (Element.onblur el)
  /\ forall r,
      Element.form el = Some r ->
      exists fm,
        forms w !! r = Some fm
        /\ (Element.onfocus el = Some PolyfillOnFocus ->
            e ∈ targets (Form.beforeOnSubmit fm)).

(** A form is fine on a page when its two function properties hold the
chains [polyfill] builds, for the same elements, none of them a password
field, and the custom handler is installed exactly when there are such
elements. *)
Definition formFine (w : World) (r : ref) (fm : Form.t) : Prop :=
  let es := targets (Form.beforeOnSubmit fm) in
  Form.beforeOnSubmit fm = chainOnto None (map BeforeOnSubmitOf es)
  /\ Form.afterOnSubmit fm = chainOnto None (map AfterOnSubmitOf es)
  /\ Forall (fun e => exists el, elements w !! e = Some el
                                 /\ Element.type el <> "password") es
  /\ Form.onsubmit fm
     = (if bool_decide (es = []) then None else Some (CustomOnSubmit r))
  /\ Form.onSubmitIsSet fm = negb (bool_decide (es = [])).

(** The invariant of pages on which only this script runs. *)
Definition Wired (w : World) : Prop :=
  (forall e el, elements w !! e = Some el -> elementFine w e el)
  /\ (forall r fm, forms w !! r = Some fm -> formFine w r fm).

(** A page as the browser builds it from a document without other scripts:
no handler is set, no form has the properties the script adds, and the form
of every element is on the page. *)
Definition scriptFree (w : World) : Prop :=
  (forall e el,
      elements w !! e = Some el ->
      Element.onclick el = None /\ Element.onfocus el = None
      /\ Element.onblur el = None
      /\ forall r, Element.form el = Some r -> r < List.length (forms w))
  /\ (forall r fm,
        forms w !! r = Some fm ->
        Form.onsubmit fm = None /\ Form.onSubmitIsSet fm = false
        /\ Form.beforeOnSubmit fm = None /\ Form.afterOnSubmit fm = None).

(** The properties of an element that events never change. *)
Definition hard (el : Element.t)
  : string * option Handler * option Handler * option Handler * option ref :=
  (Element.type el, Element.onclick el, Element.onfocus el,
   Element.onblur el, Element.form el).

(** Between two pages: the forms are the same and every element is still
there with its hard properties. *)
Definition soft (w w' : World) : Prop :=
  forms w' = forms w
  /\ List.length (elements w') = List.length (elements w)
  /\ forall e el,
      elements w !! e = Some el ->
      exists el', elements w' !! e = Some el' /\ hard el' = hard el.

(** The value a field has from the user: the text of the last input event
on it, or what it had. *)
Fixpoint typed (evs : list Event) (e : ref) (v : string) : string :=
  match evs with
  | [] => v
  | Input target text :: evs' =>
      typed evs' e (if Nat.eqb target e then text else v)
  | _ :: evs' => typed evs' e v
  end.

(** A property that holds after when it holds before. *)
Definition keeps (P : World -> Prop) (w w' : World) : Prop := P w -> P w'.

(** The element [document.createElement('input')] returns. *)
Definition freshInput (w : World) : Element.t :=
  Element.make "text" "" "" (classListSupported w) None None
    None None None None None None None.

(** The decoy [polyfillPassword] makes for the password field [el] at
reference [e], once it is in the document; [d] is the decoy's reference. *)
Definition decoyOf (w : World) (e d : ref) (el : Element.t) : Element.t :=
  Element.set_form (Element.form el)
    (Element.set_nextSibling (Element.nextSibling el)
       (Element.set_onfocus (Some (DecoyOnFocus e d))
          (Element.set_onclick (Some (DecoyOnClick e d))
             (Shim.activatePlaceholder
                (Element.set_placeholder (Element.placeholder el)
                   (Element.set_className (Element.className el)
                      (Element.set_type "text" (freshInput w)))))))).

(** The password field as [polyfillPassword] leaves it. *)
Definition hiddenPassword (e d : ref) (el : Element.t) : Element.t :=
  Element.set_nextSibling (Some (InputNode d))
    (Shim.addClass (Element.set_onblur (Some (PasswordOnBlur e d)) el)
       Shim.displayNone).

(** The element has a placeholder, as a property or as an attribute. *)
Definition hasPlaceholder (el : Element.t) : bool :=
  truthyText (Element.placeholder el)
  || truthyText (Element.placeholderAttribute el).

(** Between two pages: every element is still there, with its type, its
form and its placeholder if it had one, and wired if it was. *)
Definition grows (w w' : World) : Prop :=
  forall e el,
    elements w !! e = Some el ->
    exists el',
      elements w' !! e = Some el'
      /\ Element.type el' = Element.type el
      /\ Element.form el' = Element.form el
      /\ (hasPlaceholder el = true -> hasPlaceholder el' = true)
      /\ (Element.onfocus el = Some PolyfillOnFocus ->
          Element.onfocus el' = Some PolyfillOnFocus).

(** Between two pages: every password field is still there, a password
field, with the value it had. *)
Definition passwordsKept (w w' : World) : Prop :=
  forall e el,
    elements w !! e = Some el ->
    Element.type el = "password" ->
    exists el',
      elements w' !! e = Some el'
      /\ Element.type el' = "password"
      /\ Element.value el' = Element.value el.

(** The number of places of [s] at which [c] occurs as a substring. *)
Fixpoint occurrences (c s : string) : nat :=
  (if String.prefix c s then 1 else 0)
  + match s with
    | String _ s' => occurrences c s'
    | EmptyString => 0
    end.

(** What is left of [s] after its prefix [c], if [c] is one. *)
Fixpoint stripPrefix (c s : string) : option string :=
  match c, s with
  | EmptyString, _ => Some s
  | String a c', String b s' =>
      if Ascii.eqb b a then stripPrefix c' s' else None
  | String _ _, EmptyString => None
  end.

(** The words of a string: its parts between white space (as [\s] has
it); [cur] is the word being read. *)
Fixpoint wordsFrom (cur : string) (s : string) : list string :=
  match s with
  | EmptyString => if truthy cur then [cur] else []
  | String a s' =>
      if isWhiteSpace a
      then (if truthy cur then cur :: wordsFrom EmptyString s'
            else wordsFrom EmptyString s')
      else wordsFrom (cur +:+ String a EmptyString) s'
  end.

Definition words (s : string) : list string := wordsFrom EmptyString s.

(** [sep] joins [x] and [y] as the class pattern allows: it is one white
space character, or nothing next to an end of the string. *)
Definition joint (sep x y : string) : Prop :=
  (sep = "" /\ (x = "" \/ y = ""))
  \/ (exists a, sep = String a "" /\ isWhiteSpace a = true).

End Vocabulary.

(** ** Sample pages *)

Module Samples.
Import Page.

(** A text field with a placeholder attribute, inside form 0. *)
Definition nameField : Element.t :=
  Element.make "text" "" "big" false (Some "Name") None
    None None None None None (Some 0) (Some (OtherNode 7)).

(** A password field with a placeholder attribute, inside form 0. *)
Definition passwordField : Element.t :=
  Element.make "password" "" "" false (Some "Pass") None
    None None None None None (Some 0) None.

(** A form with a name and no id, whose [onsubmit] is set by other
    code. *)
Definition loginForm : Form.t :=
  Form.make "" "login" (Some (ForeignOnSubmit 3)) false None None.

Definition loginPage : World :=
  mkWorld [nameField; passwordField] [loginForm] [0; 1] None false false.

(** The same page in a browser with native placeholders. *)
Definition modernPage : World :=
  mkWorld [nameField; passwordField] [loginForm] [0; 1] None true true.

(** Other code that does nothing. *)
Definition inert : nat -> World -> option World := fun _ w => Some w.

(** The login form once two functions are registered for it. *)
Definition hookedForm : Form.t :=
  Form.make "" "login" (Some (ForeignOnSubmit 3)) false
    (Some (Chained None (BeforeOnSubmitOf 0)))
    (Some (Chained None (AfterOnSubmitOf 0))).

Definition hookedPage : World :=
  mkWorld [nameField; passwordField] [hookedForm] [0; 1] None false false.

(** A field whose [class] attribute repeats the marker class, as the
document has it. *)
Definition tripleField : Element.t :=
  Element.make "text" "" "placeholder placeholder placeholder" false
    (Some "Name") None None None None None None (Some 0) None.

(** A field with a class whose name contains the marker's name. *)
Definition wrapperField : Element.t :=
  Element.make "text" "" "placeholder-wrapper placeholder" false
    (Some "Name") None None None None None None (Some 0) None.

(** A form no script has touched. *)
Definition plainForm : Form.t := Form.make "" "login" None false None None.

(** A page with the field that repeats the marker class, untouched by
scripts, in a browser without placeholders and without [classList]. *)
Definition triplePage : World :=
  mkWorld [tripleField] [plainForm] [0] None false false.

(** The login page after the script ran on it. *)
Definition wiredPage : World :=
  Eval vm_compute in world (Polyfill.placeholderPolyfill loginPage).

(** A page no script has touched, in a browser without placeholders. *)
Definition plainPage : World :=
  mkWorld [nameField; passwordField] [plainForm] [0; 1] None false false.

End Samples.

(** ** Further vocabulary *)

Module Notions.
Import JsString ClassNames Page Polyfill Events Vocabulary.

(** A word can end before [q]: nothing follows, or white space does. *)
Definition boundary (q : string) : Prop :=
  q = "" \/ exists b q', q = String b q' /\ isWhiteSpace b = true.

(** No white space at the left end and none at the right end. *)
Definition trimmed (s : string) : Prop :=
  trimLeft s = s /\ trimRight s = s.

(** An element once [getElementsWithPlaceholders] has put it in its
result: the [placeholder] property holds the property's text, or the
attribute's when the property had none. *)
Definition collected (el : Element.t) : Element.t :=
  Element.set_placeholder
    (if truthyText (Element.placeholder el) then Element.placeholder el
     else Element.placeholderAttribute el) el.

(** The element behind a reference has a placeholder. *)
Definition placeholderAt (w : World) (e : ref) : bool :=
  match elements w !! e with
  | Some el => hasPlaceholder el
  | None => false
  end.

(** A reference names an element of the page. *)
Definition onPage (w : World) (e : ref) : Prop :=
  e < List.length (elements w).

(** The element is hidden by the class [displayNone], whose name occurs
once in the class attribute. *)
Definition hiddenByClass (el : Element.t) : Prop :=
  Shim.hasClass el Shim.displayNone = true
  /\ occurrences Shim.displayNone (Element.className el) = 1.

(** The name [displayNone] does not occur in the class attribute; the
element does not have the class then. *)
Definition freeOfClass (el : Element.t) : Prop :=
  occurrences Shim.displayNone (Element.className el) = 0.

(** The element behind a reference is a password field. *)
Definition passwordAt (w : World) (e : ref) : bool :=
  match elements w !! e with
  | Some el => String.eqb (Element.type el) "password"
  | None => false
  end.


(** The body of the constructor's loop. *)
Definition polyfillEither (element : ref) : M unit :=
  bind (getElement element)
    (fun el => if String.eqb (Element.type el) "password"
               then polyfillPassword element
               else polyfill element).

End Notions.

(** ** More sample pages *)

Module Pages.
Import Page.

(** A text field without placeholder that has a value, inside form 0. *)
Definition cityField : Element.t :=
  Element.make "text" "Paris" "wide" false None None
    None None None None None (Some 0) None.


(** A field with a placeholder and a value set in the document. *)
Definition emailField : Element.t :=
  Element.make "text" "bob@example.org" "" false (Some "Email") None
    None None None None None (Some 0) None.


(** A form with a pre-filled field, a field without placeholder and a
password field. *)
Definition signupPage : World :=
  mkWorld [emailField; cityField; Samples.passwordField] [Samples.plainForm]
    [0; 1; 2] None false false.

End Pages.

(** * Properties *)

(** ** Running the primitives *)

Module Run.
Import Page.
Local Open Scope page_scope.

Lemma bind_ret_l {A B} (a : A) (k : A -> M B) w :
  bind (ret a) k w = k a w.
Proof. unfold bind, ret; simpl. by destruct (k a w). Qed.

Lemma bind_assoc {A B C} (m : M A) (k : A -> M B) (h : B -> M C) w :
  bind (bind m k) h w = bind m (fun a => bind (k a) h) w.
Proof.
  unfold bind; simpl.
  destruct (m w) as [l1 [a|] w1]; simpl; [|done].
  destruct (k a w1) as [l2 [b|] w2]; simpl; [|done].
  destruct (h b w2) as [l3 o3 w3]; simpl. by rewrite app_assoc.
Qed.

Lemma bind_ext {A B} (m : M A) (k k' : A -> M B) w :
  (forall a w', k a w' = k' a w') -> bind m k w = bind m k' w.
Proof. intros H. unfold bind. destruct (outcome (m w)); [by rewrite H|done]. Qed.

Lemma bind_run {A B} (m : M A) (k : A -> M B) w a w1 :
  m w = mkResult [] (Some a) w1 -> bind m k w = k a w1.
Proof. intros H. unfold bind. rewrite H. simpl. by destruct (k a w1). Qed.

Lemma bind_run_actions {A B} (m : M A) (k : A -> M B) w l a w1 :
  m w = mkResult l (Some a) w1 ->
  bind m k w
  = mkResult (l ++ actions (k a w1)) (outcome (k a w1)) (world (k a w1)).
Proof. intros H. unfold bind. by rewrite H. Qed.

Lemma bind_throw {A B} (m : M A) (k : A -> M B) w l w1 :
  m w = mkResult l None w1 -> bind m k w = mkResult l None w1.
Proof. intros H. unfold bind. by rewrite H. Qed.

Lemma getElement_run w e el :
  elements w !! e = Some el -> getElement e w = mkResult [] (Some el) w.
Proof. intros H. unfold getElement, bind, get; simpl. by rewrite H. Qed.

Lemma getElement_fail w e :
  elements w !! e = None -> getElement e w = mkResult [] None w.
Proof. intros H. unfold getElement, bind, get; simpl. by rewrite H. Qed.

Lemma getForm_run w r fm :
  forms w !! r = Some fm -> getForm (Some r) w = mkResult [] (Some (r, fm)) w.
Proof. intros H. unfold getForm, bind, get; simpl. by rewrite H. Qed.

Lemma onElement_run w e el f :
  elements w !! e = Some el ->
  onElement e f w
  = mkResult [] (Some tt) (set_elements (<[e := f el]> (elements w)) w).
Proof. intros H. unfold onElement, bind. by rewrite (getElement_run _ _ _ H). Qed.

Lemma onElement_fail w e f :
  elements w !! e = None -> onElement e f w = mkResult [] None w.
Proof. intros H. unfold onElement, bind. by rewrite (getElement_fail _ _ H). Qed.

Lemma onForm_run w r fm f :
  forms w !! r = Some fm ->
  onForm r f w = mkResult [] (Some tt) (set_forms (<[r := f fm]> (forms w)) w).
Proof. intros H. unfold onForm, bind. by rewrite (getForm_run _ _ _ H). Qed.

End Run.

Module Gate.
Import Page Polyfill.

(** C6.  When the feature test reports native placeholder support, the
    constructor does nothing: it returns with the page exactly as it was
    (no element's value, class or handlers changed, no element created,
    no form's onsubmit replaced) and without any action. *)
Theorem supported_browser_untouched (w : World) :
  placeholderSupported w = true ->
  placeholderPolyfill w = mkResult [] (Some tt) w.
Proof.
  intros H. unfold placeholderPolyfill, placeholderIsSupported, bind, get, ret.
  simpl. by rewrite H.
Qed.

Lemma supported_browser_untouched_witness :
  placeholderSupported Samples.modernPage = true
  /\ placeholderPolyfill Samples.modernPage
     = mkResult [] (Some tt) Samples.modernPage.
Proof.
  split; [reflexivity|].
  apply (supported_browser_untouched Samples.modernPage). reflexivity.
Defined.

End Gate.

(** ** Installing the submit handler *)

Module Install.
Import JsString Page Polyfill Run Vocabulary.

(** The call that installs the handler. *)
Lemma install_run w r fm :
  forms w !! r = Some fm ->
  Form.onSubmitIsSet fm = false ->
  is_Some (Form.beforeOnSubmit fm) ->
  is_Some (Form.afterOnSubmit fm) ->
  setCustomBeforeAndAfterOnSubmitEvents (Some r) w
  = mkResult (warning fm) (Some tt)
      (set_forms (<[r := installed r fm]> (forms w)) w).
Proof.
  intros Hfm Hflag Hb Ha.
  unfold setCustomBeforeAndAfterOnSubmitEvents, bind.
  rewrite (getForm_run _ _ _ Hfm); simpl.
  rewrite Hflag, !bool_decide_eq_true_2 by done; simpl.
  assert (Hlt : r < List.length (forms w)) by by eapply lookup_lt_Some.
  unfold warning.
  destruct (bool_decide (is_Some (Form.onsubmit fm))); simpl;
    erewrite onForm_run by done; simpl;
    (erewrite onForm_run by (simpl; by apply list_lookup_insert_eq)); simpl;
    unfold set_forms; simpl; by rewrite list_insert_insert_eq.
Qed.

(** A call that finds the flag set, or a function missing, does
    nothing. *)
Lemma install_skip w r fm :
  forms w !! r = Some fm ->
  Form.onSubmitIsSet fm = true
  \/ Form.beforeOnSubmit fm = None \/ Form.afterOnSubmit fm = None ->
  setCustomBeforeAndAfterOnSubmitEvents (Some r) w = mkResult [] (Some tt) w.
Proof.
  intros Hfm H.
  unfold setCustomBeforeAndAfterOnSubmitEvents, bind.
  rewrite (getForm_run _ _ _ Hfm); simpl.
  destruct H as [->|[->| ->]]; simpl; [done| |].
  - by rewrite andb_false_r.
  - by rewrite andb_false_r.
Qed.

(** C9.  Installation happens once: the installing call sets
    [form.onSubmitIsSet] and stores the custom handler, and every later
    call on that form, on whatever page still has the flag set, returns
    with the page unchanged (so [form.onsubmit] is unchanged) and logs
    nothing. *)
Theorem install_once w r fm :
  forms w !! r = Some fm ->
  Form.onSubmitIsSet fm = false ->
  is_Some (Form.beforeOnSubmit fm) ->
  is_Some (Form.afterOnSubmit fm) ->
  let first := setCustomBeforeAndAfterOnSubmitEvents (Some r) w in
  outcome first = Some tt
  /\ (exists fm1,
        forms (world first) !! r = Some fm1
        /\ Form.onSubmitIsSet fm1 = true
        /\ Form.onsubmit fm1 = Some (CustomOnSubmit r)
        /\ setCustomBeforeAndAfterOnSubmitEvents (Some r) (world first)
           = mkResult [] (Some tt) (world first))
  /\ (forall w2 fm2,
        forms w2 !! r = Some fm2 ->
        Form.onSubmitIsSet fm2 = true ->
        setCustomBeforeAndAfterOnSubmitEvents (Some r) w2
        = mkResult [] (Some tt) w2).
Proof.
  intros Hfm Hflag Hb Ha first. subst first.
  rewrite (install_run _ _ _ Hfm Hflag Hb Ha); simpl.
  assert (Hlt : r < List.length (forms w)) by by eapply lookup_lt_Some.
  split; [done|]. split.
  - exists (installed r fm). rewrite list_lookup_insert_eq by done.
    repeat split; try done.
    eapply install_skip; [simpl; by apply list_lookup_insert_eq|by left].
  - intros w2 fm2 H2 Hset. eapply install_skip; [done|by left].
Qed.

Lemma install_once_witness :
  let first :=
    setCustomBeforeAndAfterOnSubmitEvents (Some 0) Samples.hookedPage in
  outcome first = Some tt
  /\ (exists fm1,
        forms (world first) !! 0 = Some fm1
        /\ Form.onSubmitIsSet fm1 = true
        /\ Form.onsubmit fm1 = Some (CustomOnSubmit 0)
        /\ setCustomBeforeAndAfterOnSubmitEvents (Some 0) (world first)
           = mkResult [] (Some tt) (world first))
  /\ (forall w2 fm2,
        forms w2 !! 0 = Some fm2 ->
        Form.onSubmitIsSet fm2 = true ->
        setCustomBeforeAndAfterOnSubmitEvents (Some 0) w2
        = mkResult [] (Some tt) w2).
Proof.
  apply (install_once Samples.hookedPage 0 Samples.hookedForm);
    [reflexivity | reflexivity | by eexists | by eexists].
Defined.

(** The handler is replaced and the warning is logged exactly when a
    handler was there; with an id the warning names the id. *)
Lemma install_warns w r fm :
  forms w !! r = Some fm ->
  Form.onSubmitIsSet fm = false ->
  is_Some (Form.beforeOnSubmit fm) ->
  is_Some (Form.afterOnSubmit fm) ->
  let res := setCustomBeforeAndAfterOnSubmitEvents (Some r) w in
  (Form.onsubmit <$> forms (world res) !! r) = Some (Some (CustomOnSubmit r))
  /\ (Form.onsubmit fm = None -> actions res = [])
  /\ (is_Some (Form.onsubmit fm) ->
      actions res = [ConsoleLog (onsubmitWarning fm)])
  /\ (truthy (Form.id fm) = true ->
      extraInfo fm = " with id `" +:+ Form.id fm +:+ "`").
Proof.
  intros Hfm Hflag Hb Ha res. subst res.
  rewrite (install_run _ _ _ Hfm Hflag Hb Ha); simpl.
  assert (Hlt : r < List.length (forms w)) by by eapply lookup_lt_Some.
  rewrite list_lookup_insert_eq by done. unfold warning.
  repeat split; try done.
  - intros ->. by rewrite bool_decide_eq_false_2 by by intros [? ?].
  - intros H. by rewrite bool_decide_eq_true_2.
  - intros H. unfold extraInfo. by rewrite H.
Qed.

(** C7.  On the login form, which has a name, no id and an [onsubmit]
    handler of other code, the installing call replaces the handler and
    logs one warning; the warning does not name the form: where the name
    should stand it has the (empty) id. *)
Theorem warning_omits_name :
  let res :=
    setCustomBeforeAndAfterOnSubmitEvents (Some 0) Samples.hookedPage in
  Form.name Samples.hookedForm = "login"
  /\ (Form.onsubmit <$> forms (world res) !! 0)
     = Some (Some (CustomOnSubmit 0))
  /\ actions res
     = [ConsoleLog
          "Onsubmit event was already set on form with name ``. Make sure that all scripts used on this form use the custom `beforeOnSubmit` and `afterOnSubmit` events to ensure that that all functionalities are operational."].
Proof. by vm_compute. Qed.

End Install.

(** ** Registering functions for submission *)

Module Register.
Import Page Polyfill Events Run Vocabulary.

Lemma addBeforeOnSubmit_run w r fm fn :
  forms w !! r = Some fm ->
  addBeforeOnSubmit (Some r) fn w
  = mkResult [] (Some tt)
      (set_forms
         (<[r := Form.set_beforeOnSubmit
                   (Some (Chained (Form.beforeOnSubmit fm) fn)) fm]>
            (forms w)) w).
Proof.
  intros Hfm. unfold addBeforeOnSubmit, bind.
  assert (Hlt : r < List.length (forms w)) by by eapply lookup_lt_Some.
  rewrite (getForm_run _ _ _ Hfm); simpl.
  erewrite onForm_run by done; simpl.
  (erewrite onForm_run by (simpl; by apply list_lookup_insert_eq)); simpl.
  unfold set_forms; simpl. by rewrite list_insert_insert_eq.
Qed.

Lemma addAfterOnSubmit_run w r fm fn :
  forms w !! r = Some fm ->
  addAfterOnSubmit (Some r) fn w
  = mkResult [] (Some tt)
      (set_forms
         (<[r := Form.set_afterOnSubmit
                   (Some (Chained (Form.afterOnSubmit fm) fn)) fm]>
            (forms w)) w).
Proof.
  intros Hfm. unfold addAfterOnSubmit, bind.
  assert (Hlt : r < List.length (forms w)) by by eapply lookup_lt_Some.
  rewrite (getForm_run _ _ _ Hfm); simpl.
  erewrite onForm_run by done; simpl.
  (erewrite onForm_run by (simpl; by apply list_lookup_insert_eq)); simpl.
  unfold set_forms; simpl. by rewrite list_insert_insert_eq.
Qed.

(** Registering a list of functions leaves the chain of them all in the
    property. *)
Lemma register_before fns : forall w r fm,
  forms w !! r = Some fm ->
  exists fm',
    forms (world (forEach fns (addBeforeOnSubmit (Some r)) w)) !! r = Some fm'
    /\ Form.beforeOnSubmit fm' = chainOnto (Form.beforeOnSubmit fm) fns.
Proof.
  induction fns as [|fn fns IH]; intros w r fm Hfm; simpl.
  - by exists fm.
  - unfold bind. rewrite (addBeforeOnSubmit_run _ _ _ _ Hfm); simpl.
    assert (Hlt : r < List.length (forms w)) by by eapply lookup_lt_Some.
    edestruct (IH (set_forms
                     (<[r := Form.set_beforeOnSubmit
                               (Some (Chained (Form.beforeOnSubmit fm) fn)) fm]>
                        (forms w)) w) r) as (fm' & H1 & H2).
    { simpl. by apply list_lookup_insert_eq. }
    exists fm'. split; [|done].
    destruct (forEach fns _ _); done.
Qed.

Lemma register_after fns : forall w r fm,
  forms w !! r = Some fm ->
  exists fm',
    forms (world (forEach fns (addAfterOnSubmit (Some r)) w)) !! r = Some fm'
    /\ Form.afterOnSubmit fm' = chainOnto (Form.afterOnSubmit fm) fns.
Proof.
  induction fns as [|fn fns IH]; intros w r fm Hfm; simpl.
  - by exists fm.
  - unfold bind. rewrite (addAfterOnSubmit_run _ _ _ _ Hfm); simpl.
    assert (Hlt : r < List.length (forms w)) by by eapply lookup_lt_Some.
    edestruct (IH (set_forms
                     (<[r := Form.set_afterOnSubmit
                               (Some (Chained (Form.afterOnSubmit fm) fn)) fm]>
                        (forms w)) w) r) as (fm' & H1 & H2).
    { simpl. by apply list_lookup_insert_eq. }
    exists fm'. split; [|done].
    destruct (forEach fns _ _); done.
Qed.

Section Calls.
Variable foreign : nat -> World -> option World.

Lemma callEach_app l1 l2 w :
  callEach foreign (l1 ++ l2) w
  = bind (callEach foreign l1) (fun _ => callEach foreign l2) w.
Proof.
  revert w. induction l1 as [|fn l1 IH]; intros w; simpl.
  - unfold callEach; simpl. by rewrite bind_ret_l.
  - unfold callEach in *; simpl. rewrite bind_assoc.
    apply bind_ext. intros _ w'. apply IH.
Qed.

Lemma callEach_chained existing fn fns w :
  callEach foreign (Chained existing fn :: fns) w
  = callEach foreign (held existing ++ fn :: fns) w.
Proof.
  unfold callEach. destruct existing as [g|]; simpl.
  - by rewrite bind_assoc.
  - rewrite bind_assoc. by rewrite bind_ret_l.
Qed.

(** Calling a chain calls what was there first, then the functions in
    the order they were registered. *)
Lemma call_chainOnto fns : forall existing w,
  callEach foreign (held (chainOnto existing fns)) w
  = callEach foreign (held existing ++ fns) w.
Proof.
  induction fns as [|fn fns IH]; intros existing w.
  - simpl. by rewrite app_nil_r.
  - change (chainOnto existing (fn :: fns))
      with (chainOnto (Some (Chained existing fn)) fns).
    rewrite IH. apply callEach_chained.
Qed.

End Calls.

(** Induction over stored functions, through the captured chain. *)
Lemma Fn_chain_ind (P : Fn -> Prop) :
  (forall e, P (BeforeOnSubmitOf e)) ->
  (forall e, P (AfterOnSubmitOf e)) ->
  (forall fn, P fn -> P (Chained None fn)) ->
  (forall g fn, P g -> P fn -> P (Chained (Some g) fn)) ->
  (forall n, P (ForeignFn n)) ->
  forall fn, P fn.
Proof.
  intros Hbefore Hafter Hfirst Hnext Hforeign.
  fix IH 1. intros [e|e|[g|] fn|n].
  - apply Hbefore.
  - apply Hafter.
  - apply Hnext; apply IH.
  - apply Hfirst; apply IH.
  - apply Hforeign.
Qed.

Section Trace.
Variable foreign : nat -> World -> option World.

(** A call that returns has invoked its callees, each once, in
    order. *)
Lemma call_actions fn : forall w,
  outcome (call foreign fn w) = Some tt ->
  actions (call foreign fn w) = map Invoke (callees fn).
Proof.
  induction fn as [e|e|fn IH|g fn IHg IH|n] using Fn_chain_ind;
    intros w; cbn [call callees].
  - unfold bind, tell; simpl. unfold onElement, bind.
    destruct (getElement e w) as [l [el|] w'] eqn:E; simpl; [|done].
    unfold getElement, bind, get in E; simpl in E.
    destruct (elements w !! e); simpl in E; by inversion E.
  - unfold bind, tell; simpl. unfold onElement, bind.
    destruct (getElement e w) as [l [el|] w'] eqn:E; simpl; [|done].
    unfold getElement, bind, get in E; simpl in E.
    destruct (elements w !! e); simpl in E; by inversion E.
  - rewrite bind_ret_l. apply IH.
  - unfold bind at 1 2.
    destruct (call foreign g w) as [l1 [[]|] w1] eqn:E1; simpl; [|done].
    intros H2. rewrite map_app. f_equal.
    + specialize (IHg w). rewrite E1 in IHg. by apply IHg.
    + apply IH. by destruct (outcome (call foreign fn w1)).
  - unfold bind, tell, runForeign; simpl. by destruct (foreign n w).
Qed.

Lemma callEach_actions fns : forall w,
  outcome (callEach foreign fns w) = Some tt ->
  actions (callEach foreign fns w) = map Invoke (calleesOf fns).
Proof.
  induction fns as [|fn fns IH]; intros w; [done|].
  unfold callEach, calleesOf in *; simpl. unfold bind.
  destruct (call foreign fn w) as [l1 [[]|] w1] eqn:E1; simpl; [|done].
  intros H2. rewrite map_app. f_equal.
  - pose proof (call_actions fn w) as H. rewrite E1 in H. by apply H.
  - apply IH. by destruct (outcome (forEach fns (call foreign) w1)).
Qed.

Lemma bind_ret_r (m : M unit) w : bind m (fun _ => ret tt) w = m w.
Proof.
  unfold bind, ret. destruct (m w) as [l [[]|] w']; simpl; [|done].
  by rewrite app_nil_r.
Qed.

(** C8.  Registering the functions [fns] one after the other with
    [addBeforeOnSubmit] (respectively [addAfterOnSubmit]) leaves in
    [form.beforeOnSubmit] (respectively [form.afterOnSubmit]) a function
    that behaves as calling, in this order, the function that was in the
    property before and then each of [fns] once, in registration order;
    when it returns, the calls it made are those of these functions, in
    that order. *)
Theorem registered_functions_run_in_order (fns : list Fn) w r fm :
  forms w !! r = Some fm ->
  fns <> [] ->
  (exists fm' chain,
      forms (world (forEach fns (addBeforeOnSubmit (Some r)) w)) !! r
      = Some fm'
      /\ Form.beforeOnSubmit fm' = Some chain
      /\ (forall w1,
            call foreign chain w1
            = callEach foreign (held (Form.beforeOnSubmit fm) ++ fns) w1)
      /\ (forall w1,
            outcome (call foreign chain w1) = Some tt ->
            actions (call foreign chain w1)
            = map Invoke (calleesOf (held (Form.beforeOnSubmit fm) ++ fns))))
  /\ (exists fm' chain,
      forms (world (forEach fns (addAfterOnSubmit (Some r)) w)) !! r
      = Some fm'
      /\ Form.afterOnSubmit fm' = Some chain
      /\ (forall w1,
            call foreign chain w1
            = callEach foreign (held (Form.afterOnSubmit fm) ++ fns) w1)
      /\ (forall w1,
            outcome (call foreign chain w1) = Some tt ->
            actions (call foreign chain w1)
            = map Invoke (calleesOf (held (Form.afterOnSubmit fm) ++ fns)))).
Proof.
  intros Hfm Hne.
  assert (Hchain : forall existing,
             exists chain, chainOnto existing fns = Some chain).
  { intros existing. destruct fns as [|fn fns']; [done|].
    clear. revert existing fn.
    induction fns' as [|fn' fns' IH]; intros existing fn; [by eexists|].
    apply (IH (Some (Chained existing fn)) fn'). }
  assert (Hsem : forall existing chain,
             chainOnto existing fns = Some chain ->
             forall w1, call foreign chain w1
                        = callEach foreign (held existing ++ fns) w1).
  { intros existing chain Hc w1.
    rewrite <- call_chainOnto, Hc. unfold callEach; simpl.
    by rewrite bind_ret_r. }
  split.
  - destruct (register_before fns w r fm Hfm) as (fm' & H1 & H2).
    destruct (Hchain (Form.beforeOnSubmit fm)) as [chain Hc].
    exists fm', chain. rewrite H2. repeat split; try done.
    + by apply Hsem.
    + intros w1. rewrite (Hsem _ _ Hc). apply callEach_actions.
  - destruct (register_after fns w r fm Hfm) as (fm' & H1 & H2).
    destruct (Hchain (Form.afterOnSubmit fm)) as [chain Hc].
    exists fm', chain. rewrite H2. repeat split; try done.
    + by apply Hsem.
    + intros w1. rewrite (Hsem _ _ Hc). apply callEach_actions.
Qed.

End Trace.

Lemma registered_functions_run_in_order_witness :
  forms Samples.hookedPage !! 0 = Some Samples.hookedForm
  /\ exists fm' chain,
      forms (world (forEach [ForeignFn 1; ForeignFn 2]
                      (addBeforeOnSubmit (Some 0)) Samples.hookedPage)) !! 0
      = Some fm'
      /\ Form.beforeOnSubmit fm' = Some chain
      /\ (forall w1,
            call Samples.inert chain w1
            = callEach Samples.inert
                ([Chained None (BeforeOnSubmitOf 0)]
                 ++ [ForeignFn 1; ForeignFn 2]) w1).
Proof.
  split; [reflexivity|].
  destruct (registered_functions_run_in_order Samples.inert
              [ForeignFn 1; ForeignFn 2] Samples.hookedPage 0
              Samples.hookedForm eq_refl ltac:(discriminate))
    as [(fm' & chain & H1 & H2 & H3 & _) _].
  exists fm', chain. repeat split; assumption.
Defined.

End Register.

(** ** Patterns and class names *)

Module Patterns.
Import JsString RegExp ClassNames Vocabulary.

Lemma append_cons x (a b : string) : String x a +:+ b = String x (a +:+ b).
Proof. reflexivity. Qed.

Lemma append_nil_l (b : string) : "" +:+ b = b.
Proof. reflexivity. Qed.

Lemma append_assoc (a b c : string) : (a +:+ b) +:+ c = a +:+ (b +:+ c).
Proof.
  induction a as [|x a IH]; [done|]. rewrite !append_cons. by rewrite IH.
Qed.

Lemma append_nil_r (a : string) : a +:+ "" = a.
Proof.
  induction a as [|x a IH]; [done|]. rewrite append_cons. by rewrite IH.
Qed.

Lemma length_append (a b : string) :
  length (a +:+ b) = length a + length b.
Proof.
  unfold length. induction a as [|x a IH]; [done|].
  rewrite append_cons. simpl. by rewrite IH.
Qed.

(** The greedy run of [\s] takes all the white space there is. *)
Lemma repeat_space_accept n : forall b s,
  length s <= n ->
  repeat (matcher Space) n b s accept = Some (trimLeft s).
Proof.
  induction n as [|n IH]; intros b s Hn.
  - destruct s; [done|simpl in Hn; lia].
  - destruct s as [|a s]; [done|]. simpl.
    destruct (isWhiteSpace a); [|done].
    unfold length; simpl.
    rewrite (proj2 (Nat.ltb_lt _ _)) by lia.
    rewrite IH; [done|]. simpl in Hn. unfold length in *. simpl in Hn. lia.
Qed.

(** Followed by [$], the run of [\s] matches when only white space is
left. *)
Lemma repeat_space_eol n : forall b s,
  length s <= n ->
  repeat (matcher Space) n b s (fun b' s' => matcher Eol b' s' accept)
  = if allSpace s then Some EmptyString else None.
Proof.
  induction n as [|n IH]; intros b s Hn.
  - destruct s; [done|simpl in Hn; lia].
  - destruct s as [|a s]; [done|]. simpl.
    destruct (isWhiteSpace a); [|done]. simpl.
    unfold length; simpl.
    rewrite (proj2 (Nat.ltb_lt _ _)) by lia.
    rewrite IH; [by destruct (allSpace s)|].
    unfold length in *. simpl in Hn. lia.
Qed.

(** Where [/^\s+|\s+$/] matches, and up to where. *)
Lemma matchAt_margin bol s :
  matchAt marginPattern bol s
  = match s with
    | EmptyString => None
    | String a s' =>
        if isWhiteSpace a
        then (if bol then Some (trimLeft s')
              else if allSpace s' then Some EmptyString else None)
        else None
    end.
Proof.
  unfold matchAt, marginPattern. cbn [matcher].
  destruct s as [|a s]; [by destruct bol|].
  destruct (isWhiteSpace a); [|by destruct bol].
  fold accept. destruct bol.
  - by rewrite repeat_space_accept.
  - by rewrite repeat_space_eol.
Qed.

Lemma skip_all s :
  replaceAllFrom marginPattern "" (length s) false s = "".
Proof. induction s as [|a s IH]; [done|]. simpl. apply IH. Qed.

Lemma skip_drop r rep k : forall s,
  k <= length s ->
  replaceAllFrom r rep k false s = replaceAllFrom r rep 0 false (drop k s).
Proof.
  induction k as [|k IH]; intros s Hk.
  - by destruct s.
  - destruct s as [|a s]; [simpl in Hk; lia|]. simpl.
    apply IH. unfold length in *. simpl in Hk. lia.
Qed.

Lemma length_trimLeft s : length (trimLeft s) <= length s.
Proof.
  induction s as [|a s IH]; [done|]. simpl.
  destruct (isWhiteSpace a); unfold length in *; simpl; lia.
Qed.

Lemma drop_trimLeft s : drop (length s - length (trimLeft s)) s = trimLeft s.
Proof.
  induction s as [|a s IH]; [done|]. simpl.
  pose proof (length_trimLeft s) as Hl. unfold length in *.
  destruct (isWhiteSpace a); simpl.
  - replace (S (String.length s) - String.length (trimLeft s))
      with (S (String.length s - String.length (trimLeft s))) by lia.
    simpl. apply IH.
  - by rewrite Nat.sub_diag.
Qed.

Lemma replaceAll_margin_inner s :
  replaceAllFrom marginPattern "" 0 false s = trimRight s.
Proof.
  induction s as [|a s IH]; [done|].
  cbn [replaceAllFrom]. rewrite matchAt_margin. cbn [trimRight].
  destruct (isWhiteSpace a); simpl; [|by rewrite IH].
  destruct (allSpace s); simpl; [|by rewrite IH].
  unfold length; simpl. apply skip_all.
Qed.

(** Replacing the matches of [/^\s+|\s+$/g] by nothing trims the string. *)
Lemma replaceAll_margin s :
  replaceAll marginPattern "" s = trimRight (trimLeft s).
Proof.
  unfold replaceAll. destruct s as [|a s]; [done|].
  cbn [replaceAllFrom]. rewrite matchAt_margin. cbn [trimLeft].
  destruct (isWhiteSpace a) eqn:Ea.
  - pose proof (length_trimLeft s) as Hl. unfold length in *. simpl.
    replace (S (String.length s) - String.length (trimLeft s))
      with (S (String.length s - String.length (trimLeft s))) by lia.
    simpl. rewrite skip_drop by (unfold length; lia).
    pose proof (drop_trimLeft s) as Hd. unfold length in Hd. rewrite Hd.
    apply replaceAll_margin_inner.
  - simpl. rewrite replaceAll_margin_inner. cbn [trimRight]. by rewrite Ea.
Qed.

(** *** The operations on concrete strings *)

Example hasClass_pattern_token :
  test (classPattern Shim.placeholderClassName) "big placeholder" = true.
Proof. reflexivity. Qed.

Example hasClass_pattern_part :
  test (classPattern Shim.placeholderClassName) "placeholder-big" = false.
Proof. reflexivity. Qed.

Example replace_first_match :
  replace (classPattern Shim.placeholderClassName) " " "a placeholder b"
  = "a b".
Proof. reflexivity. Qed.

Example replaceAll_margins : replaceAll marginPattern "" "  a b   " = "a b".
Proof. reflexivity. Qed.

Example replaceString_first : replaceString "a" "" "bab a" = "bb a".
Proof. reflexivity. Qed.

Example classList_add_normalizes :
  DOMTokenList.add " a  b a" Shim.placeholderClassName = "a b placeholder".
Proof. reflexivity. Qed.

Example classList_remove_all :
  DOMTokenList.remove "placeholder a placeholder" Shim.placeholderClassName
  = "a".
Proof. reflexivity. Qed.

(** *** Class names are tokens *)

Lemma className_noSpace (c : ClassName) : noSpace c = true.
Proof.
  destruct c as [s Hs]; simpl. unfold isClassName in Hs.
  apply andb_prop in Hs as [_ Hs]. clear -Hs.
  induction s as [|a s IH]; [done|]. simpl in *.
  apply andb_prop in Hs as [Ha Hs]. rewrite (IH Hs).
  unfold tokenCharacter in Ha.
  apply andb_prop in Ha as [Ha H3]. apply andb_prop in Ha as [_ H2].
  by rewrite H2, H3.
Qed.

Lemma className_cons (c : ClassName) :
  exists a c', text c = String a c' /\ isWhiteSpace a = false
               /\ isHtmlSpace a = false.
Proof.
  pose proof (className_noSpace c) as Hn.
  destruct c as [s Hs]; simpl in *. unfold isClassName in Hs.
  apply andb_prop in Hs as [Ht _].
  destruct s as [|a s]; [done|]. exists a, s. simpl in Hn.
  apply andb_prop in Hn as [Hn _]. apply andb_prop in Hn as [H1 H2].
  by destruct (isWhiteSpace a), (isHtmlSpace a).
Qed.

Lemma noSpace_allSpace s x :
  noSpace s = true -> s <> "" -> allSpace (x +:+ s) = false.
Proof.
  intros Hn Hne. induction x as [|a x IH].
  - destruct s as [|b s]; [done|]. simpl in *.
    apply andb_prop in Hn as [Hn _]. apply andb_prop in Hn as [H1 _].
    by destruct (isWhiteSpace b).
  - rewrite append_cons. simpl. rewrite IH. apply andb_false_r.
Qed.

Lemma trimRight_noSpace s : noSpace s = true -> trimRight s = s.
Proof.
  induction s as [|a s IH]; [done|]. simpl. intros Hn.
  apply andb_prop in Hn as [Hn Hs]. apply andb_prop in Hn as [H1 _].
  destruct (isWhiteSpace a); [done|]. simpl. by rewrite IH.
Qed.

(** Trimming leaves a string that ends with a class name as it is at the
right end. *)
Lemma trimRight_append x s :
  noSpace s = true -> s <> "" -> trimRight (x +:+ s) = x +:+ s.
Proof.
  intros Hn Hne. induction x as [|a x IH].
  - by apply trimRight_noSpace.
  - rewrite append_cons. simpl. rewrite IH.
    by rewrite (noSpace_allSpace s x Hn Hne), andb_false_r.
Qed.

Lemma trimLeft_append x a s :
  isWhiteSpace a = false ->
  trimLeft (x +:+ String a s) = trimLeft x +:+ String a s.
Proof.
  intros Ha. induction x as [|b x IH].
  - simpl. by rewrite append_nil_l, Ha.
  - rewrite append_cons. simpl. destruct (isWhiteSpace b); [done|].
    by rewrite append_cons.
Qed.

Lemma trimLeft_space x :
  trimLeft (x +:+ " ") = "" \/ exists y, trimLeft (x +:+ " ") = y +:+ " ".
Proof.
  induction x as [|b x IH]; [by left|].
  rewrite append_cons. simpl. destruct (isWhiteSpace b); [done|].
  right. exists (String b x). by rewrite append_cons.
Qed.

(** *** Matching the class pattern *)

Lemma matcher_literal c : forall bol rest k,
  matcher (literal c) bol (c +:+ rest) k
  = k (match c with EmptyString => bol | _ => false end) rest.
Proof.
  induction c as [|a c IH]; intros bol rest k; [done|].
  rewrite append_cons. cbn [literal matcher]. rewrite Ascii.eqb_refl.
  rewrite IH. by destruct c.
Qed.

Lemma matcher_literal_whole c bol k :
  matcher (literal c) bol c k
  = k (match c with EmptyString => bol | _ => false end) EmptyString.
Proof.
  pose proof (matcher_literal c bol "" k) as H. by rewrite append_nil_r in H.
Qed.

(** The search finds a match when there is one at some position. *)
Lemma exec_found r p : forall bol q rest,
  matchAt r (match p with EmptyString => bol | _ => false end) q = Some rest ->
  is_Some (exec r bol (p +:+ q)).
Proof.
  induction p as [|a p IH]; intros bol q rest H.
  - rewrite append_nil_l. destruct q; simpl; rewrite H; by eexists.
  - rewrite append_cons. cbn [exec].
    destruct (matchAt r bol (String a (p +:+ q))); [by eexists|].
    destruct (IH false q rest) as [[b e] Hx].
    { by destruct p. }
    rewrite Hx. by eexists.
Qed.

(** The class pattern matches at a class name that ends the string and is
preceded by white space. *)
Lemma matchAt_class_space (c : ClassName) bol a :
  isWhiteSpace a = true ->
  matchAt (classPattern c) bol (String a c) = Some EmptyString.
Proof.
  intros Ha. unfold matchAt, classPattern. cbn [matcher]. rewrite Ha.
  rewrite matcher_literal_whole. by cbn [matcher].
Qed.

Lemma matcher_seq r1 r2 bol s k :
  matcher (Seq r1 r2) bol s k
  = matcher r1 bol s (fun b s' => matcher r2 b s' k).
Proof. reflexivity. Qed.

Lemma matcher_alt r1 r2 bol s k :
  matcher (Alt r1 r2) bol s k
  = match matcher r1 bol s k with
    | Some e => Some e
    | None => matcher r2 bol s k
    end.
Proof. reflexivity. Qed.

Lemma matcher_space_fail bol a s k :
  isWhiteSpace a = false -> matcher Space bol (String a s) k = None.
Proof. intros Ha. simpl. by rewrite Ha. Qed.

(** And at a class name that is the whole string. *)
Lemma matchAt_class_whole (c : ClassName) :
  matchAt (classPattern c) true c = Some EmptyString.
Proof.
  destruct (className_cons c) as (a & c' & Hc & Ha & _).
  unfold matchAt, classPattern. rewrite matcher_seq, matcher_alt.
  assert (Hs : forall k, matcher Space true c k = None).
  { intros k. rewrite Hc. by apply matcher_space_fail. }
  rewrite Hs. cbn [matcher]. rewrite matcher_literal_whole. by cbn [matcher].
Qed.

Lemma test_class_suffix (c : ClassName) y :
  y = "" \/ (exists y' a, y = y' +:+ String a "" /\ isWhiteSpace a = true) ->
  test (classPattern c) (y +:+ c) = true.
Proof.
  unfold test. intros [->|(y' & a & -> & Ha)].
  - rewrite append_nil_l.
    destruct (exec_found (classPattern c) "" true c "") as [x Hx].
    { apply matchAt_class_whole. }
    rewrite append_nil_l in Hx. by rewrite Hx.
  - rewrite append_assoc, append_cons, append_nil_l.
    destruct (exec_found (classPattern c) y' true (String a c) "") as [x Hx].
    { apply matchAt_class_space, Ha. }
    by rewrite Hx.
Qed.

End Patterns.

(** ** The token list *)

Module Tokens.
Import JsString ClassNames DOMTokenList Vocabulary Patterns.

Lemma noHtmlSpace_append a b :
  noHtmlSpace (a +:+ b) = noHtmlSpace a && noHtmlSpace b.
Proof.
  induction a as [|x a IH]; [done|]. rewrite append_cons. simpl.
  by rewrite IH, andb_assoc.
Qed.

Lemma truthy_append_r a x : truthy (a +:+ String x "") = true.
Proof. destruct a; reflexivity. Qed.

Lemma splitFrom_tokens s : forall cur,
  noHtmlSpace cur = true -> Forall isToken (splitFrom cur s).
Proof.
  induction s as [|a s IH]; intros cur Hc; simpl.
  - destruct (truthy cur) eqn:E; [|constructor].
    constructor; [done|constructor].
  - destruct (isHtmlSpace a) eqn:Ea.
    + destruct (truthy cur) eqn:E; [constructor; [done|]|]; by apply IH.
    + apply IH. rewrite noHtmlSpace_append, Hc. simpl. by rewrite Ea.
Qed.

Lemma splitFrom_append t : forall cur rest,
  noHtmlSpace t = true ->
  splitFrom cur (t +:+ rest) = splitFrom (cur +:+ t) rest.
Proof.
  induction t as [|a t IH]; intros cur rest Ht.
  - by rewrite append_nil_l, append_nil_r.
  - simpl in Ht. apply andb_prop in Ht as [Ha Ht].
    rewrite append_cons. simpl.
    destruct (isHtmlSpace a); [done|].
    rewrite IH by done. by rewrite append_assoc, append_cons, append_nil_l.
Qed.

(** Splitting a serialized list of tokens gives the list back. *)
Lemma split_serialize l :
  Forall isToken l -> splitFrom "" (serialize l) = l.
Proof.
  induction l as [|t l IH]; intros Hl; [done|].
  apply Forall_cons in Hl as [[Ht1 Ht2] Hl].
  destruct l as [|t2 l].
  - simpl. pose proof (splitFrom_append t "" "" Ht2) as H.
    rewrite append_nil_r, append_nil_l in H. rewrite H. simpl. by rewrite Ht1.
  - change (serialize (t :: t2 :: l))
      with (t +:+ " " +:+ serialize (t2 :: l)).
    rewrite splitFrom_append by done. rewrite append_nil_l, append_cons, append_nil_l.
    cbn [splitFrom]. change (isHtmlSpace " ") with true. cbn iota.
    rewrite Ht1. f_equal. by apply IH.
Qed.

Lemma member_orderedSet t l : forall seen,
  member t (orderedSet seen l) = member t l && negb (member t seen).
Proof.
  induction l as [|x l IH]; intros seen; [done|]. simpl.
  destruct (member x seen) eqn:Ex.
  - rewrite IH. destruct (String.eqb_spec t x) as [->|Hne]; simpl; [|done].
    rewrite Ex. simpl. apply andb_false_r.
  - simpl. rewrite IH. simpl.
    destruct (String.eqb_spec t x) as [->|Hne]; simpl; [by rewrite Ex|done].
Qed.

Lemma orderedSet_tokens l : forall seen,
  Forall isToken l -> Forall isToken (orderedSet seen l).
Proof.
  induction l as [|x l IH]; intros seen Hl; [done|]. simpl.
  apply Forall_cons in Hl as [Hx Hl].
  destruct (member x seen); [by apply IH|constructor; [done|by apply IH]].
Qed.

Lemma parse_tokens s : Forall isToken (parse s).
Proof. apply orderedSet_tokens, splitFrom_tokens. reflexivity. Qed.

Lemma className_token (c : ClassName) : isToken c.
Proof.
  destruct c as [s Hs]. simpl. unfold isClassName in Hs.
  apply andb_prop in Hs as [Ht Hs]. split; [done|]. clear Ht.
  induction s as [|a s IH]; [done|]. simpl in *.
  apply andb_prop in Hs as [Ha Hs]. rewrite (IH Hs).
  unfold tokenCharacter in Ha. apply andb_prop in Ha as [_ Ha].
  by rewrite Ha.
Qed.

Lemma member_app t l1 l2 : member t (l1 ++ l2) = member t l1 || member t l2.
Proof. unfold member. apply existsb_app. Qed.

(** Reading back what the token list wrote. *)
Lemma member_parse_serialize t l :
  Forall isToken l -> member t (parse (serialize l)) = member t l.
Proof.
  intros Hl. unfold parse. rewrite split_serialize by done.
  rewrite member_orderedSet. simpl. apply andb_true_r.
Qed.

(** After [classList.add], [classList.contains] answers true. *)
Lemma contains_add s (c : ClassName) : contains (add s c) c = true.
Proof.
  unfold contains, add.
  destruct (member c (parse s)) eqn:E.
  - rewrite member_parse_serialize; [done|apply parse_tokens].
  - rewrite member_parse_serialize.
    + rewrite member_app. simpl. rewrite String.eqb_refl. apply orb_true_r.
    + apply Forall_app. split; [apply parse_tokens|].
      constructor; [apply className_token|constructor].
Qed.

End Tokens.

(** ** Adding a class *)

Module Classes.
Import JsString RegExp ClassNames Vocabulary Patterns Tokens Shim.

(** After [addClass(element, c)], [hasClass(element, c)] is true. *)
Lemma hasClass_addClass (el : Element.t) (c : ClassName) :
  hasClass (addClass el c) c = true.
Proof.
  unfold addClass. destruct (Element.classList el) eqn:Ecl.
  - unfold hasClass; simpl. rewrite Ecl. apply contains_add.
  - destruct (hasClass el c) eqn:Eh; simpl; [done|].
    unfold hasClass; simpl. rewrite Ecl.
    rewrite replaceAll_margin.
    destruct (className_cons c) as (a & c' & Hc & Ha & _).
    replace (Element.className el +:+ " " +:+ c)
      with ((Element.className el +:+ " ") +:+ String a c')
      by (by rewrite Hc, append_assoc).
    rewrite trimLeft_append by done. rewrite <- Hc.
    rewrite trimRight_append.
    + apply test_class_suffix.
      destruct (trimLeft_space (Element.className el)) as [->|[y ->]];
        [by left|right]. by exists y, " "%char.
    + apply className_noSpace.
    + by rewrite Hc.
Qed.

(** [addClass] on an element that has the class leaves it as it is, when
the element has no [classList]. *)
Lemma addClass_present (el : Element.t) (c : ClassName) :
  Element.classList el = false ->
  hasClass el c = true -> addClass el c = el.
Proof. intros Ecl Eh. unfold addClass. by rewrite Ecl, Eh. Qed.

(** [addClass] and [removeClass] assign [className] and nothing else. *)
Lemma set_className_same (el : Element.t) :
  Element.set_className (Element.className el) el = el.
Proof. by destruct el. Qed.

Lemma addClass_eq (el : Element.t) (c : ClassName) :
  addClass el c = Element.set_className (Element.className (addClass el c)) el.
Proof.
  unfold addClass. destruct (Element.classList el); [done|].
  destruct (negb (hasClass el c)); simpl; [done|].
  by rewrite set_className_same.
Qed.

Lemma removeClass_eq (el : Element.t) (c : ClassName) :
  removeClass el c
  = Element.set_className (Element.className (removeClass el c)) el.
Proof.
  unfold removeClass. destruct (Element.classList el); [done|].
  by destruct (hasClass el c).
Qed.

End Classes.

(** ** Framing *)

Module Framing.
Import Page Polyfill Events Vocabulary Run.

Section Rules.
Context (R : World -> World -> Prop) `{!Reflexive R} `{!Transitive R}.

Lemma frame_ret {A} (a : A) : Frame R (ret a).
Proof. intros w. simpl. reflexivity. Qed.

Lemma frame_throw {A} : Frame R (@throw A).
Proof. intros w. simpl. reflexivity. Qed.

Lemma frame_get : Frame R get.
Proof. intros w. simpl. reflexivity. Qed.

Lemma frame_tell a : Frame R (tell a).
Proof. intros w. simpl. reflexivity. Qed.

Lemma frame_modify f : (forall w, R w (f w)) -> Frame R (modify f).
Proof. intros H w. apply H. Qed.

Lemma frame_bind {A B} (m : M A) (k : A -> M B) :
  Frame R m -> (forall a, Frame R (k a)) -> Frame R (bind m k).
Proof.
  intros Hm Hk w. unfold bind. specialize (Hm w).
  destruct (m w) as [l [a|] w1]; simpl in *; [|done].
  etransitivity; [exact Hm|apply Hk].
Qed.

Lemma frame_getElement e : Frame R (getElement e).
Proof.
  unfold getElement. apply frame_bind; [apply frame_get|].
  intros w. destruct (elements w !! e); [apply frame_ret|apply frame_throw].
Qed.

Lemma frame_getForm f : Frame R (getForm f).
Proof.
  unfold getForm. apply frame_bind; [apply frame_get|].
  intros w. destruct f as [r|]; [|apply frame_throw].
  destruct (forms w !! r); [apply frame_ret|apply frame_throw].
Qed.

Lemma frame_onElement e f :
  (forall w el, elements w !! e = Some el ->
                R w (set_elements (<[e := f el]> (elements w)) w)) ->
  Frame R (onElement e f).
Proof.
  intros H w. destruct (elements w !! e) as [el|] eqn:E.
  - rewrite (onElement_run _ _ _ _ E). simpl. by apply H.
  - rewrite (onElement_fail _ _ _ E). simpl. reflexivity.
Qed.

Lemma frame_onForm r f :
  (forall w fm, forms w !! r = Some fm ->
                R w (set_forms (<[r := f fm]> (forms w)) w)) ->
  Frame R (onForm r f).
Proof.
  intros H w. destruct (forms w !! r) as [fm|] eqn:E.
  - rewrite (onForm_run _ _ _ _ E). simpl. by apply H.
  - unfold onForm, bind, getForm, get; simpl. rewrite E. simpl. reflexivity.
Qed.

Lemma frame_forEach {A} (l : list A) (body : A -> M unit) :
  (forall x, Frame R (body x)) -> Frame R (forEach l body).
Proof.
  intros H. induction l as [|x l IH]; simpl; [apply frame_ret|].
  apply frame_bind; [apply H|done].
Qed.

End Rules.

Global Instance sameElements_refl : Reflexive sameElements.
Proof. by intros w. Qed.
Global Instance sameElements_trans : Transitive sameElements.
Proof. unfold sameElements. intros w1 w2 w3 H1 H2. congruence. Qed.

(** Taking a computation apart down to its assignments. *)
Ltac framing :=
  repeat match goal with
    | |- Reflexive _ => exact _
    | |- Transitive _ => exact _
    | |- Frame _ (if ?b then _ else _) => destruct b
    | |- Frame _ (match ?x with _ => _ end) => destruct x
    | |- Frame _ (ret _) => apply frame_ret
    | |- Frame _ throw => apply frame_throw
    | |- Frame _ get => apply frame_get
    | |- Frame _ (tell _) => apply frame_tell
    | |- Frame _ (getElement _) => apply frame_getElement
    | |- Frame _ (getForm _) => apply frame_getForm
    | |- Frame _ (bind _ _) => apply frame_bind; [ | | intros ?]
    | |- Frame _ (forEach _ _) => apply frame_forEach; [ | | intros ?]
    | |- Frame _ (onElement _ _) => apply frame_onElement; [ | intros ? ? ?]
    | |- Frame _ (onForm _ _) => apply frame_onForm; [ | intros ? ? ?]
    | |- Frame _ (modify _) => apply frame_modify; intros ?
    end.

(** The functions that wire a form leave the elements alone. *)
Lemma addBeforeOnSubmit_elements f fn :
  Frame sameElements (addBeforeOnSubmit f fn).
Proof. unfold addBeforeOnSubmit. framing; reflexivity. Qed.

Lemma addAfterOnSubmit_elements f fn :
  Frame sameElements (addAfterOnSubmit f fn).
Proof. unfold addAfterOnSubmit. framing; reflexivity. Qed.

Lemma setCustom_elements f :
  Frame sameElements (setCustomBeforeAndAfterOnSubmitEvents f).
Proof. unfold setCustomBeforeAndAfterOnSubmitEvents. framing; reflexivity. Qed.

Lemma form_wired (el : Element.t) : Element.form (wired el) = Element.form el.
Proof.
  unfold wired, Shim.activatePlaceholder. cbv zeta. simpl.
  by rewrite Classes.addClass_eq.
Qed.

(** The first statements of [polyfill]: the element is wired. *)
Lemma polyfill_wires w e el (k : M unit) :
  elements w !! e = Some el ->
  bind (onElement e Shim.activatePlaceholder)
    (fun _ =>
       bind (onElement e (Element.set_onclick (Some PolyfillOnClick)))
         (fun _ =>
            bind (onElement e (Element.set_onfocus (Some PolyfillOnFocus)))
              (fun _ =>
                 bind (onElement e (Element.set_onblur (Some PolyfillOnBlur)))
                   (fun _ => k)))) w
  = k (set_elements (<[e := wired el]> (elements w)) w).
Proof.
  intros Hel.
  assert (Hlt : e < List.length (elements w)) by by eapply lookup_lt_Some.
  rewrite (bind_run _ _ _ _ _ (onElement_run _ _ _ _ Hel)).
  do 3 (erewrite bind_run
         by (apply onElement_run; simpl; apply list_lookup_insert_eq;
             by rewrite ?length_insert)).
  f_equal. unfold set_elements; simpl. by rewrite !list_insert_insert_eq.
Qed.

(** What [polyfill] does to the store of elements, whether or not the
element has a form. *)
Lemma polyfill_elements w e el :
  elements w !! e = Some el ->
  elements (world (polyfill e w)) = <[e := wired el]> (elements w).
Proof.
  intros Hel. unfold polyfill. rewrite (polyfill_wires _ _ _ _ Hel).
  match goal with
  | |- elements (world (?m ?w1)) = _ =>
      assert (H : Frame sameElements m); [|exact (H w1)]
  end.
  framing; first [apply addBeforeOnSubmit_elements
                 |apply addAfterOnSubmit_elements|apply setCustom_elements].
Qed.

(** [polyfill] on an element inside a form. *)
Lemma polyfill_run w e el r fm :
  elements w !! e = Some el ->
  formOf w el = Some (r, fm) ->
  polyfill e w
  = mkResult (if Form.onSubmitIsSet fm then [] else warning fm) (Some tt)
      (set_forms (<[r := registeredFor e r fm]> (forms w))
         (set_elements (<[e := wired el]> (elements w)) w)).
Proof.
  intros Hel Hf. unfold formOf in Hf.
  destruct (Element.form el) as [r'|] eqn:Efm; [|done].
  destruct (forms w !! r') as [fm'|] eqn:Er; [|done].
  injection Hf as -> ->.
  assert (Hlt : e < List.length (elements w)) by by eapply lookup_lt_Some.
  assert (Hlr : r < List.length (forms w)) by by eapply lookup_lt_Some.
  unfold polyfill. rewrite (polyfill_wires _ _ _ _ Hel).
  set (w1 := set_elements (<[e := wired el]> (elements w)) w).
  assert (H1 : elements w1 !! e = Some (wired el))
    by (simpl; by apply list_lookup_insert_eq).
  rewrite (bind_run _ _ _ _ _ (getElement_run _ _ _ H1)).
  rewrite form_wired, Efm.
  rewrite (bind_run _ _ _ _ _ (Register.addBeforeOnSubmit_run w1 r fm _ Er)).
  erewrite bind_run by (apply getElement_run; exact H1).
  rewrite form_wired, Efm.
  erewrite bind_run
    by (apply Register.addAfterOnSubmit_run; simpl;
        by apply list_lookup_insert_eq).
  erewrite bind_run by (apply getElement_run; exact H1).
  rewrite form_wired, Efm. simpl. rewrite list_insert_insert_eq.
  unfold registeredFor.
  destruct (Form.onSubmitIsSet fm) eqn:Eflag.
  - erewrite Install.install_skip;
      [|simpl; by apply list_lookup_insert_eq|left; exact Eflag].
    done.
  - erewrite Install.install_run;
      [|simpl; by apply list_lookup_insert_eq|exact Eflag
       |by eexists|by eexists].
    simpl. unfold set_forms; simpl. by rewrite list_insert_insert_eq.
Qed.

(** [polyfill] on an element outside any form: the element is wired, then
the access to the form throws. *)
Lemma polyfill_throw w e el :
  elements w !! e = Some el ->
  formOf w el = None ->
  polyfill e w
  = mkResult [] None (set_elements (<[e := wired el]> (elements w)) w).
Proof.
  intros Hel Hf.
  assert (Hlt : e < List.length (elements w)) by by eapply lookup_lt_Some.
  unfold polyfill. rewrite (polyfill_wires _ _ _ _ Hel).
  set (w1 := set_elements (<[e := wired el]> (elements w)) w).
  assert (H1 : elements w1 !! e = Some (wired el))
    by (simpl; by apply list_lookup_insert_eq).
  rewrite (bind_run _ _ _ _ _ (getElement_run _ _ _ H1)).
  rewrite form_wired. unfold formOf in Hf.
  apply bind_throw. unfold addBeforeOnSubmit. apply bind_throw.
  unfold getForm, bind, get. simpl.
  destruct (Element.form el) as [r|]; [|done].
  by destruct (forms w !! r).
Qed.

End Framing.

(** ** Focus and blur *)

Module Behaviour.
Import JsString ClassNames Page Polyfill Events Vocabulary Run Classes Framing.
Import Shim.

Lemma hasClass_wired (el : Element.t) :
  hasClass (wired el) placeholderClassName = true.
Proof.
  unfold wired, activatePlaceholder.
  change (hasClass
            (addClass (Element.set_value (placeholderText el) el)
               placeholderClassName) placeholderClassName = true).
  apply hasClass_addClass.
Qed.

Lemma value_activatePlaceholder (el : Element.t) :
  Element.value (activatePlaceholder el) = placeholderText el.
Proof.
  unfold activatePlaceholder. cbv zeta.
  rewrite addClass_eq. reflexivity.
Qed.

(** A blur event on an element wired by [polyfill] runs [onBlur] on it. *)
Lemma dispatch_blur foreign w e el :
  elements w !! e = Some el ->
  Element.onblur el = Some PolyfillOnBlur ->
  elements (world (dispatch foreign (Blur e) w))
  = <[e := onBlur el]> (elements w).
Proof.
  intros Hel Hh. unfold dispatch, bind.
  rewrite (getElement_run _ _ _ Hel). simpl. rewrite Hh. simpl.
  destruct (bool_decide (activeElement w = Some e));
    by erewrite onElement_run by exact Hel.
Qed.

(** A focus event on an element wired by [polyfill] runs [onFocus] on
it. *)
Lemma dispatch_focus foreign w e el :
  elements w !! e = Some el ->
  Element.onfocus el = Some PolyfillOnFocus ->
  elements (world (dispatch foreign (Focus e) w))
  = <[e := onFocus el]> (elements w).
Proof.
  intros Hel Hh. unfold dispatch, bind.
  rewrite (getElement_run _ _ _ Hel). simpl. rewrite Hh. simpl.
  by erewrite onElement_run.
Qed.



(** What a focus does in every case: nothing without the marker class;
with it, the value is emptied, text selection is enabled and
[removeClass] is run on the class attribute. *)
Lemma focus_effect (el : Element.t) :
  (hasClass el placeholderClassName = false -> onFocus el = el)
  /\ (hasClass el placeholderClassName = true ->
      Element.value (onFocus el) = ""
      /\ Element.onselectstart (onFocus el) = None
      /\ Element.onmousedown (onFocus el) = None
      /\ Element.className (onFocus el)
         = Element.className
             (removeClass (Element.set_value "" el) placeholderClassName)).
Proof.
  unfold onFocus. split; intros ->; [done|].
  unfold deactivatePlaceholder. cbv zeta.
  rewrite removeClass_eq. by repeat split.
Qed.

(** C3.  On a page whose one field repeats the marker class in its class
attribute: the constructor returns and the field shows its placeholder
text with the marker class; a focus event then empties the value but leaves
the marker class on the field.  (So the text the user types next is taken
for placeholder text and is not sent with the form.) *)
Theorem focus_keeps_repeated_marker :
  let shown := placeholderPolyfill Samples.triplePage in
  let focused := dispatch Samples.inert (Focus 0) (world shown) in
  let sent :=
    run Samples.inert [Input 0 "bob"; Blur 0; SubmitEvent 0]
      (world focused) in
  outcome shown = Some tt
  /\ (exists el,
        elements (world shown) !! 0 = Some el
        /\ Element.value el = "Name"
        /\ Element.onfocus el = Some PolyfillOnFocus
        /\ hasClass el placeholderClassName = true)
  /\ (exists el,
        elements (world focused) !! 0 = Some el
        /\ Element.value el = ""
        /\ Element.className el = "placeholder"
        /\ hasClass el placeholderClassName = true)
  /\ (exists el data,
        actions sent
        = [Invoke (BeforeOnSubmitOf 0); Submit 0 data;
           Invoke (AfterOnSubmitOf 0)]
        /\ data !! 0 = Some el
        /\ Element.value el = "").
Proof.
  vm_compute. split; [reflexivity|].
  split; [eexists; repeat split|].
  split; [eexists; repeat split|].
  eexists _, _. repeat split.
Qed.

(** C10.  Without [classList]: [removeClass] on a class attribute that
repeats the class leaves the class on the element, and on a class
attribute with another class whose name contains the name it damages that
other class. *)
Theorem removeClass_misses :
  Element.classList Samples.tripleField = false
  /\ hasClass (removeClass Samples.tripleField placeholderClassName)
       placeholderClassName = true
  /\ Element.className Samples.wrapperField = "placeholder-wrapper placeholder"
  /\ Element.className (removeClass Samples.wrapperField placeholderClassName)
     = "-wrapper".
Proof. by vm_compute. Qed.

End Behaviour.

(** ** Submission *)

Module Submission.
Import JsString ClassNames Page Polyfill Events Vocabulary Run Classes.
Import Register Shim.

Lemma set_elements_same w : set_elements (elements w) w = w.
Proof. by destruct w. Qed.

Lemma length_applyAll f es : forall l,
  List.length (applyAll f es l) = List.length l.
Proof.
  induction es as [|e es IH]; intros l; [done|]. simpl. rewrite IH.
  destruct (l !! e); [apply length_insert|done].
Qed.

(** An element of the store after [applyAll]: the function was run on it
if it is one of the elements, and it is as before if not. *)
Lemma lookup_applyAll f es :
  (forall x, f (f x) = f x) ->
  forall l e,
    applyAll f es l !! e
    = (if bool_decide (e ∈ es) then f else fun x => x) <$> (l !! e).
Proof.
  intros Hf. induction es as [|e0 es IH]; intros l e.
  - simpl. by destruct (l !! e).
  - simpl. rewrite IH.
    destruct (decide (e = e0)) as [->|Hne].
    + rewrite (bool_decide_eq_true_2 (e0 ∈ e0 :: es)) by left.
      destruct (l !! e0) as [el0|] eqn:E0.
      * rewrite list_lookup_insert_eq by by eapply lookup_lt_Some.
        simpl. destruct (bool_decide (e0 ∈ es)); by rewrite ?Hf.
      * rewrite E0. by destruct (bool_decide (e0 ∈ es)).
    + assert (Hl : (match l !! e0 with
                    | Some el => <[e0 := f el]> l
                    | None => l
                    end) !! e = l !! e).
      { destruct (l !! e0); [by apply list_lookup_insert_ne|done]. }
      rewrite Hl.
      destruct (bool_decide_reflect (e ∈ es)) as [Hin|Hin].
      * rewrite bool_decide_eq_true_2; [done|by right].
      * rewrite bool_decide_eq_false_2; [done|].
        intros [?|?]%elem_of_cons; done.
Qed.

Section Calls.
Variable foreign : nat -> World -> option World.

(** Calling the functions of the script registered for the elements [es]
runs the element function on each, in order, and cannot throw. *)
Lemma callEach_shim (mk : ref -> Fn) (f : Element.t -> Element.t) :
  (forall e w, call foreign (mk e) w
               = bind (tell (Invoke (mk e))) (fun _ => onElement e f) w) ->
  forall es w,
    Forall (fun e => e < List.length (elements w)) es ->
    callEach foreign (map mk es) w
    = mkResult (map Invoke (map mk es)) (Some tt)
        (set_elements (applyAll f es (elements w)) w).
Proof.
  intros Hmk. induction es as [|e es IH]; intros w Hes.
  - unfold callEach; simpl. unfold ret. by rewrite set_elements_same.
  - apply Forall_cons in Hes as [He Hes].
    destruct (lookup_lt_is_Some_2 _ _ He) as [el Hel].
    unfold callEach in *. simpl.
    erewrite bind_run_actions.
    2:{ rewrite Hmk. unfold bind, tell. simpl.
        rewrite (onElement_run _ _ _ _ Hel). simpl. reflexivity. }
    rewrite IH by (simpl; by rewrite length_insert).
    simpl. by rewrite Hel.
Qed.

Lemma chain_cases (fns : list Fn) existing :
  fns <> [] -> exists chain, chainOnto existing fns = Some chain.
Proof.
  destruct fns as [|fn fns]; [done|]. intros _.
  revert existing fn.
  induction fns as [|fn' fns IH]; intros existing fn; [by eexists|].
  apply (IH (Some (Chained existing fn)) fn').
Qed.

Lemma call_before e w :
  call foreign (BeforeOnSubmitOf e) w
  = bind (tell (Invoke (BeforeOnSubmitOf e)))
      (fun _ => onElement e beforeOnSubmit) w.
Proof. reflexivity. Qed.

Lemma call_after e w :
  call foreign (AfterOnSubmitOf e) w
  = bind (tell (Invoke (AfterOnSubmitOf e)))
      (fun _ => onElement e afterOnSubmit) w.
Proof. reflexivity. Qed.

(** Calling the property that holds the chain for [es]. *)
Lemma callProperty_shim (mk : ref -> Fn) (f : Element.t -> Element.t) :
  (forall e w, call foreign (mk e) w
               = bind (tell (Invoke (mk e))) (fun _ => onElement e f) w) ->
  forall es w,
    es <> [] ->
    Forall (fun e => e < List.length (elements w)) es ->
    callProperty foreign (chainOnto None (map mk es)) w
    = mkResult (map Invoke (map mk es)) (Some tt)
        (set_elements (applyAll f es (elements w)) w).
Proof.
  intros Hmk es w Hne Hes.
  destruct (chain_cases (map mk es) None) as [chain Hc].
  { by destruct es. }
  rewrite Hc. simpl.
  rewrite <- (callEach_shim mk f Hmk es w Hes).
  rewrite <- (bind_ret_r (call foreign chain) w).
  change (callEach foreign (held (Some chain)) w
          = callEach foreign (map mk es) w).
  rewrite <- Hc. apply (call_chainOnto foreign (map mk es) None w).
Qed.

(** The custom handler on a hooked form, in full. *)
Lemma customOnSubmit_run w r es :
  hooked w r es ->
  customOnSubmit foreign r w
  = mkResult
      (map Invoke (map BeforeOnSubmitOf es)
       ++ [Submit r (applyAll beforeOnSubmit es (elements w))]
       ++ map Invoke (map AfterOnSubmitOf es))
      (Some false)
      (set_elements
         (applyAll afterOnSubmit es
            (applyAll beforeOnSubmit es (elements w))) w).
Proof.
  intros (fm & Hfm & Hb & Ha & _ & Hne & Hes).
  unfold customOnSubmit.
  rewrite (bind_run _ _ _ _ _ (getForm_run _ _ _ Hfm)). simpl.
  rewrite Hb.
  erewrite bind_run_actions
    by (by apply (callProperty_shim _ _ call_before)).
  unfold submit.
  erewrite (bind_run_actions (bind get _)).
  2:{ unfold bind, get, tell. simpl. reflexivity. }
  erewrite bind_run by (apply getForm_run; simpl; exact Hfm). simpl.
  rewrite Ha.
  erewrite bind_run_actions.
  2:{ apply (callProperty_shim _ _ call_after); [done|].
      simpl. by rewrite length_applyAll. }
  simpl. by rewrite app_nil_r.
Qed.

Lemma beforeOnSubmit_idem el : beforeOnSubmit (beforeOnSubmit el) = beforeOnSubmit el.
Proof.
  unfold beforeOnSubmit.
  destruct (hasClass el placeholderClassName) eqn:E; [|by rewrite E].
  change (hasClass (Element.set_value "" el) placeholderClassName)
    with (hasClass el placeholderClassName).
  by rewrite E.
Qed.

Lemma afterOnSubmit_idem el : afterOnSubmit (afterOnSubmit el) = afterOnSubmit el.
Proof.
  unfold afterOnSubmit.
  destruct (hasClass el placeholderClassName) eqn:E; [|by rewrite E].
  change (hasClass (Element.set_value (placeholderText el) el)
            placeholderClassName)
    with (hasClass el placeholderClassName).
  by rewrite E.
Qed.



End Calls.



End Submission.

(** ** The invariant *)

Module Invariant.
Import JsString ClassNames Page Polyfill Events Vocabulary Run Classes.
Import Framing Register Shim.

Lemma hard_inv a b :
  hard a = hard b ->
  Element.type a = Element.type b /\ Element.onclick a = Element.onclick b
  /\ Element.onfocus a = Element.onfocus b
  /\ Element.onblur a = Element.onblur b /\ Element.form a = Element.form b.
Proof. unfold hard. intros H. by injection H. Qed.

Global Instance soft_refl : Reflexive soft.
Proof. intros w. repeat split. intros e el H. by exists el. Qed.

Global Instance soft_trans : Transitive soft.
Proof.
  intros w1 w2 w3 (F1 & L1 & E1) (F2 & L2 & E2).
  split; [congruence|]. split; [congruence|].
  intros e el H. destruct (E1 e el H) as (el2 & H2 & Hh2).
  destruct (E2 e el2 H2) as (el3 & H3 & Hh3).
  exists el3. split; [done|congruence].
Qed.

Lemma soft_back w w' e el' :
  soft w w' -> elements w' !! e = Some el' ->
  exists el, elements w !! e = Some el /\ hard el' = hard el.
Proof.
  intros (F & L & E) H.
  assert (Hlt : e < List.length (elements w))
    by (rewrite <- L; by eapply lookup_lt_Some).
  destruct (lookup_lt_is_Some_2 _ _ Hlt) as [el Hel].
  destruct (E e el Hel) as (el2 & H2 & Hh). exists el. split; [done|].
  congruence.
Qed.

Lemma handlerFine_hard a b h : 
  Element.type a = Element.type b -> handlerFine b h -> handlerFine a h.
Proof. intros Ht. unfold handlerFine. by rewrite Ht. Qed.

(** Pages that differ softly satisfy the invariant together. *)
Lemma soft_Wired w w' : soft w w' -> Wired w -> Wired w'.
Proof.
  intros Hs [He Hf]. pose proof Hs as (F & L & E). split.
  - intros e el' H'. destruct (soft_back _ _ _ _ Hs H') as (el & Hel & Hh).
    apply hard_inv in Hh as (Ht & Hc & Hfo & Hb & Hfm).
    destruct (He e el Hel) as (H1 & H2 & H3 & H4).
    unfold elementFine. rewrite Hc, Hfo, Hb, Hfm. repeat split.
    1,2,3: by eapply handlerFine_hard.
    rewrite F. exact H4.
  - intros r fm Hr. rewrite F in Hr.
    destruct (Hf r fm Hr) as (H1 & H2 & H3 & H4 & H5).
    repeat split; try done.
    eapply Forall_impl; [exact H3|]. simpl.
    intros e (el & Hel & Ht). destruct (E e el Hel) as (el' & Hel' & Hh).
    apply hard_inv in Hh as (Ht' & _). exists el'. split; [done|congruence].
Qed.

(** Assigning to an element a record with the same hard properties. *)
Lemma soft_insert w e el el' :
  elements w !! e = Some el -> hard el' = hard el ->
  soft w (set_elements (<[e := el']> (elements w)) w).
Proof.
  intros Hel Hh. split; [done|]. split; [simpl; apply length_insert|].
  intros e0 el0 H0. simpl. destruct (decide (e0 = e)) as [->|Hne].
  - exists el'. rewrite list_lookup_insert_eq by by eapply lookup_lt_Some.
    split; [done|congruence].
  - exists el0. by rewrite list_lookup_insert_ne.
Qed.

Lemma frame_soft_onElement e f :
  (forall el, hard (f el) = hard el) -> Frame soft (onElement e f).
Proof.
  intros Hf. apply frame_onElement; [apply _|].
  intros w el Hel. by apply soft_insert with el.
Qed.

Lemma hard_addClass el c : hard (addClass el c) = hard el.
Proof. by rewrite addClass_eq. Qed.

Lemma hard_removeClass el c : hard (removeClass el c) = hard el.
Proof. by rewrite removeClass_eq. Qed.

Lemma hard_activatePlaceholder el : hard (activatePlaceholder el) = hard el.
Proof.
  unfold activatePlaceholder. cbv zeta.
  change (hard (addClass (Element.set_value (placeholderText el) el)
                  placeholderClassName) = hard el).
  by rewrite hard_addClass.
Qed.

Lemma hard_deactivatePlaceholder el :
  hard (deactivatePlaceholder el) = hard el.
Proof.
  unfold deactivatePlaceholder. cbv zeta.
  change (hard (removeClass (Element.set_value "" el) placeholderClassName)
          = hard el).
  by rewrite hard_removeClass.
Qed.

Lemma hard_onFocus el : hard (onFocus el) = hard el.
Proof.
  unfold onFocus. destruct (hasClass _ _); [|done].
  apply hard_deactivatePlaceholder.
Qed.

Lemma hard_onBlur el : hard (onBlur el) = hard el.
Proof.
  unfold onBlur. destruct (String.eqb _ _); [|done].
  apply hard_activatePlaceholder.
Qed.

Lemma hard_beforeOnSubmit el : hard (beforeOnSubmit el) = hard el.
Proof. unfold beforeOnSubmit. by destruct (hasClass _ _). Qed.

Lemma hard_afterOnSubmit el : hard (afterOnSubmit el) = hard el.
Proof. unfold afterOnSubmit. by destruct (hasClass _ _). Qed.

Lemma soft_active w x : soft w (set_activeElement x w).
Proof. repeat split. intros e el H. by exists el. Qed.

(** Taking a computation apart, for the relation [soft]. *)
Ltac soft_framing :=
  framing;
  try match goal with
    | H : elements ?w !! ?e = Some ?el
      |- soft ?w (set_elements (<[?e := _]> (elements ?w)) ?w) =>
        eapply soft_insert; [exact H|];
        first [ apply hard_addClass | apply hard_removeClass
              | apply hard_onFocus | apply hard_onBlur
              | apply hard_beforeOnSubmit | apply hard_afterOnSubmit
              | reflexivity ]
    | |- soft ?w (set_activeElement _ ?w) => apply soft_active
    end.

Section Steps.
Variable foreign : nat -> World -> option World.

(** The handlers of the script change elements softly. *)
Lemma runHandler_soft h this :
  (forall n, h <> ForeignHandler n) ->
  Frame soft (runHandler foreign h this).
Proof.
  intros Hh. destruct h; simpl.
  - unfold onClick. soft_framing.
  - soft_framing.
  - soft_framing.
  - unfold onClickPassword, focus. soft_framing.
  - unfold onFocusPassword, onClickPassword, focus. soft_framing.
  - unfold onBlurPassword. soft_framing.
  - soft_framing.
  - by destruct (Hh n).
Qed.

Lemma runProperty_soft el h this :
  handlerFine el h -> Frame soft (runProperty foreign h this).
Proof.
  intros Hf. destruct h as [h|]; simpl; [|soft_framing].
  apply runHandler_soft. intros n ->. exact Hf.
Qed.

Lemma soft_applyAll f es w :
  (forall x, f (f x) = f x) -> (forall el, hard (f el) = hard el) ->
  soft w (set_elements (applyAll f es (elements w)) w).
Proof.
  intros Hi Hh. split; [done|]. split; [simpl; apply Submission.length_applyAll|].
  intros e el Hel. simpl. rewrite (Submission.lookup_applyAll f es Hi), Hel.
  simpl. destruct (bool_decide (e ∈ es)); eexists; split; try reflexivity.
  apply Hh.
Qed.

(** A fine form with registered elements is hooked. *)
Lemma hooked_of_fine w r fm :
  forms w !! r = Some fm -> formFine w r fm ->
  targets (Form.beforeOnSubmit fm) <> [] ->
  hooked w r (targets (Form.beforeOnSubmit fm)).
Proof.
  intros Hr (H1 & H2 & H3 & H4 & H5) Hne.
  exists fm. repeat split; try done.
  - rewrite H4. by rewrite bool_decide_eq_false_2.
  - eapply Forall_impl; [exact H3|]. simpl.
    intros e (el & Hel & _). by eapply lookup_lt_Some.
Qed.

(** Under the invariant every event changes the page softly. *)
Lemma dispatch_soft ev w :
  Wired w -> soft w (world (dispatch foreign ev w)).
Proof.
  intros [He Hf]. destruct ev as [t|t|t|t txt|r]; simpl.
  - destruct (elements w !! t) as [el|] eqn:E.
    + rewrite (bind_run _ _ _ _ _ (getElement_run _ _ _ E)).
      destruct (He t el E) as (H1 & _). by apply (runProperty_soft el).
    + rewrite (bind_throw _ _ _ _ _ (getElement_fail _ _ E)). reflexivity.
  - destruct (elements w !! t) as [el|] eqn:E.
    + rewrite (bind_run _ _ _ _ _ (getElement_run _ _ _ E)).
      erewrite bind_run by reflexivity.
      destruct (He t el E) as (_ & H2 & _).
      etransitivity; [apply (soft_active w (Some t))|].
      by apply (runProperty_soft el).
    + rewrite (bind_throw _ _ _ _ _ (getElement_fail _ _ E)). reflexivity.
  - destruct (elements w !! t) as [el|] eqn:E.
    + rewrite (bind_run _ _ _ _ _ (getElement_run _ _ _ E)).
      erewrite bind_run by reflexivity.
      destruct (He t el E) as (_ & _ & H3 & _).
      etransitivity; [|by apply (runProperty_soft el)].
      destruct (bool_decide _); [apply soft_active|reflexivity].
    + rewrite (bind_throw _ _ _ _ _ (getElement_fail _ _ E)). reflexivity.
  - by apply frame_soft_onElement.
  - destruct (forms w !! r) as [fm|] eqn:E.
    + rewrite (bind_run _ _ _ _ _ (getForm_run _ _ _ E)). simpl.
      pose proof (Hf r fm E) as Hfine.
      pose proof Hfine as (_ & _ & _ & H4 & _). rewrite H4.
      destruct (bool_decide_reflect (targets (Form.beforeOnSubmit fm) = []))
        as [Hnil|Hne].
      * unfold submit, bind, get, tell. simpl. reflexivity.
      * pose proof (hooked_of_fine w r fm E Hfine Hne) as Hh.
        erewrite bind_run_actions
          by apply (Submission.customOnSubmit_run foreign w r _ Hh).
        simpl.
        etransitivity;
          [apply (soft_applyAll beforeOnSubmit)
          |apply (soft_applyAll afterOnSubmit
                    (targets (Form.beforeOnSubmit fm))
                    (set_elements _ w))];
          auto using Submission.beforeOnSubmit_idem,
            Submission.afterOnSubmit_idem, hard_beforeOnSubmit,
            hard_afterOnSubmit.
    + rewrite (bind_throw _ _ w [] w); [reflexivity|].
      unfold getForm, bind, get. simpl. by rewrite E.
Qed.

(** A sequence of events keeps the invariant and changes the page
softly. *)
Lemma run_soft evs : forall w,
  Wired w -> soft w (world (run foreign evs w))
             /\ Wired (world (run foreign evs w)).
Proof.
  induction evs as [|ev evs IH]; intros w Hw; simpl.
  - split; [reflexivity|done].
  - pose proof (dispatch_soft ev w Hw) as Hs.
    pose proof (soft_Wired _ _ Hs Hw) as Hw1.
    destruct (IH _ Hw1) as [Hs2 Hw2]. split; [|done].
    by etransitivity.
Qed.

End Steps.

(** *** The constructor keeps the invariant *)

Global Instance keeps_refl P : Reflexive (keeps P).
Proof. by intros w H. Qed.
Global Instance keeps_trans P : Transitive (keeps P).
Proof. intros w1 w2 w3 H1 H2 H. by apply H2, H1. Qed.

Lemma scriptFree_Wired w : scriptFree w -> Wired w.
Proof.
  intros [He Hf]. split.
  - intros e el Hel. destruct (He e el Hel) as (H1 & H2 & H3 & H4).
    unfold elementFine. rewrite H1, H2, H3. repeat split.
    intros r Hr. destruct (lookup_lt_is_Some_2 _ _ (H4 r Hr)) as [fm Hfm].
    exists fm. split; [done|]. discriminate.
  - intros r fm Hr. destruct (Hf r fm Hr) as (H1 & H2 & H3 & H4).
    unfold formFine. rewrite H1, H2, H3, H4. simpl. repeat split.
    constructor.
Qed.

Lemma chainOnto_snoc existing fns fn :
  chainOnto existing (fns ++ [fn])
  = Some (Chained (chainOnto existing fns) fn).
Proof. unfold chainOnto. by rewrite fold_left_app. Qed.

Lemma type_wired el : Element.type (wired el) = Element.type el.
Proof.
  unfold wired, activatePlaceholder. cbv zeta. simpl.
  by rewrite addClass_eq.
Qed.

Lemma handlers_wired el :
  Element.onclick (wired el) = Some PolyfillOnClick
  /\ Element.onfocus (wired el) = Some PolyfillOnFocus
  /\ Element.onblur (wired el) = Some PolyfillOnBlur.
Proof. by repeat split. Qed.

Lemma wired_handlersFine el :
  Element.type el <> "password" ->
  handlerFine (wired el) (Element.onclick (wired el))
  /\ handlerFine (wired el) (Element.onfocus (wired el))
  /\ handlerFine (wired el) (Element.onblur (wired el)).
Proof.
  intros Ht. destruct (handlers_wired el) as (-> & -> & ->).
  unfold handlerFine. by rewrite type_wired.
Qed.

(** The registered form is fine, given the form was. *)
Lemma registeredFor_fine w w' e r fm :
  formFine w r fm ->
  (forall e0 el0, elements w !! e0 = Some el0 ->
                  Element.type el0 <> "password" ->
                  exists el1, elements w' !! e0 = Some el1
                              /\ Element.type el1 <> "password") ->
  (exists el1, elements w' !! e = Some el1
               /\ Element.type el1 <> "password") ->
  formFine w' r (registeredFor e r fm)
  /\ targets (Form.beforeOnSubmit (registeredFor e r fm))
     = targets (Form.beforeOnSubmit fm) ++ [e].
Proof.
  intros (H1 & H2 & H3 & H4 & H5) Hkeep He.
  assert (Ht : targets (Form.beforeOnSubmit (registeredFor e r fm))
               = targets (Form.beforeOnSubmit fm) ++ [e]).
  { unfold registeredFor. by destruct (Form.onSubmitIsSet fm). }
  split; [|done]. unfold formFine. rewrite Ht.
  assert (Hne : targets (Form.beforeOnSubmit fm) ++ [e] <> []).
  { by destruct (targets (Form.beforeOnSubmit fm)). }
  rewrite (bool_decide_eq_false_2 _ Hne), !map_app.
  change (map BeforeOnSubmitOf [e]) with [BeforeOnSubmitOf e].
  change (map AfterOnSubmitOf [e]) with [AfterOnSubmitOf e].
  rewrite !chainOnto_snoc. simpl. rewrite <- H1, <- H2.
  split; [unfold registeredFor; by destruct (Form.onSubmitIsSet fm)|].
  split; [unfold registeredFor; by destruct (Form.onSubmitIsSet fm)|].
  split.
  { apply Forall_app. split; [|by constructor].
    eapply Forall_impl; [exact H3|]. simpl. intros e0 (el0 & Hel0 & Ht0).
    by apply (Hkeep e0 el0). }
  unfold registeredFor. destruct (Form.onSubmitIsSet fm) eqn:Eflag; simpl.
  - split; [|done]. rewrite H4.
    destruct (bool_decide (targets (Form.beforeOnSubmit fm) = [])); done.
  - done.
Qed.

(** A fine form stays fine when the store changes but keeps its elements
that are not password fields. *)
Lemma formFine_keep w w' r fm :
  formFine w r fm ->
  (forall e0 el0, elements w !! e0 = Some el0 ->
                  Element.type el0 <> "password" ->
                  exists el1, elements w' !! e0 = Some el1
                              /\ Element.type el1 <> "password") ->
  formFine w' r fm.
Proof.
  intros (H1 & H2 & H3 & H4 & H5) Hkeep. repeat split; try done.
  eapply Forall_impl; [exact H3|]. simpl. intros e0 (el0 & Hel0 & Ht0).
  by apply (Hkeep e0 el0).
Qed.

Lemma wired_keep w e el :
  elements w !! e = Some el -> Element.type el <> "password" ->
  forall e0 el0,
    elements w !! e0 = Some el0 ->
    Element.type el0 <> "password" ->
    exists el1, <[e := wired el]> (elements w) !! e0 = Some el1
                /\ Element.type el1 <> "password".
Proof.
  intros Hel Ht e0 el0 H0 Ht0. destruct (decide (e0 = e)) as [->|Hne].
  - exists (wired el).
    rewrite list_lookup_insert_eq by by eapply lookup_lt_Some.
    by rewrite type_wired.
  - exists el0. by rewrite list_lookup_insert_ne.
Qed.

(** [polyfill] on an element that is not a password field keeps the
invariant. *)
Lemma polyfill_Wired w e el :
  elements w !! e = Some el -> Element.type el <> "password" ->
  Wired w -> Wired (world (polyfill e w)).
Proof.
  intros Hel Ht [He Hf].
  assert (Hlt : e < List.length (elements w)) by by eapply lookup_lt_Some.
  pose proof (wired_keep w e el Hel Ht) as Hkeep.
  destruct (wired_handlersFine el Ht) as (Hw1 & Hw2 & Hw3).
  destruct (formOf w el) as [[r fm]|] eqn:Efo.
  - rewrite (polyfill_run _ _ _ _ _ Hel Efo). simpl.
    assert (Hr : forms w !! r = Some fm /\ Element.form el = Some r).
    { unfold formOf in Efo. destruct (Element.form el) as [r'|]; [|done].
      destruct (forms w !! r') eqn:E; [|done]. by injection Efo as -> ->. }
    destruct Hr as [Hr Hfr].
    assert (Hlr : r < List.length (forms w)) by by eapply lookup_lt_Some.
    destruct (registeredFor_fine w
                (set_forms (<[r := registeredFor e r fm]> (forms w))
                   (set_elements (<[e := wired el]> (elements w)) w))
                e r fm (Hf r fm Hr)) as [Hfine Htg].
    { exact Hkeep. }
    { exists (wired el). cbn [elements set_forms set_elements].
      rewrite list_lookup_insert_eq by done. by rewrite type_wired. }
    split.
    + intros e0 el0 H0. simpl in H0. unfold elementFine.
      destruct (decide (e0 = e)) as [->|Hne].
      * rewrite list_lookup_insert_eq in H0 by done. injection H0 as <-.
        split; [done|]. split; [done|]. split; [done|]. simpl forms.
        intros r0 Hr0. rewrite form_wired, Hfr in Hr0. injection Hr0 as <-.
        exists (registeredFor e r fm).
        rewrite list_lookup_insert_eq by done. split; [done|].
        intros _. rewrite Htg. apply elem_of_app. right. by left.
      * rewrite list_lookup_insert_ne in H0 by done.
        destruct (He e0 el0 H0) as (G1 & G2 & G3 & G4).
        split; [done|]. split; [done|]. split; [done|]. simpl forms.
        intros r0 Hr0. destruct (G4 r0 Hr0) as (fm0 & Hfm0 & Hin).
        destruct (decide (r0 = r)) as [->|Hnr].
        -- exists (registeredFor e r fm).
           rewrite list_lookup_insert_eq by done. split; [done|].
           intros Hfo. rewrite Htg. apply elem_of_app. left.
           assert (fm0 = fm) as -> by congruence. by apply Hin.
        -- exists fm0. by rewrite list_lookup_insert_ne.
    + intros r0 fm0 H0. simpl in H0.
      destruct (decide (r0 = r)) as [->|Hnr].
      * rewrite list_lookup_insert_eq in H0 by done. by injection H0 as <-.
      * rewrite list_lookup_insert_ne in H0 by done.
        eapply formFine_keep; [by apply Hf|]. exact Hkeep.
  - rewrite (polyfill_throw _ _ _ Hel Efo). simpl.
    assert (Hnone : Element.form el = None).
    { destruct (He e el Hel) as (_ & _ & _ & G4).
      unfold formOf in Efo. destruct (Element.form el) as [r|]; [|done].
      destruct (G4 r eq_refl) as (fm & Hfm & _). by rewrite Hfm in Efo. }
    split.
    + intros e0 el0 H0. simpl in H0. unfold elementFine.
      destruct (decide (e0 = e)) as [->|Hne].
      * rewrite list_lookup_insert_eq in H0 by done. injection H0 as <-.
        split; [done|]. split; [done|]. split; [done|].
        intros r0 Hr0. by rewrite form_wired, Hnone in Hr0.
      * rewrite list_lookup_insert_ne in H0 by done. by apply He.
    + intros r0 fm0 H0. simpl in H0.
      eapply formFine_keep; [by apply Hf|]. exact Hkeep.
Qed.

(** *** The password decoy *)

Lemma onElement_last w l x f :
  onElement (List.length l) f (set_elements (l ++ [x]) w)
  = mkResult [] (Some tt) (set_elements (l ++ [f x]) w).
Proof.
  erewrite onElement_run by (simpl; apply list_lookup_middle; done).
  unfold set_elements; simpl. do 2 f_equal.
  rewrite insert_app_r_alt by done. by rewrite Nat.sub_diag.
Qed.

Lemma onElement_front w l x e el f :
  l !! e = Some el ->
  onElement e f (set_elements (l ++ [x]) w)
  = mkResult [] (Some tt) (set_elements (<[e := f el]> l ++ [x]) w).
Proof.
  intros Hel.
  erewrite onElement_run by (simpl; by apply lookup_app_l_Some).
  unfold set_elements; simpl. do 2 f_equal.
  apply insert_app_l. by eapply lookup_lt_Some.
Qed.

Lemma getElement_front w l x e el :
  l !! e = Some el ->
  getElement e (set_elements (l ++ [x]) w)
  = mkResult [] (Some el) (set_elements (l ++ [x]) w).
Proof. intros Hel. apply getElement_run. simpl. by apply lookup_app_l_Some. Qed.

(** [polyfillPassword] on a password field, in full: the field gets its
blur handler and the class that hides it, and a new element, the decoy, is
put in the store and after the field in the document. *)
Lemma polyfillPassword_run w e el :
  elements w !! e = Some el ->
  Element.type el = "password" ->
  let d := List.length (elements w) in
  polyfillPassword e w
  = mkResult [] (Some tt)
      (set_inputs (insertAfter e d (inputs w))
         (set_elements
            (<[e := hiddenPassword e d el]> (elements w)
             ++ [decoyOf w e d el]) w)).
Proof.
  intros Hel Ht d. subst d. unfold polyfillPassword.
  assert (Hlt : e < List.length (elements w)) by by eapply lookup_lt_Some.
  rewrite (bind_run _ _ _ _ _ (getElement_run _ _ _ Hel)).
  rewrite Ht. change (String.eqb "password" "password") with true. cbv iota.
  rewrite (bind_run createInput _ w (List.length (elements w))
             (set_elements (elements w ++ [freshInput w]) w)) by reflexivity.
  rewrite (bind_run _ _ _ _ _ (onElement_last _ _ _ _)).
  rewrite (bind_run _ _ _ _ _ (getElement_front _ _ _ _ _ Hel)).
  rewrite (bind_run _ _ _ _ _ (onElement_last _ _ _ _)).
  rewrite (bind_run _ _ _ _ _ (getElement_front _ _ _ _ _ Hel)).
  rewrite (bind_run _ _ _ _ _ (onElement_last _ _ _ _)).
  rewrite (bind_run _ _ _ _ _ (onElement_last _ _ _ _)).
  rewrite (bind_run _ _ _ _ _ (onElement_last _ _ _ _)).
  rewrite (bind_run _ _ _ _ _ (onElement_last _ _ _ _)).
  rewrite (bind_run _ _ _ _ _ (onElement_front _ _ _ _ _ _ Hel)).
  erewrite bind_run
    by (apply onElement_front; by apply list_lookup_insert_eq).
  rewrite list_insert_insert_eq.
  unfold insertAsNextSibling.
  erewrite bind_run
    by (apply getElement_front; by apply list_lookup_insert_eq).
  erewrite bind_run.
  2:{ rewrite <- (length_insert (elements w) e
                    (addClass
                       (Element.set_onblur
                          (Some (PasswordOnBlur e (List.length (elements w))))
                          el) displayNone)) at 1.
      apply onElement_last. }
  erewrite bind_run
    by (apply onElement_front; by apply list_lookup_insert_eq).
  rewrite list_insert_insert_eq.
  unfold modify, hiddenPassword, decoyOf. f_equal.
  unfold set_inputs, set_elements. simpl. do 3 f_equal.
  rewrite (addClass_eq (Element.set_onblur _ el)). reflexivity.
Qed.

Lemma decoyOf_facts w e d el :
  Element.type (decoyOf w e d el) = "text"
  /\ Element.onclick (decoyOf w e d el) = Some (DecoyOnClick e d)
  /\ Element.onfocus (decoyOf w e d el) = Some (DecoyOnFocus e d)
  /\ Element.onblur (decoyOf w e d el) = None
  /\ Element.form (decoyOf w e d el) = Element.form el
  /\ Element.value (decoyOf w e d el) = placeholderText el
  /\ Element.nextSibling (decoyOf w e d el) = Element.nextSibling el.
Proof.
  unfold decoyOf, activatePlaceholder. cbv zeta. simpl.
  rewrite addClass_eq. by repeat split.
Qed.

Lemma hiddenPassword_facts e d el :
  Element.type (hiddenPassword e d el) = Element.type el
  /\ Element.onclick (hiddenPassword e d el) = Element.onclick el
  /\ Element.onfocus (hiddenPassword e d el) = Element.onfocus el
  /\ Element.onblur (hiddenPassword e d el) = Some (PasswordOnBlur e d)
  /\ Element.form (hiddenPassword e d el) = Element.form el
  /\ Element.value (hiddenPassword e d el) = Element.value el
  /\ Element.nextSibling (hiddenPassword e d el) = Some (InputNode d)
  /\ hasClass (hiddenPassword e d el) displayNone = true.
Proof.
  assert (Hh : hasClass (hiddenPassword e d el) displayNone = true).
  { transitivity
      (hasClass
         (addClass (Element.set_onblur (Some (PasswordOnBlur e d)) el)
            displayNone) displayNone); [reflexivity|].
    apply hasClass_addClass. }
  repeat split; try exact Hh;
    unfold hiddenPassword; simpl; rewrite addClass_eq; reflexivity.
Qed.

(** [polyfillPassword] keeps the invariant. *)
Lemma polyfillPassword_Wired w e el :
  elements w !! e = Some el -> Element.type el = "password" ->
  Wired w -> Wired (world (polyfillPassword e w)).
Proof.
  intros Hel Ht [He Hf].
  pose proof (polyfillPassword_run w e el Hel Ht) as Hrun. simpl in Hrun.
  rewrite Hrun. clear Hrun. cbn [world].
  assert (Hlt : e < List.length (elements w)) by by eapply lookup_lt_Some.
  set (d := List.length (elements w)).
  destruct (hiddenPassword_facts e d el)
    as (P1 & P2 & P3 & P4 & P5 & _).
  destruct (decoyOf_facts w e d el) as (D1 & D2 & D3 & D4 & D5 & _).
  destruct (He e el Hel) as (G1 & G2 & G3 & G4).
  split.
  - intros e0 el0 H0. cbn [elements set_inputs set_elements] in H0.
    unfold elementFine. cbn [forms set_inputs set_elements].
    destruct (decide (e0 < d)) as [Hlt0|Hge].
    + rewrite lookup_app_l in H0 by by rewrite length_insert.
      destruct (decide (e0 = e)) as [->|Hne].
      * rewrite list_lookup_insert_eq in H0 by done. injection H0 as <-.
        rewrite P2, P3, P4, P5. repeat split.
        1,2: by eapply handlerFine_hard.
        exact G4.
      * rewrite list_lookup_insert_ne in H0 by done. by apply He.
    + assert (e0 = d) as ->.
      { apply lookup_lt_Some in H0. rewrite length_app, length_insert in H0.
        simpl in H0. unfold d. lia. }
      rewrite lookup_app_r in H0 by by rewrite length_insert.
      rewrite length_insert, Nat.sub_diag in H0. injection H0 as <-.
      rewrite D2, D3, D4, D5. repeat split.
      intros r Hr. destruct (G4 r Hr) as (fm & Hfm & _).
      exists fm. split; [done|]. discriminate.
  - intros r fm Hr. cbn [forms set_inputs set_elements] in Hr.
    eapply formFine_keep; [by apply Hf|].
    intros e0 el0 H0 Ht0. cbn [elements set_inputs set_elements].
    exists el0. split; [|done].
    apply lookup_app_l_Some. rewrite list_lookup_insert_ne; [done|].
    intros ->. congruence.
Qed.

(** Collecting the elements with placeholders changes the page softly. *)
Lemma collectPlaceholders_soft l : Frame soft (collectPlaceholders l).
Proof.
  induction l as [|e l IH]; simpl; [soft_framing|].
  apply frame_bind; [apply _|soft_framing|intros el].
  destruct (_ || _); [|done].
  apply frame_bind; [apply _|by apply frame_soft_onElement|intros _].
  apply frame_bind; [apply _|done|intros found]. soft_framing.
Qed.

(** The constructor keeps the invariant, whether it returns or throws. *)
Lemma placeholderPolyfill_Wired w :
  Wired w -> Wired (world (placeholderPolyfill w)).
Proof.
  revert w.
  change (Frame (keeps Wired) placeholderPolyfill).
  unfold placeholderPolyfill, placeholderIsSupported.
  apply frame_bind; [apply _|framing|intros supported].
  destruct (negb supported); [|framing].
  apply frame_bind; [apply _| |intros l].
  - unfold getElementsWithPlaceholders.
    apply frame_bind; [apply _|framing|intros w0].
    intros w Hw. eapply soft_Wired; [apply collectPlaceholders_soft|done].
  - apply frame_forEach; [apply _|apply _|intros e].
    intros w Hw. destruct (elements w !! e) as [el|] eqn:E.
    + rewrite (bind_run _ _ _ _ _ (getElement_run _ _ _ E)).
      destruct (String.eqb_spec (Element.type el) "password") as [Ht|Ht].
      * by apply (polyfillPassword_Wired w e el).
      * by apply (polyfill_Wired w e el).
    + by rewrite (bind_throw _ _ _ _ _ (getElement_fail _ _ E)).
Qed.

(** *** What the constructor wires *)

Global Instance grows_refl : Reflexive grows.
Proof. intros w e el H. by exists el. Qed.

Global Instance grows_trans : Transitive grows.
Proof.
  intros w1 w2 w3 H1 H2 e el H.
  destruct (H1 e el H) as (el2 & G1 & G2 & G3 & G4 & G5).
  destruct (H2 e el2 G1) as (el3 & K1 & K2 & K3 & K4 & K5).
  exists el3. repeat split; [done|congruence|congruence|auto|auto].
Qed.












(** *** Submission on a wired page *)

(** Under the invariant, submitting the form of a wired element runs the
custom handler, and the data sent has [beforeOnSubmit] run on the
element. *)
Lemma wired_submission foreign w e el r :
  Wired w -> elements w !! e = Some el ->
  Element.onfocus el = Some PolyfillOnFocus -> Element.form el = Some r ->
  exists es data w',
    e ∈ es
    /\ dispatch foreign (SubmitEvent r) w
       = mkResult
           (map Invoke (map BeforeOnSubmitOf es)
            ++ [Submit r data]
            ++ map Invoke (map AfterOnSubmitOf es))
           (Some tt) w'
    /\ data !! e = Some (beforeOnSubmit el).
Proof.
  intros [He Hf] Hel Hfo Hfm.
  destruct (He e el Hel) as (_ & _ & _ & G4).
  destruct (G4 r Hfm) as (fm & Hr & Hin). specialize (Hin Hfo).
  set (es := targets (Form.beforeOnSubmit fm)) in *.
  assert (Hne : es <> []) by (intros Hnil; rewrite Hnil in Hin;
                              by apply elem_of_nil in Hin).
  pose proof (hooked_of_fine w r fm Hr (Hf r fm Hr) Hne) as Hh.
  exists es. eexists _, _. split; [done|]. split.
  - cbn [dispatch].
    rewrite (bind_run _ _ _ _ _ (getForm_run _ _ _ Hr)). simpl.
    pose proof Hh as (fm' & Hr' & _ & _ & Hos & _).
    assert (fm' = fm) as -> by congruence. rewrite Hos.
    rewrite (bind_run_actions _ _ _ _ _ _
               (Submission.customOnSubmit_run foreign w r es Hh)).
    simpl. rewrite app_nil_r. reflexivity.
  - rewrite (Submission.lookup_applyAll _ _ Submission.beforeOnSubmit_idem).
    rewrite Hel. simpl. by rewrite bool_decide_eq_true_2.
Qed.


Lemma plainPage_scriptFree : scriptFree Samples.plainPage.
Proof.
  split.
  - intros [|[|e]] el H; simpl in H; [| |done];
      injection H as <-; repeat split; try done;
      intros r [= <-]; simpl; lia.
  - intros [|r] fm H; simpl in H; [|done]. by injection H as <-.
Qed.


End Invariant.

(** ** Password fields *)

Module Passwords.
Import JsString ClassNames Page Polyfill Events Vocabulary Run Classes.
Import Framing Register Shim Invariant.

Global Instance passwordsKept_refl : Reflexive passwordsKept.
Proof. intros w e el H Ht. by exists el. Qed.

Global Instance passwordsKept_trans : Transitive passwordsKept.
Proof.
  intros w1 w2 w3 H1 H2 e el H Ht.
  destruct (H1 e el H Ht) as (el2 & G1 & G2 & G3).
  destruct (H2 e el2 G1 G2) as (el3 & K1 & K2 & K3).
  exists el3. repeat split; [done|done|congruence].
Qed.

(** Assigning to an element that is not a password field. *)
Lemma kept_insert_other w x elx y :
  elements w !! x = Some elx -> Element.type elx <> "password" ->
  passwordsKept w (set_elements (<[x := y]> (elements w)) w).
Proof.
  intros Hx Ht e el Hel Hp. exists el. simpl.
  rewrite list_lookup_insert_ne; [done|]. intros ->. congruence.
Qed.

(** Assigning to an element a record with the same type and value. *)
Lemma kept_insert_same w x elx y :
  elements w !! x = Some elx ->
  Element.type y = Element.type elx ->
  Element.value y = Element.value elx ->
  passwordsKept w (set_elements (<[x := y]> (elements w)) w).
Proof.
  intros Hx Ht Hv e el Hel Hp. simpl.
  destruct (decide (e = x)) as [->|Hne].
  - exists y. rewrite list_lookup_insert_eq by by eapply lookup_lt_Some.
    assert (el = elx) as -> by congruence.
    repeat split; congruence.
  - exists el. by rewrite list_lookup_insert_ne.
Qed.

Lemma frame_kept_onElement x f :
  (forall el, Element.type (f el) = Element.type el
              /\ Element.value (f el) = Element.value el) ->
  Frame passwordsKept (onElement x f).
Proof.
  intros Hf. apply frame_onElement; [apply _|].
  intros w el Hel. destruct (Hf el). by apply kept_insert_same with el.
Qed.

Lemma addClass_keeps c el :
  Element.type (addClass el c) = Element.type el
  /\ Element.value (addClass el c) = Element.value el.
Proof. by rewrite addClass_eq. Qed.

Lemma removeClass_keeps c el :
  Element.type (removeClass el c) = Element.type el
  /\ Element.value (removeClass el c) = Element.value el.
Proof. by rewrite removeClass_eq. Qed.

Lemma kept_active w x : passwordsKept w (set_activeElement x w).
Proof. intros e el H Ht. by exists el. Qed.

Section Steps.
Variable foreign : nat -> World -> option World.

(** A handler of the script, run on a target for which it is fine, leaves
the values of password fields alone. *)
Lemma runHandler_kept h this w el :
  elements w !! this = Some el -> handlerFine el (Some h) ->
  passwordsKept w (world (runHandler foreign h this w)).
Proof.
  intros Hel Hfine. destruct h; cbn [runHandler]; simpl in Hfine.
  - unfold onClick.
    rewrite (bind_run get _ w w w) by reflexivity.
    destruct (bool_decide _); [reflexivity|].
    rewrite (onElement_run _ _ _ _ Hel). simpl.
    by apply kept_insert_other with el.
  - rewrite (onElement_run _ _ _ _ Hel). simpl.
    by apply kept_insert_other with el.
  - rewrite (onElement_run _ _ _ _ Hel). simpl.
    by apply kept_insert_other with el.
  - clear Hel Hfine. revert w.
    change (Frame passwordsKept (onClickPassword element placeholderElement)).
    unfold onClickPassword, focus. framing;
      first [apply kept_active
            |eapply kept_insert_same; [eassumption|..];
             first [apply addClass_keeps|apply removeClass_keeps]].
  - clear Hel Hfine. revert w.
    change (Frame passwordsKept (onFocusPassword element placeholderElement)).
    unfold onFocusPassword, onClickPassword, focus. framing;
      first [apply kept_active
            |eapply kept_insert_same; [eassumption|..];
             first [apply addClass_keeps|apply removeClass_keeps]].
  - clear Hel Hfine. revert w.
    change (Frame passwordsKept (onBlurPassword element placeholderElement)).
    unfold onBlurPassword. framing;
      (eapply kept_insert_same; [eassumption|..];
       first [apply addClass_keeps|apply removeClass_keeps]).
  - reflexivity.
  - done.
Qed.

Lemma runProperty_kept h this w el :
  elements w !! this = Some el -> handlerFine el h ->
  passwordsKept w (world (runProperty foreign h this w)).
Proof.
  intros Hel Hf. destruct h as [h|]; simpl; [|reflexivity].
  by apply runHandler_kept with el.
Qed.

(** Running the registered functions leaves password fields alone: none of
the registered elements is one. *)
Lemma kept_applyAll f es w :
  (forall x, f (f x) = f x) ->
  Forall (fun e => exists el, elements w !! e = Some el
                              /\ Element.type el <> "password") es ->
  forall e el,
    elements w !! e = Some el -> Element.type el = "password" ->
    applyAll f es (elements w) !! e = Some el.
Proof.
  intros Hi Hes e el Hel Ht.
  rewrite (Submission.lookup_applyAll f es Hi), Hel. simpl.
  rewrite bool_decide_eq_false_2; [done|].
  intros Hin. rewrite Forall_forall in Hes.
  destruct (Hes e Hin) as (el' & Hel' & Ht'). congruence.
Qed.

(** Under the invariant, an event other than the user's input leaves the
values of password fields alone. *)
Lemma dispatch_kept ev w :
  Wired w -> (forall t txt, ev <> Input t txt) ->
  passwordsKept w (world (dispatch foreign ev w)).
Proof.
  intros [He Hf] Hev. destruct ev as [t|t|t|t txt|r]; cbn [dispatch].
  - destruct (elements w !! t) as [el|] eqn:E.
    + rewrite (bind_run _ _ _ _ _ (getElement_run _ _ _ E)).
      destruct (He t el E) as (H1 & _). by apply runProperty_kept with el.
    + rewrite (bind_throw _ _ _ _ _ (getElement_fail _ _ E)). reflexivity.
  - destruct (elements w !! t) as [el|] eqn:E.
    + rewrite (bind_run _ _ _ _ _ (getElement_run _ _ _ E)).
      erewrite bind_run by reflexivity.
      destruct (He t el E) as (_ & H2 & _).
      etransitivity; [apply (kept_active w (Some t))|].
      by apply runProperty_kept with el.
    + rewrite (bind_throw _ _ _ _ _ (getElement_fail _ _ E)). reflexivity.
  - destruct (elements w !! t) as [el|] eqn:E.
    + rewrite (bind_run _ _ _ _ _ (getElement_run _ _ _ E)).
      erewrite bind_run by reflexivity.
      destruct (He t el E) as (_ & _ & H3 & _).
      destruct (bool_decide _).
      * etransitivity; [apply (kept_active w None)|].
        by apply runProperty_kept with el.
      * by apply runProperty_kept with el.
    + rewrite (bind_throw _ _ _ _ _ (getElement_fail _ _ E)). reflexivity.
  - by destruct (Hev t txt).
  - destruct (forms w !! r) as [fm|] eqn:E.
    + rewrite (bind_run _ _ _ _ _ (getForm_run _ _ _ E)). simpl.
      pose proof (Hf r fm E) as Hfine.
      pose proof Hfine as (_ & _ & H3 & H4 & _). rewrite H4.
      destruct (bool_decide_reflect (targets (Form.beforeOnSubmit fm) = []))
        as [Hnil|Hne].
      * unfold submit, bind, get, tell. simpl. reflexivity.
      * pose proof (hooked_of_fine w r fm E Hfine Hne) as Hh.
        rewrite (bind_run_actions _ _ _ _ _ _
                   (Submission.customOnSubmit_run foreign w r _ Hh)).
        simpl. intros e el Hel Ht. exists el. simpl. split; [|done].
        pose proof (kept_applyAll beforeOnSubmit _ w
                      Submission.beforeOnSubmit_idem H3 e el Hel Ht) as Hb.
        apply (kept_applyAll afterOnSubmit _
                 (set_elements
                    (applyAll beforeOnSubmit
                       (targets (Form.beforeOnSubmit fm)) (elements w)) w)
                 Submission.afterOnSubmit_idem); [|done|done].
        eapply Forall_impl; [exact H3|]. simpl.
        intros e0 (el0 & Hel0 & Ht0).
        destruct (soft_applyAll beforeOnSubmit
                    (targets (Form.beforeOnSubmit fm)) w
                    Submission.beforeOnSubmit_idem hard_beforeOnSubmit)
          as (_ & _ & Hs).
        destruct (Hs e0 el0 Hel0) as (el1 & Hel1 & Hh1).
        apply hard_inv in Hh1 as (Ht1 & _).
        exists el1. split; [done|congruence].
    + rewrite (bind_throw _ _ w [] w); [reflexivity|].
      unfold getForm, bind, get. simpl. by rewrite E.
Qed.

(** Under the invariant, after an event a password field has the value it
had, or the text the user gave it with this event. *)
Lemma dispatch_typed ev w e el :
  Wired w -> elements w !! e = Some el -> Element.type el = "password" ->
  exists el',
    elements (world (dispatch foreign ev w)) !! e = Some el'
    /\ Element.type el' = "password"
    /\ Element.value el' = typed [ev] e (Element.value el).
Proof.
  intros Hw Hel Ht.
  assert (Hother : (forall t txt, ev <> Input t txt) ->
                   typed [ev] e (Element.value el) = Element.value el ->
                   exists el',
                     elements (world (dispatch foreign ev w)) !! e = Some el'
                     /\ Element.type el' = "password"
                     /\ Element.value el'
                        = typed [ev] e (Element.value el)).
  { intros Hev Hty. rewrite Hty. by apply (dispatch_kept ev w Hw Hev). }
  destruct ev as [t|t|t|t txt|r]; try (by apply Hother).
  cbn [dispatch typed].
  destruct (elements w !! t) as [elt|] eqn:E.
  - rewrite (onElement_run _ _ _ _ E). simpl.
    destruct (Nat.eqb_spec t e) as [->|Hne].
    + exists (Element.set_value txt el).
      rewrite list_lookup_insert_eq by by eapply lookup_lt_Some.
      assert (elt = el) as -> by congruence. by repeat split.
    + exists el. by rewrite list_lookup_insert_ne.
  - rewrite (onElement_fail _ _ _ E). simpl. exists el.
    destruct (Nat.eqb_spec t e) as [->|Hne]; [congruence|done].
Qed.

Lemma typed_cons ev evs e v : typed (ev :: evs) e v = typed evs e (typed [ev] e v).
Proof. by destruct ev. Qed.

(** After a sequence of events a password field has the value the user
gave it last, or the one it had. *)
Lemma run_typed evs : forall w e el,
  Wired w -> elements w !! e = Some el -> Element.type el = "password" ->
  exists el',
    elements (world (run foreign evs w)) !! e = Some el'
    /\ Element.type el' = "password"
    /\ Element.value el' = typed evs e (Element.value el).
Proof.
  induction evs as [|ev evs IH]; intros w e el Hw Hel Ht.
  - by exists el.
  - cbn [run world].
    destruct (dispatch_typed ev w e el Hw Hel Ht) as (el1 & G1 & G2 & G3).
    pose proof (soft_Wired _ _ (dispatch_soft foreign ev w Hw) Hw) as Hw1.
    destruct (IH _ e el1 Hw1 G1 G2) as (el2 & K1 & K2 & K3).
    exists el2. split; [done|]. split; [done|].
    by rewrite typed_cons, <- G3.
Qed.

End Steps.

(** *** The constructor *)

Lemma collectPlaceholders_kept l : Frame passwordsKept (collectPlaceholders l).
Proof.
  induction l as [|e l IH]; simpl; [framing|].
  apply frame_bind; [apply _|framing|intros el].
  destruct (_ || _); [|done].
  apply frame_bind; [apply _|by apply frame_kept_onElement|intros _].
  apply frame_bind; [apply _|done|intros found]. framing.
Qed.

Lemma polyfillPassword_kept w e el :
  elements w !! e = Some el -> Element.type el = "password" ->
  passwordsKept w (world (polyfillPassword e w)).
Proof.
  intros Hel Ht.
  pose proof (polyfillPassword_run w e el Hel Ht) as Hrun. simpl in Hrun.
  rewrite Hrun. cbn [world]. intros e0 el0 H0 Ht0.
  cbn [elements set_inputs set_elements].
  destruct (hiddenPassword_facts e (List.length (elements w)) el)
    as (P1 & _ & _ & _ & _ & P6 & _).
  destruct (decide (e0 = e)) as [->|Hne].
  - exists (hiddenPassword e (List.length (elements w)) el).
    assert (el0 = el) as -> by congruence.
    split; [|by rewrite P1].
    apply lookup_app_l_Some, list_lookup_insert_eq. by eapply lookup_lt_Some.
  - exists el0. split; [|done].
    apply lookup_app_l_Some. by rewrite list_lookup_insert_ne.
Qed.

Lemma body_kept e :
  Frame passwordsKept
    (bind (getElement e)
       (fun el => if String.eqb (Element.type el) "password"
                  then polyfillPassword e else polyfill e)).
Proof.
  intros w. destruct (elements w !! e) as [el|] eqn:E.
  - rewrite (bind_run _ _ _ _ _ (getElement_run _ _ _ E)).
    destruct (String.eqb_spec (Element.type el) "password") as [Ht|Ht].
    + by apply polyfillPassword_kept with el.
    + intros e0 el0 H0 Ht0. rewrite (polyfill_elements w e el E).
      by apply (kept_insert_other w e el (wired el) E Ht e0 el0).
  - rewrite (bind_throw _ _ _ _ _ (getElement_fail _ _ E)). reflexivity.
Qed.

(** The constructor leaves the values of password fields alone. *)
Lemma placeholderPolyfill_kept : Frame passwordsKept placeholderPolyfill.
Proof.
  unfold placeholderPolyfill, placeholderIsSupported.
  apply frame_bind; [apply _|framing|intros supported].
  destruct (negb supported); [|framing].
  apply frame_bind; [apply _| |intros l].
  - unfold getElementsWithPlaceholders.
    apply frame_bind; [apply _|framing|intros w0].
    apply collectPlaceholders_kept.
  - apply frame_forEach; [apply _|apply _|intros e]. apply body_kept.
Qed.

(** C2.  [polyfillPassword] on a password field returns, leaves the field's
value as it is, hides the field with the class [displayNone], and creates
one element, of type text, that has the placeholder text as value and is
the field's next sibling; every other element is as before.  And on a page
that no other script has touched, after the constructor and any sequence of
events, a password field has the value the user gave it last, or the value
it had: the script never assigns to it. *)
Theorem password_value_untouched foreign :
  (forall w e el,
      elements w !! e = Some el ->
      Element.type el = "password" ->
      let d := List.length (elements w) in
      let res := polyfillPassword e w in
      outcome res = Some tt
      /\ List.length (elements (world res)) = S d
      /\ (exists el' decoy,
            elements (world res) !! e = Some el'
            /\ elements (world res) !! d = Some decoy
            /\ Element.type el' = "password"
            /\ Element.value el' = Element.value el
            /\ hasClass el' displayNone = true
            /\ Element.nextSibling el' = Some (InputNode d)
            /\ Element.type decoy = "text"
            /\ Element.value decoy = placeholderText el
            /\ Element.nextSibling decoy = Element.nextSibling el)
      /\ (forall e0, e0 <> e -> e0 < d ->
                     elements (world res) !! e0 = elements w !! e0))
  /\ (forall w0 evs e el0,
        scriptFree w0 ->
        elements w0 !! e = Some el0 ->
        Element.type el0 = "password" ->
        exists el,
          elements (world (run foreign evs (world (placeholderPolyfill w0))))
            !! e = Some el
          /\ Element.type el = "password"
          /\ Element.value el = typed evs e (Element.value el0)).
Proof.
  split.
  - intros w e el Hel Ht d res. subst res.
    pose proof (polyfillPassword_run w e el Hel Ht) as Hrun. simpl in Hrun.
    fold d in Hrun. rewrite Hrun. cbn [outcome world elements set_inputs
                                        set_elements].
    assert (Hlt : e < d) by by eapply lookup_lt_Some.
    destruct (hiddenPassword_facts e d el)
      as (P1 & _ & _ & _ & _ & P6 & P7 & P8).
    destruct (decoyOf_facts w e d el) as (D1 & _ & _ & _ & _ & D6 & D7).
    split; [done|]. split.
    { rewrite length_app, length_insert. simpl. unfold d. lia. }
    split.
    + exists (hiddenPassword e d el), (decoyOf w e d el).
      split. { by apply lookup_app_l_Some, list_lookup_insert_eq. }
      split. { rewrite lookup_app_r by by rewrite length_insert.
               by rewrite length_insert, Nat.sub_diag. }
      rewrite P1. by repeat split.
    + intros e0 Hne Hlt0.
      rewrite lookup_app_l by by rewrite length_insert.
      by apply list_lookup_insert_ne.
  - intros w0 evs e el0 Hfree Hel Ht.
    destruct (placeholderPolyfill_kept w0 e el0 Hel Ht) as (el1 & G1 & G2 & G3).
    pose proof (placeholderPolyfill_Wired w0 (scriptFree_Wired w0 Hfree)) as Hw.
    destruct (run_typed foreign evs _ e el1 Hw G1 G2) as (el & K1 & K2 & K3).
    exists el. split; [done|]. split; [done|]. by rewrite K3, G3.
Qed.

Lemma password_value_untouched_witness :
  exists el,
    elements
      (world (run Samples.inert [Click 2; Input 1 "secret"; Blur 1]
                (world (placeholderPolyfill Samples.plainPage)))) !! 1
    = Some el
    /\ Element.type el = "password"
    /\ Element.value el
       = typed [Click 2; Input 1 "secret"; Blur 1] 1
           (Element.value Samples.passwordField).
Proof.
  apply (proj2 (password_value_untouched Samples.inert) Samples.plainPage
           [Click 2; Input 1 "secret"; Blur 1] 1 Samples.passwordField).
  - apply Invariant.plainPage_scriptFree.
  - reflexivity.
  - reflexivity.
Defined.

End Passwords.

(** ** Removing a class whose name occurs once

The two failures of [removeClass] need the name of the class to occur
more than once in the class attribute.  When it occurs once, as the class
itself, [removeClass] removes the class and keeps the others. *)

Module Removal.
Import JsString RegExp ClassNames Vocabulary Patterns Classes Shim.

Lemma stripPrefix_append c s t :
  stripPrefix c s = Some t <-> s = c +:+ t.
Proof.
  revert s. induction c as [|a c IH]; intros s; simpl.
  - rewrite append_nil_l. split; congruence.
  - rewrite append_cons. destruct s as [|b s]; [split; discriminate|].
    destruct (Ascii.eqb_spec b a) as [->|Hne].
    + rewrite IH. split; congruence.
    + split; [discriminate|]. intros [= ? ?]. done.
Qed.

Lemma matcher_literal_strip c : forall bol s k,
  matcher (literal c) bol s k
  = match stripPrefix c s with
    | Some t => k (match c with EmptyString => bol | _ => false end) t
    | None => None
    end.
Proof.
  induction c as [|a c IH]; intros bol s k; [done|].
  cbn [literal matcher stripPrefix]. destruct s as [|b s]; [done|].
  destruct (Ascii.eqb b a); [|done].
  rewrite IH. destruct (stripPrefix c s); [|done]. by destruct c.
Qed.

(** The search splits the string at the match it finds. *)
Lemma exec_split r s : forall bol before rest,
  exec r bol s = Some (before, rest) ->
  exists q,
    s = before +:+ q
    /\ matchAt r (match before with EmptyString => bol | _ => false end) q
       = Some rest.
Proof.
  induction s as [|a s IH]; intros bol before rest H; cbn [exec] in H.
  - destruct (matchAt r bol "") eqn:E; [|done].
    injection H as <- <-. by exists "".
  - destruct (matchAt r bol (String a s)) eqn:E.
    + injection H as <- <-. by exists (String a s).
    + destruct (exec r false s) as [[b' r']|] eqn:E2; [|done].
      injection H as <- <-.
      destruct (IH false b' r' E2) as (q & -> & Hq).
      exists q. split; [by rewrite append_cons|]. by destruct b'.
Qed.

(** What the class pattern matches: the name, after white space or at the
start, before white space or at the end. *)
Lemma matchAt_class (c : ClassName) bol s rest :
  matchAt (classPattern c) bol s = Some rest ->
  exists lead trail,
    s = lead +:+ c +:+ trail +:+ rest
    /\ (lead = "" /\ bol = true
        \/ exists a, lead = String a "" /\ isWhiteSpace a = true)
    /\ (trail = "" /\ rest = ""
        \/ exists b, trail = String b "" /\ isWhiteSpace b = true).
Proof.
  assert (Htail : forall b0 t,
             matcher (Alt Space Eol) b0 t (fun _ rest => Some rest)
             = Some rest ->
             exists trail,
               t = trail +:+ rest
               /\ (trail = "" /\ rest = ""
                   \/ exists b, trail = String b ""
                                /\ isWhiteSpace b = true)).
  { intros b0 t H. cbn [matcher] in H. destruct t as [|b t].
    - injection H as <-. exists "". split; [done|by left].
    - destruct (isWhiteSpace b) eqn:Eb; [|done]. injection H as <-.
      exists (String b ""). split; [done|]. right. by exists b. }
  assert (Hbody : forall b0 t,
             matcher (Seq (literal c) (Alt Space Eol)) b0 t
               (fun _ rest => Some rest) = Some rest ->
             exists trail,
               t = c +:+ trail +:+ rest
               /\ (trail = "" /\ rest = ""
                   \/ exists b, trail = String b ""
                                /\ isWhiteSpace b = true)).
  { intros b0 t H. rewrite matcher_seq, matcher_literal_strip in H.
    destruct (stripPrefix c t) as [t'|] eqn:E; [|done].
    apply stripPrefix_append in E as ->.
    destruct (Htail _ _ H) as (trail & -> & Ht). by exists trail. }
  unfold matchAt, classPattern. rewrite matcher_seq, matcher_alt.
  intros H.
  destruct (matcher Space bol s _) as [e|] eqn:E1.
  - injection H as ->. cbn [matcher] in E1.
    destruct s as [|a s]; [done|].
    destruct (isWhiteSpace a) eqn:Ea; [|done].
    destruct (Hbody _ _ E1) as (trail & -> & Ht).
    exists (String a ""), trail. split; [done|]. split; [|done].
    right. by exists a.
  - cbn [matcher] in H. destruct bol; [|done].
    destruct (Hbody _ _ H) as (trail & -> & Ht).
    exists "", trail. split; [done|]. split; [by left|done].
Qed.

(** *** Occurrences of a class name *)

Lemma prefix_strip c : forall s,
  String.prefix c s
  = match stripPrefix c s with Some _ => true | None => false end.
Proof.
  induction c as [|a c IH]; intros s; [by destruct s|].
  destruct s as [|b s]; [done|]. simpl.
  destruct (ascii_dec a b) as [->|Hne].
  - by rewrite Ascii.eqb_refl.
  - destruct (Ascii.eqb_spec b a); [congruence|done].
Qed.

Lemma prefix_append c t : String.prefix c (c +:+ t) = true.
Proof.
  rewrite prefix_strip.
  by rewrite (proj2 (stripPrefix_append c (c +:+ t) t) eq_refl).
Qed.

Lemma prefix_mono c x y :
  String.prefix c x = true -> String.prefix c (x +:+ y) = true.
Proof.
  rewrite !prefix_strip. destruct (stripPrefix c x) as [t|] eqn:E; [|done].
  apply stripPrefix_append in E as ->. intros _.
  rewrite append_assoc.
  by rewrite (proj2 (stripPrefix_append c _ (t +:+ y)) eq_refl).
Qed.

Lemma prefix_app_space c : forall x w y,
  noSpace c = true -> isWhiteSpace w = true ->
  String.prefix c (x +:+ String w y) = String.prefix c x.
Proof.
  induction c as [|a c IH]; intros x w y Hn Hw.
  - by destruct x.
  - simpl in Hn. apply andb_prop in Hn as [Ha Hn].
    apply andb_prop in Ha as [Ha _].
    destruct x as [|b x].
    + rewrite append_nil_l. simpl.
      destruct (ascii_dec a w) as [->|]; [|done]. by rewrite Hw in Ha.
    + rewrite append_cons. simpl. destruct (ascii_dec a b); [|done].
      by apply IH.
Qed.

Lemma prefix_nil (c : ClassName) : String.prefix c "" = false.
Proof. destruct (className_cons c) as (a & c' & -> & _). done. Qed.

Lemma occurrences_nil (c : ClassName) : occurrences c "" = 0.
Proof. cbn [occurrences]. by rewrite prefix_nil. Qed.

Lemma occurrences_app_space (c : ClassName) x w y :
  isWhiteSpace w = true ->
  occurrences c (x +:+ String w y) = occurrences c x + occurrences c y.
Proof.
  intros Hw. pose proof (className_noSpace c) as Hn.
  induction x as [|b x IH].
  - rewrite append_nil_l, occurrences_nil. cbn [occurrences].
    pose proof (prefix_app_space c "" w y Hn Hw) as H.
    rewrite append_nil_l in H. by rewrite H, prefix_nil.
  - rewrite append_cons. cbn [occurrences]. rewrite IH.
    pose proof (prefix_app_space c (String b x) w y Hn Hw) as H.
    rewrite append_cons in H. rewrite H. lia.
Qed.

Lemma occurrences_joint (c : ClassName) sep x y :
  joint sep x y ->
  occurrences c (x +:+ sep +:+ y) = occurrences c x + occurrences c y.
Proof.
  intros [[-> [-> | ->]]|(a & -> & Ha)].
  - by rewrite !append_nil_l, occurrences_nil.
  - rewrite !append_nil_r, occurrences_nil. lia.
  - rewrite append_cons, append_nil_l. by apply occurrences_app_space.
Qed.

Lemma occurrences_suffix c x s :
  occurrences c s <= occurrences c (x +:+ s).
Proof.
  induction x as [|b x IH]; [done|]. rewrite append_cons.
  cbn [occurrences]. lia.
Qed.

Lemma occurrences_prefix c x y :
  occurrences c x <= occurrences c (x +:+ y).
Proof.
  induction x as [|b x IH].
  - simpl. rewrite append_nil_l.
    destruct c; [|simpl; lia]. destruct y; simpl; lia.
  - rewrite append_cons. cbn [occurrences].
    destruct (String.prefix c (String b x)) eqn:E.
    + pose proof (prefix_mono c (String b x) y E) as H.
      rewrite append_cons in H. rewrite H. lia.
    + lia.
Qed.

Lemma occurrences_head c s :
  String.prefix c s = true -> 1 <= occurrences c s.
Proof. intros H. destruct s; cbn [occurrences]; rewrite H; lia. Qed.

Lemma occurrences_self c t : 1 <= occurrences c (c +:+ t).
Proof. apply occurrences_head, prefix_append. Qed.

(** Without an occurrence there is nothing to replace. *)
Lemma replaceString_none c r s :
  occurrences c s = 0 -> replaceString c r s = s.
Proof.
  induction s as [|a s IH]; cbn [occurrences replaceString]; intros H.
  - destruct (String.prefix c ""); [lia|done].
  - destruct (String.prefix c (String a s)); [lia|].
    by rewrite IH by lia.
Qed.

Lemma trimLeft_suffix s : exists x, s = x +:+ trimLeft s.
Proof.
  induction s as [|a s [x IH]]; [by exists ""|]. simpl.
  destruct (isWhiteSpace a).
  - exists (String a x). by rewrite append_cons, <- IH.
  - by exists "".
Qed.

Lemma trimRight_prefix s : exists y, s = trimRight s +:+ y.
Proof.
  induction s as [|a s [y IH]]; [by exists ""|]. simpl.
  destruct (isWhiteSpace a && allSpace s).
  - by exists (String a s).
  - exists y. by rewrite append_cons, <- IH.
Qed.

Lemma occurrences_trim c s :
  occurrences c (trimRight (trimLeft s)) <= occurrences c s.
Proof.
  destruct (trimLeft_suffix s) as [x Hx].
  destruct (trimRight_prefix (trimLeft s)) as [y Hy].
  pose proof (occurrences_suffix c x (trimLeft s)) as H1.
  pose proof (occurrences_prefix c (trimRight (trimLeft s)) y) as H2.
  rewrite <- Hy in H2. rewrite <- Hx in H1. lia.
Qed.

(** Where the class pattern matches, the name occurs. *)
Lemma test_occurrences (c : ClassName) s :
  test (classPattern c) s = true -> 1 <= occurrences c s.
Proof.
  unfold test. destruct (exec (classPattern c) true s) as [[before rest]|]
    eqn:E; [|done]. intros _.
  destruct (exec_split _ _ _ _ _ E) as (q & -> & Hq).
  destruct (matchAt_class c _ _ _ Hq) as (lead & trail & -> & _).
  rewrite <- append_assoc.
  etransitivity; [|apply occurrences_suffix]. apply occurrences_self.
Qed.

(** *** Words *)

Lemma wordsFrom_app_space x : forall cur w y,
  isWhiteSpace w = true ->
  wordsFrom cur (x +:+ String w y) = wordsFrom cur x ++ words y.
Proof.
  induction x as [|b x IH]; intros cur w y Hw.
  - rewrite append_nil_l. simpl. rewrite Hw. by destruct (truthy cur).
  - rewrite append_cons. simpl. destruct (isWhiteSpace b).
    + destruct (truthy cur); simpl; by rewrite IH.
    + by apply IH.
Qed.

Lemma wordsFrom_noSpace t : forall cur s,
  noSpace t = true -> wordsFrom cur (t +:+ s) = wordsFrom (cur +:+ t) s.
Proof.
  induction t as [|a t IH]; intros cur s Ht.
  - by rewrite append_nil_l, append_nil_r.
  - simpl in Ht. apply andb_prop in Ht as [Ha Ht].
    apply andb_prop in Ha as [Ha _].
    rewrite append_cons. simpl. destruct (isWhiteSpace a); [done|].
    rewrite IH by done. by rewrite append_assoc, append_cons, append_nil_l.
Qed.

Lemma words_className (c : ClassName) : words c = [text c].
Proof.
  unfold words. pose proof (wordsFrom_noSpace c "" "" (className_noSpace c)) as H.
  rewrite append_nil_r, append_nil_l in H. rewrite H. simpl.
  destruct (className_cons c) as (a & c' & -> & _). done.
Qed.

Lemma words_joint sep x y :
  joint sep x y -> words (x +:+ sep +:+ y) = words x ++ words y.
Proof.
  intros [[-> [-> | ->]]|(a & -> & Ha)].
  - by rewrite !append_nil_l.
  - rewrite !append_nil_r. by rewrite app_nil_r.
  - rewrite append_cons, append_nil_l. by apply wordsFrom_app_space.
Qed.

Lemma words_allSpace s : allSpace s = true -> words s = [].
Proof.
  unfold words. induction s as [|a s IH]; [done|]. simpl.
  intros H. apply andb_prop in H as [-> H]. by apply IH.
Qed.

Lemma words_trimLeft s : words (trimLeft s) = words s.
Proof.
  unfold words. induction s as [|a s IH]; [done|]. simpl.
  destruct (isWhiteSpace a) eqn:E; [done|]. simpl. by rewrite E.
Qed.

Lemma wordsFrom_trimRight s : forall cur,
  wordsFrom cur (trimRight s) = wordsFrom cur s.
Proof.
  induction s as [|a s IH]; intros cur; [done|]. simpl.
  destruct (isWhiteSpace a) eqn:Ea; simpl.
  - destruct (allSpace s) eqn:Es; simpl.
    + fold (words s). rewrite (words_allSpace s Es). by destruct (truthy cur).
    + rewrite Ea. by rewrite IH.
  - rewrite Ea. apply IH.
Qed.

(** *** The class is removed, the others are kept *)

(** Without [classList], when the name of the class occurs once in the
class attribute of an element that has the class: after [removeClass] the
element has the class no more, and the words of its class attribute are
those it had, without the class. *)
Lemma removeClass_single (el : Element.t) (c : ClassName) :
  Element.classList el = false ->
  hasClass el c = true ->
  occurrences c (Element.className el) = 1 ->
  hasClass (removeClass el c) c = false
  /\ exists l1 l2,
      words (Element.className el) = l1 ++ text c :: l2
      /\ words (Element.className (removeClass el c)) = l1 ++ l2.
Proof.
  intros Ecl Eh Hocc.
  unfold removeClass. rewrite Ecl, Eh. unfold hasClass in *. simpl.
  rewrite Ecl in *. unfold replace, test in *.
  destruct (exec (classPattern c) true (Element.className el))
    as [[before rest]|] eqn:E; [|done].
  destruct (exec_split _ _ _ _ _ E) as (q & Hcn & Hq).
  destruct (matchAt_class c _ _ _ Hq) as (lead & trail & -> & Hlead & Htrail).
  assert (Jl : joint lead before (c +:+ trail +:+ rest)).
  { destruct Hlead as [[-> Hb]|?]; [left|by right].
    split; [done|left]. by destruct before. }
  assert (Jt : joint trail c rest).
  { destruct Htrail as [[-> ->]|?]; [left|by right]. split; [done|by right]. }
  rewrite Hcn in Hocc.
  rewrite (occurrences_joint c _ _ _ Jl) in Hocc.
  rewrite (occurrences_joint c _ _ _ Jt) in Hocc.
  pose proof (occurrences_self c "") as Hself. rewrite append_nil_r in Hself.
  assert (Hnew : occurrences c (before +:+ " " +:+ rest) = 0).
  { rewrite append_cons, append_nil_l.
    rewrite (occurrences_app_space c before " " rest) by done. lia. }
  rewrite (replaceString_none _ _ _ Hnew), replaceAll_margin.
  split.
  - destruct (exec (classPattern c) true
                (trimRight (trimLeft (before +:+ " " +:+ rest)))) eqn:E2;
      [|done].
    pose proof (test_occurrences c
                  (trimRight (trimLeft (before +:+ " " +:+ rest)))) as Ht.
    unfold test in Ht. rewrite E2 in Ht. specialize (Ht eq_refl).
    pose proof (occurrences_trim c (before +:+ " " +:+ rest)). lia.
  - exists (words before), (words rest). split.
    + rewrite Hcn, (words_joint _ _ _ Jl), (words_joint _ _ _ Jt).
      by rewrite words_className.
    + unfold words at 1. rewrite wordsFrom_trimRight. fold (words (trimLeft
        (before +:+ " " +:+ rest))). rewrite words_trimLeft.
      rewrite append_cons, append_nil_l.
      by apply wordsFrom_app_space.
Qed.

(** *** With [classList] *)

Lemma isHtmlSpace_white a : isHtmlSpace a = true -> isWhiteSpace a = true.
Proof.
  unfold isHtmlSpace, isWhiteSpace. cbv zeta.
  destruct (Nat.eqb (nat_of_ascii a) 9); [done|].
  destruct (Nat.eqb (nat_of_ascii a) 10); [done|].
  destruct (Nat.eqb (nat_of_ascii a) 11); [done|].
  destruct (Nat.eqb (nat_of_ascii a) 12); [done|].
  destruct (Nat.eqb (nat_of_ascii a) 13); [done|].
  by destruct (Nat.eqb (nat_of_ascii a) 32).
Qed.

(** The occurrences of a class name in a class attribute are those in its
tokens. *)
Lemma occurrences_splitFrom (c : ClassName) s : forall cur,
  occurrences c (cur +:+ s)
  = list_sum (map (occurrences c) (DOMTokenList.splitFrom cur s)).
Proof.
  induction s as [|a s IH]; intros cur; cbn [DOMTokenList.splitFrom].
  - rewrite append_nil_r. destruct cur as [|x cur].
    + by rewrite occurrences_nil.
    + change (truthy (String x cur)) with true. cbv iota.
      unfold list_sum. cbn [map fold_right]. lia.
  - destruct (isHtmlSpace a) eqn:Ea.
    + rewrite (occurrences_app_space c cur a s) by by apply isHtmlSpace_white.
      specialize (IH ""). rewrite append_nil_l in IH.
      destruct cur as [|x cur].
      * change (truthy "") with false. cbv iota.
        by rewrite occurrences_nil, IH.
      * change (truthy (String x cur)) with true. cbv iota.
        unfold list_sum in *. cbn [map fold_right]. by rewrite IH.
    + rewrite <- IH. by rewrite append_assoc, append_cons, append_nil_l.
Qed.

Lemma member_elem t l : DOMTokenList.member t l = true <-> t ∈ l.
Proof.
  unfold DOMTokenList.member. rewrite existsb_exists. split.
  - intros (x & Hin & Hx). apply String.eqb_eq in Hx as ->.
    by apply list_elem_of_In.
  - intros Hin. exists t. split; [by apply list_elem_of_In|].
    apply String.eqb_refl.
Qed.

(** Two different tokens of a list both count in the sum. *)
Lemma sum_two (f : string -> nat) l a b :
  a ∈ l -> b ∈ l -> a <> b -> f a + f b <= list_sum (map f l).
Proof.
  induction l as [|x l IH]; intros Ha Hb Hne; [by apply elem_of_nil in Ha|].
  assert (Hone : forall y, y ∈ l -> f y <= list_sum (map f l)).
  { clear. induction l as [|z l IH]; intros y Hy;
      [by apply elem_of_nil in Hy|].
    simpl. apply elem_of_cons in Hy as [->|Hy]; [lia|].
    specialize (IH y Hy). lia. }
  simpl. apply elem_of_cons in Ha as [->|Ha];
    apply elem_of_cons in Hb as [->|Hb]; try done.
  - specialize (Hone b Hb). lia.
  - specialize (Hone a Ha). lia.
  - specialize (IH Ha Hb Hne). lia.
Qed.

Lemma orderedSet_elem t l : forall seen,
  t ∈ DOMTokenList.orderedSet seen l -> t ∈ l.
Proof.
  induction l as [|x l IH]; intros seen H; [done|]. simpl in H.
  destruct (DOMTokenList.member x seen).
  - right. by apply (IH seen).
  - apply elem_of_cons in H as [->|H]; [by left|right]. by apply (IH _ H).
Qed.

Lemma occurrences_serialize (c : ClassName) l :
  Forall (fun t => occurrences c t = 0) l ->
  occurrences c (DOMTokenList.serialize l) = 0.
Proof.
  induction l as [|t l IH]; intros Hl; [apply occurrences_nil|].
  apply Forall_cons in Hl as [Ht Hl]. destruct l as [|t2 l]; [done|].
  change (DOMTokenList.serialize (t :: t2 :: l))
    with (t +:+ " " +:+ DOMTokenList.serialize (t2 :: l)).
  rewrite append_cons, append_nil_l.
  rewrite (occurrences_app_space c t " " _) by done.
  rewrite (IH Hl). lia.
Qed.

Lemma contains_occurrences (c : ClassName) s :
  DOMTokenList.contains s c = true -> 1 <= occurrences c s.
Proof.
  unfold DOMTokenList.contains, DOMTokenList.parse. intros H.
  apply member_elem, orderedSet_elem in H.
  pose proof (occurrences_splitFrom c s "") as Hs. rewrite append_nil_l in Hs.
  rewrite Hs. clear Hs.
  induction (DOMTokenList.splitFrom "" s) as [|x l IH];
    [by apply elem_of_nil in H|].
  simpl. apply elem_of_cons in H as [<-|H].
  - pose proof (occurrences_self c "") as H1.
    rewrite append_nil_r in H1. lia.
  - specialize (IH H). lia.
Qed.

(** *** In both cases *)

(** When the name of the class occurs once in the class attribute of an
element that has the class, the element has the class no more after
[removeClass]. *)
Lemma removeClass_removes (el : Element.t) (c : ClassName) :
  hasClass el c = true ->
  occurrences c (Element.className el) = 1 ->
  hasClass (removeClass el c) c = false.
Proof.
  intros Eh Hocc. destruct (Element.classList el) eqn:Ecl.
  2:{ by destruct (removeClass_single el c Ecl Eh Hocc). }
  unfold removeClass, hasClass in *. rewrite Ecl in *. simpl. rewrite Ecl.
  assert (Hzero : occurrences c
                    (DOMTokenList.remove (Element.className el) c) = 0).
  { unfold DOMTokenList.remove. apply occurrences_serialize.
    apply Forall_forall. intros t Ht.
    apply list_elem_of_filter in Ht as [Hne Ht].
    unfold DOMTokenList.parse in Ht. apply orderedSet_elem in Ht.
    unfold DOMTokenList.contains, DOMTokenList.parse in Eh.
    apply member_elem, orderedSet_elem in Eh.
    pose proof (occurrences_splitFrom c (Element.className el) "") as Hs.
    rewrite append_nil_l, Hocc in Hs.
    pose proof (sum_two (occurrences c) _ _ _ Eh Ht
                  (fun H => Hne (eq_sym H))) as H2.
    pose proof (occurrences_self c "") as H1. rewrite append_nil_r in H1.
    lia. }
  rewrite (replaceString_none _ _ _ Hzero), replaceAll_margin.
  destruct (DOMTokenList.contains
              (trimRight
                 (trimLeft (DOMTokenList.remove (Element.className el) c)))
              c) eqn:E; [|done].
  apply contains_occurrences in E.
  pose proof (occurrences_trim c
                (DOMTokenList.remove (Element.className el) c)). lia.
Qed.

(** So a focus removes the marker class from a field whose class attribute
has its name once. *)
Lemma focus_removes_marker (el : Element.t) :
  hasClass el placeholderClassName = true ->
  occurrences placeholderClassName (Element.className el) = 1 ->
  hasClass (onFocus el) placeholderClassName = false
  /\ Element.value (onFocus el) = ""
  /\ Element.onselectstart (onFocus el) = None
  /\ Element.onmousedown (onFocus el) = None.
Proof.
  intros Eh Hocc. unfold onFocus. rewrite Eh.
  unfold deactivatePlaceholder. cbv zeta.
  pose proof (removeClass_removes (Element.set_value "" el)
                placeholderClassName Eh Hocc) as Hr.
  split; [exact Hr|]. rewrite removeClass_eq. by repeat split.
Qed.

End Removal.

(** ** Classes as words of the class attribute

Without [classList] the three class functions work on the text of the
class attribute with patterns.  Read as operations on the list of words of
that text, they test membership, append a word and remove one. *)

Module Words.
Import JsString RegExp ClassNames Vocabulary Notions Patterns Classes Shim.
Import Removal.

(** Where a word of a string lies in it: at its start, or after a white
space character, and in both cases before a boundary. *)
Lemma wordsFrom_elem t s : forall cur,
  t ∈ wordsFrom cur s ->
  (exists u q, t = cur +:+ u /\ s = u +:+ q /\ boundary q)
  \/ (exists p a q,
        s = p +:+ String a (t +:+ q) /\ isWhiteSpace a = true /\ boundary q).
Proof.
  induction s as [|a s IH]; intros cur H; cbn [wordsFrom] in H.
  - destruct (truthy cur); [|by apply elem_of_nil in H].
    apply list_elem_of_singleton in H as ->. left. exists "", "".
    rewrite append_nil_r. repeat split. by left.
  - destruct (isWhiteSpace a) eqn:Ea.
    + assert (Hrest : t ∈ wordsFrom "" s ->
                      exists p a0 q, String a s = p +:+ String a0 (t +:+ q)
                                     /\ isWhiteSpace a0 = true /\ boundary q).
      { intros Ht. destruct (IH "" Ht) as [(u & q & -> & -> & Hq)
                                          |(p & a0 & q & -> & Ha0 & Hq)].
        - exists "", a, q. by rewrite !append_nil_l.
        - exists (String a p), a0, q. by rewrite append_cons. }
      destruct (truthy cur).
      * apply elem_of_cons in H as [->|H]; [|right; by apply Hrest].
        left. exists "", (String a s). rewrite append_nil_r, append_nil_l.
        repeat split. right. by exists a, s.
      * right. by apply Hrest.
    + destruct (IH _ H) as [(u & q & -> & -> & Hq)
                           |(p & a0 & q & -> & Ha0 & Hq)].
      * left. exists (String a u), q.
        by rewrite append_assoc, !append_cons, append_nil_l.
      * right. exists (String a p), a0, q. by rewrite append_cons.
Qed.

(** The end of the class pattern, [(\s|$)], matches at a boundary. *)
Lemma matcher_trail q bol :
  boundary q -> is_Some (matcher (Alt Space Eol) bol q accept).
Proof.
  intros [->|(b & q' & -> & Hb)].
  - by eexists.
  - cbn [matcher]. rewrite Hb. by eexists.
Qed.

(** The class pattern matches at a word equal to the class name. *)
Lemma matchAt_class_word (c : ClassName) q :
  boundary q ->
  is_Some (matchAt (classPattern c) true (c +:+ q))
  /\ forall a bol, isWhiteSpace a = true ->
       is_Some (matchAt (classPattern c) bol (String a (c +:+ q))).
Proof.
  intros Hq. destruct (className_cons c) as (x & c' & Hc & Hx & _).
  assert (Hlit : forall bol,
             matcher (literal c) bol (c +:+ q)
               (fun b s' => matcher (Alt Space Eol) b s' accept)
             = matcher (Alt Space Eol) false q accept).
  { intros bol. rewrite matcher_literal. by rewrite Hc. }
  split.
  - unfold matchAt, classPattern. rewrite matcher_seq, matcher_alt.
    assert (Hs : forall k, matcher Space true (c +:+ q) k = None).
    { intros k. rewrite Hc, append_cons. by apply matcher_space_fail. }
    rewrite Hs. cbn [matcher].
    change (fun b s' => match matcher Space b s' (fun _ rest => Some rest) with
                        | Some e => Some e
                        | None => matcher Eol b s' (fun _ rest => Some rest)
                        end)
      with (fun b s' => matcher (Alt Space Eol) b s' accept).
    rewrite Hlit. by apply matcher_trail.
  - intros a bol Ha. unfold matchAt, classPattern.
    rewrite matcher_seq, matcher_alt.
    change (matcher Space bol (String a (c +:+ q))
              (fun b s' =>
                 matcher (Seq (literal c) (Alt Space Eol)) b s'
                   (fun _ rest => Some rest)))
      with (if isWhiteSpace a
            then matcher (Seq (literal c) (Alt Space Eol)) false (c +:+ q)
                   (fun _ rest => Some rest)
            else None).
    rewrite Ha, matcher_seq.
    change (fun b s' => matcher (Alt Space Eol) b s' (fun _ rest => Some rest))
      with (fun b s' => matcher (Alt Space Eol) b s' accept).
    rewrite Hlit.
    destruct (matcher_trail q false Hq) as [e He]. rewrite He. by eexists.
Qed.

(** A class attribute with the class name among its words is matched by
the pattern of [hasClass], and only such a class attribute is. *)
Lemma test_iff_word (c : ClassName) s :
  test (classPattern c) s = true <-> text c ∈ words s.
Proof.
  unfold test. split.
  - destruct (exec (classPattern c) true s)
      as [[before rest]|] eqn:E; [intros _|done].
    destruct (exec_split _ _ _ _ _ E) as (q & Hcn & Hq).
    destruct (matchAt_class c _ _ _ Hq) as (lead & trail & -> & Hlead & Htrail).
    assert (Jl : joint lead before (c +:+ trail +:+ rest)).
    { destruct Hlead as [[-> Hb]|?]; [left|by right].
      split; [done|left]. by destruct before. }
    assert (Jt : joint trail c rest).
    { destruct Htrail as [[-> ->]|?]; [left|by right].
      split; [done|by right]. }
    rewrite Hcn, (words_joint _ _ _ Jl), (words_joint _ _ _ Jt).
    rewrite words_className. apply elem_of_app. right. by left.
  - intros Hin. unfold words in Hin.
    destruct (wordsFrom_elem _ _ _ Hin) as [(u & q & Hu & Hs & Hq)
                                           |(p & a & q & Hs & Ha & Hq)].
    + rewrite append_nil_l in Hu. subst u. rewrite Hs.
      destruct (proj1 (matchAt_class_word c q Hq)) as [rest Hm].
      destruct (exec_found (classPattern c) "" true _ _ Hm) as [x Hx].
      rewrite append_nil_l in Hx. by rewrite Hx.
    + rewrite Hs.
      destruct (proj2 (matchAt_class_word c q Hq) a
                  (match p with EmptyString => true | _ => false end) Ha)
        as [rest Hm].
      destruct (exec_found (classPattern c) p true _ _ Hm) as [x Hx].
      by rewrite Hx.
Qed.

Lemma hasClass_iff_word_helper (el : Element.t) (c : ClassName) :
  Element.classList el = false ->
  hasClass el c = true -> text c ∈ words (Element.className el).
Proof.
  intros Ecl. unfold hasClass. rewrite Ecl. apply test_iff_word.
Qed.

(** X1.  The pattern that [hasClass] builds matches exactly the class
attributes that have the class name among their words: without
[classList], [hasClass] is true for the words of the class attribute and
for nothing else; a name that is only part of a word is not a class of the
element. *)
Theorem hasClass_iff_word (el : Element.t) (c : ClassName) :
  Element.classList el = false ->
  (hasClass el c = true <-> text c ∈ words (Element.className el))
  /\ (hasClass el c = false <-> text c ∉ words (Element.className el)).
Proof.
  intros Ecl. unfold hasClass. rewrite Ecl.
  pose proof (test_iff_word c (Element.className el)) as H.
  split; [exact H|].
  destruct (test (classPattern c) (Element.className el)); split.
  - done.
  - intros Hn. exfalso. apply Hn. by apply H.
  - intros _ Hin. by apply H in Hin.
  - done.
Qed.

(** *** Counting the class name *)

Lemma prefix_length c s :
  String.prefix c s = true -> length c <= length s.
Proof.
  rewrite prefix_strip. destruct (stripPrefix c s) as [t|] eqn:E; [|done].
  intros _. apply stripPrefix_append in E as ->. rewrite length_append. lia.
Qed.

Lemma occurrences_short c : forall s,
  length s < length c -> occurrences c s = 0.
Proof.
  induction s as [|a s IH]; intros Hlen; cbn [occurrences].
  - destruct (String.prefix c "") eqn:E; [|done].
    apply prefix_length in E. lia.
  - destruct (String.prefix c (String a s)) eqn:E.
    + apply prefix_length in E. lia.
    + rewrite IH; [done|]. unfold length in *. simpl in Hlen. lia.
Qed.

(** A class name occurs once in itself. *)
Lemma occurrences_className (c : ClassName) : occurrences c c = 1.
Proof.
  destruct (className_cons c) as (a & c' & Hc & _).
  pose proof (prefix_append c "") as Hp. rewrite append_nil_r in Hp.
  rewrite Hc at 2. cbn [occurrences]. rewrite <- Hc, Hp.
  rewrite occurrences_short; [done|]. rewrite Hc. unfold length. simpl. lia.
Qed.

(** The occurrences of a class name in a string are those in its words. *)
Lemma occurrences_wordsFrom (c : ClassName) s : forall cur,
  occurrences c (cur +:+ s)
  = list_sum (map (occurrences c) (wordsFrom cur s)).
Proof.
  induction s as [|a s IH]; intros cur; cbn [wordsFrom].
  - rewrite append_nil_r. destruct cur as [|x cur].
    + by rewrite occurrences_nil.
    + change (truthy (String x cur)) with true. cbv iota.
      unfold list_sum. cbn [map fold_right]. lia.
  - destruct (isWhiteSpace a) eqn:Ea.
    + rewrite (occurrences_app_space c cur a s) by done.
      specialize (IH ""). rewrite append_nil_l in IH.
      destruct cur as [|x cur].
      * change (truthy "") with false. cbv iota.
        by rewrite occurrences_nil, IH.
      * change (truthy (String x cur)) with true. cbv iota.
        unfold list_sum in *. cbn [map fold_right]. by rewrite IH.
    + rewrite <- IH. by rewrite append_assoc, append_cons, append_nil_l.
Qed.

Lemma occurrences_words (c : ClassName) s :
  occurrences c s = list_sum (map (occurrences c) (words s)).
Proof.
  pose proof (occurrences_wordsFrom c s "") as H.
  by rewrite append_nil_l in H.
Qed.

Lemma sum_zero (f : string -> nat) l :
  list_sum (map f l) = 0 -> Forall (fun t => f t = 0) l.
Proof.
  induction l as [|x l IH]; intros H; [done|]. simpl in H.
  apply Forall_cons. split; [lia|]. apply IH. lia.
Qed.

Lemma sum_app (f : string -> nat) l1 l2 :
  list_sum (map f (l1 ++ l2)) = list_sum (map f l1) + list_sum (map f l2).
Proof. induction l1 as [|x l1 IH]; simpl; [done|]. rewrite IH. lia. Qed.

(** Words in which the class name does not occur are not the class. *)
Lemma filter_others (c : ClassName) l :
  Forall (fun t => occurrences c t = 0) l ->
  filter (fun t => t <> text c) l = l.
Proof.
  induction l as [|x l IH]; intros H; [done|].
  apply Forall_cons in H as [Hx Hl].
  rewrite filter_cons_True.
  - by rewrite (IH Hl).
  - intros ->. rewrite occurrences_className in Hx. lia.
Qed.

(** An element that has a class has its name in its class attribute. *)
Lemma hasClass_occurrences (el : Element.t) (c : ClassName) :
  hasClass el c = true -> 1 <= occurrences c (Element.className el).
Proof.
  unfold hasClass. destruct (Element.classList el).
  - apply contains_occurrences.
  - apply test_occurrences.
Qed.

(** *** Adding a class *)

(** Without [classList], [addClass] on an element that does not have the
class appends the class name to the words of the class attribute. *)
Lemma words_appended (el : Element.t) (c : ClassName) :
  Element.classList el = false ->
  hasClass el c = false ->
  words (Element.className (addClass el c))
  = words (Element.className el) ++ [text c].
Proof.
  intros Ecl Eh. unfold addClass. rewrite Ecl, Eh. simpl.
  rewrite replaceAll_margin. unfold words at 1.
  rewrite wordsFrom_trimRight.
  fold (words (trimLeft (Element.className el +:+ " " +:+ c))).
  rewrite words_trimLeft, append_cons, append_nil_l.
  unfold words at 1.
  rewrite (wordsFrom_app_space (Element.className el) "" " " c) by done.
  by rewrite words_className.
Qed.

(** X2.  Without [classList], [addClass] leaves the words of the class
attribute as they are when the class is among them, and otherwise appends
the class name as the last word; in both cases the class is among the
words afterwards and every word that was there still is. *)
Theorem addClass_words (el : Element.t) (c : ClassName) :
  Element.classList el = false ->
  words (Element.className (addClass el c))
  = (if hasClass el c then words (Element.className el)
     else words (Element.className el) ++ [text c])
  /\ text c ∈ words (Element.className (addClass el c))
  /\ forall t, t ∈ words (Element.className el) ->
               t ∈ words (Element.className (addClass el c)).
Proof.
  intros Ecl. destruct (hasClass el c) eqn:Eh.
  - rewrite (addClass_present el c Ecl Eh). split; [done|]. split; [|done].
    by apply hasClass_iff_word_helper.
  - rewrite (words_appended el c Ecl Eh). split; [done|].
    split; [|intros t Ht]; apply elem_of_app; [right; by left|by left].
Qed.

Lemma addClass_words_witness :
  words (Element.className
           (addClass Samples.nameField placeholderClassName))
  = ["big"; "placeholder"]
  /\ "placeholder"
     ∈ words (Element.className
                (addClass Samples.nameField placeholderClassName))
  /\ forall t, t ∈ ["big"] ->
               t ∈ words (Element.className
                            (addClass Samples.nameField
                               placeholderClassName)).
Proof.
  exact (addClass_words Samples.nameField placeholderClassName eq_refl).
Defined.

Lemma hasClass_iff_word_witness :
  (hasClass (addClass Samples.nameField placeholderClassName)
     placeholderClassName = true
   <-> "placeholder" ∈ ["big"; "placeholder"])
  /\ (hasClass (addClass Samples.nameField placeholderClassName)
        placeholderClassName = false
      <-> "placeholder" ∉ ["big"; "placeholder"]).
Proof.
  exact (hasClass_iff_word
           (addClass Samples.nameField placeholderClassName)
           placeholderClassName eq_refl).
Defined.

(** The tokens of a class attribute written back by [classList]. *)
Lemma occurrences_serialize_sum (c : ClassName) l :
  occurrences c (DOMTokenList.serialize l)
  = list_sum (map (occurrences c) l).
Proof.
  induction l as [|t l IH]; [apply occurrences_nil|].
  destruct l as [|t2 l]; [simpl; lia|].
  change (DOMTokenList.serialize (t :: t2 :: l))
    with (t +:+ " " +:+ DOMTokenList.serialize (t2 :: l)).
  rewrite append_cons, append_nil_l.
  rewrite (occurrences_app_space c t " " _) by done.
  rewrite IH. simpl. lia.
Qed.

Lemma sum_parse (c : ClassName) s :
  list_sum (map (occurrences c) (DOMTokenList.parse s)) <= occurrences c s.
Proof.
  pose proof (occurrences_splitFrom c s "") as Hs. rewrite append_nil_l in Hs.
  rewrite Hs. clear Hs. unfold DOMTokenList.parse. generalize (@nil string).
  induction (DOMTokenList.splitFrom "" s) as [|x l IH]; intros seen; [done|].
  simpl. destruct (DOMTokenList.member x seen).
  - specialize (IH seen). lia.
  - simpl. specialize (IH (x :: seen)). lia.
Qed.

(** With or without [classList], adding a class [c'] adds at most the
occurrences of a name in [c'] to those in the class attribute. *)
Lemma addClass_count (el : Element.t) (c c' : ClassName) :
  occurrences c (Element.className (addClass el c'))
  <= occurrences c (Element.className el) + occurrences c c'.
Proof.
  unfold addClass. destruct (Element.classList el) eqn:Ecl.
  - simpl. unfold DOMTokenList.add. cbv zeta.
    rewrite occurrences_serialize_sum.
    pose proof (sum_parse c (Element.className el)) as Hp.
    destruct (DOMTokenList.member c' _); [lia|].
    rewrite sum_app. simpl. lia.
  - destruct (hasClass el c'); simpl; [lia|].
    rewrite replaceAll_margin.
    pose proof (occurrences_trim c (Element.className el +:+ " " +:+ c')) as Ht.
    rewrite append_cons, append_nil_l in Ht.
    rewrite (occurrences_app_space c _ " " c') in Ht by done.
    by rewrite append_cons, append_nil_l.
Qed.

(** When the name of the class does not occur in the class attribute, it
occurs once after [addClass]. *)
Lemma addClass_once (el : Element.t) (c : ClassName) :
  occurrences c (Element.className el) = 0 ->
  occurrences c (Element.className (addClass el c)) = 1.
Proof.
  intros H0. pose proof (addClass_count el c c) as Hle.
  rewrite occurrences_className, H0 in Hle.
  pose proof (hasClass_occurrences _ _ (hasClass_addClass el c)). lia.
Qed.

(** *** Removing a class *)

(** When the name of the class occurs once in the class attribute of an
element that has the class, it does not occur after [removeClass]. *)
Lemma removeClass_none (el : Element.t) (c : ClassName) :
  hasClass el c = true ->
  occurrences c (Element.className el) = 1 ->
  occurrences c (Element.className (removeClass el c)) = 0.
Proof.
  intros Eh Hocc.
  assert (Hstep : forall s, occurrences c s = 0 ->
            occurrences c (replaceAll marginPattern ""
                             (replaceString c "" s)) = 0).
  { intros s Hs. rewrite (replaceString_none _ _ _ Hs), replaceAll_margin.
    pose proof (occurrences_trim c s). lia. }
  unfold removeClass, hasClass in *.
  destruct (Element.classList el) eqn:Ecl; simpl; apply Hstep.
  - unfold DOMTokenList.remove. apply occurrences_serialize.
    apply Forall_forall. intros t Ht.
    apply list_elem_of_filter in Ht as [Hne Ht].
    unfold DOMTokenList.parse in Ht. apply orderedSet_elem in Ht.
    unfold DOMTokenList.contains, DOMTokenList.parse in Eh.
    apply member_elem, orderedSet_elem in Eh.
    pose proof (occurrences_splitFrom c (Element.className el) "") as Hs.
    rewrite append_nil_l, Hocc in Hs.
    pose proof (sum_two (occurrences c) _ _ _ Eh Ht
                  (fun H => Hne (eq_sym H))) as H2.
    rewrite occurrences_className in H2. lia.
  - rewrite Eh. simpl. unfold replace, test in *.
    destruct (exec (classPattern c) true (Element.className el))
      as [[before rest]|] eqn:E; [|done].
    destruct (exec_split _ _ _ _ _ E) as (q & Hcn & Hq).
    destruct (matchAt_class c _ _ _ Hq) as (lead & trail & -> & Hlead & Htrail).
    assert (Jl : joint lead before (c +:+ trail +:+ rest)).
    { destruct Hlead as [[-> Hb]|?]; [left|by right].
      split; [done|left]. by destruct before. }
    assert (Jt : joint trail c rest).
    { destruct Htrail as [[-> ->]|?]; [left|by right].
      split; [done|by right]. }
    rewrite Hcn in Hocc.
    rewrite (occurrences_joint c _ _ _ Jl) in Hocc.
    rewrite (occurrences_joint c _ _ _ Jt) in Hocc.
    rewrite occurrences_className in Hocc.
    rewrite append_cons, append_nil_l.
    rewrite (occurrences_app_space c before " " rest) by done. lia.
Qed.

(** Without [classList], when the name of the class occurs once in the
class attribute of an element that has the class, [removeClass] filters
the class out of the words of the class attribute. *)
Lemma words_filtered (el : Element.t) (c : ClassName) :
  Element.classList el = false ->
  hasClass el c = true ->
  occurrences c (Element.className el) = 1 ->
  words (Element.className (removeClass el c))
  = filter (fun t => t <> text c) (words (Element.className el)).
Proof.
  intros Ecl Eh Hocc.
  destruct (removeClass_single el c Ecl Eh Hocc) as (_ & l1 & l2 & Hw & ->).
  pose proof (occurrences_words c (Element.className el)) as Hsum.
  rewrite Hocc, Hw, sum_app in Hsum. simpl in Hsum.
  rewrite occurrences_className in Hsum.
  rewrite Hw, filter_app, filter_cons_False by (by intros H; apply H).
  rewrite !filter_others; [done| |]; apply sum_zero; lia.
Qed.

(** X3.  Without [classList], when the name of the class occurs once in the
class attribute of an element that has the class, the words of the class
attribute after [removeClass] are the other words, in their order: the
class is not among them, and a word is among them exactly when it was a
word before and is not the class. *)
Theorem removeClass_words (el : Element.t) (c : ClassName) :
  Element.classList el = false ->
  hasClass el c = true ->
  occurrences c (Element.className el) = 1 ->
  words (Element.className (removeClass el c))
  = filter (fun t => t <> text c) (words (Element.className el))
  /\ hasClass (removeClass el c) c = false
  /\ forall t,
      t ∈ words (Element.className (removeClass el c))
      <-> t ∈ words (Element.className el) /\ t <> text c.
Proof.
  intros Ecl Eh Hocc. rewrite (words_filtered el c Ecl Eh Hocc).
  split; [done|]. split; [by apply removeClass_removes|].
  intros t. rewrite list_elem_of_filter. tauto.
Qed.

Lemma removeClass_words_witness :
  let el := addClass Samples.nameField placeholderClassName in
  words (Element.className (removeClass el placeholderClassName)) = ["big"]
  /\ hasClass (removeClass el placeholderClassName) placeholderClassName
     = false
  /\ forall t,
      t ∈ words (Element.className (removeClass el placeholderClassName))
      <-> t ∈ ["big"; "placeholder"] /\ t <> "placeholder".
Proof.
  exact (removeClass_words
           (addClass Samples.nameField placeholderClassName)
           placeholderClassName eq_refl eq_refl eq_refl).
Defined.

(** *** Adding, then removing *)

(** X4.  When the name of a class does not occur in the class attribute of an
element, adding the class and removing it again leaves the element without
the class, with or without [classList], and without [classList] the words
of the class attribute are those it had. *)
Theorem addClass_removeClass (el : Element.t) (c : ClassName) :
  occurrences c (Element.className el) = 0 ->
  hasClass (removeClass (addClass el c) c) c = false
  /\ (Element.classList el = false ->
      words (Element.className (removeClass (addClass el c) c))
      = words (Element.className el)).
Proof.
  intros H0. pose proof (addClass_once el c H0) as H1.
  pose proof (hasClass_addClass el c) as Eh.
  split; [by apply removeClass_removes|].
  intros Ecl.
  assert (Ecl' : Element.classList (addClass el c) = false).
  { by rewrite addClass_eq. }
  assert (E : hasClass el c = false).
  { destruct (hasClass el c) eqn:E; [|done].
    apply hasClass_occurrences in E. lia. }
  rewrite (words_filtered _ c Ecl' Eh H1), (words_appended el c Ecl E).
  rewrite filter_app, filter_cons_False, filter_nil, app_nil_r
    by (by intros H; apply H).
  apply filter_others, sum_zero. by rewrite <- occurrences_words.
Qed.

Lemma addClass_removeClass_witness :
  hasClass (removeClass (addClass Samples.nameField displayNone) displayNone)
    displayNone = false
  /\ (Element.classList Samples.nameField = false ->
      words (Element.className
               (removeClass (addClass Samples.nameField displayNone)
                  displayNone))
      = ["big"]).
Proof.
  exact (addClass_removeClass Samples.nameField displayNone eq_refl).
Defined.

(** *** White space at the ends *)

Lemma allSpace_trimRight s : allSpace (trimRight s) = allSpace s.
Proof.
  induction s as [|a s IH]; [done|]. cbn [trimRight allSpace].
  destruct (isWhiteSpace a && allSpace s) eqn:E; [done|].
  cbn [allSpace]. by rewrite IH.
Qed.

Lemma trimRight_idem s : trimRight (trimRight s) = trimRight s.
Proof.
  induction s as [|a s IH]; [done|]. cbn [trimRight].
  destruct (isWhiteSpace a && allSpace s) eqn:E; [done|].
  cbn [trimRight]. by rewrite allSpace_trimRight, E, IH.
Qed.

Lemma trimLeft_head s :
  trimLeft s = ""
  \/ exists a s', trimLeft s = String a s' /\ isWhiteSpace a = false.
Proof.
  induction s as [|a s IH]; [by left|]. cbn [trimLeft].
  destruct (isWhiteSpace a) eqn:E; [done|]. right. by exists a, s.
Qed.

(** What the pattern [/^\s+|\s+$/g] leaves has no white space at either
end. *)
Lemma margin_trimmed s : trimmed (replaceAll marginPattern "" s).
Proof.
  rewrite replaceAll_margin. split; [|apply trimRight_idem].
  destruct (trimLeft_head s) as [->|(a & s' & -> & Ha)]; [done|].
  cbn [trimRight]. rewrite Ha. cbn [andb trimLeft]. by rewrite Ha.
Qed.

(** X5.  With or without [classList], whether the element has the class or not:
the class attribute that [removeClass] leaves has no white space at either
end, and the pattern [/^\s+|\s+$/g] finds nothing more to remove in it. *)
Theorem removeClass_trimmed (el : Element.t) (c : ClassName) :
  trimmed (Element.className (removeClass el c))
  /\ replaceAll marginPattern "" (Element.className (removeClass el c))
     = Element.className (removeClass el c).
Proof.
  assert (H : trimmed (Element.className (removeClass el c))).
  { unfold removeClass. simpl. apply margin_trimmed. }
  split; [exact H|]. destruct H as [Hl Hr].
  by rewrite replaceAll_margin, Hl, Hr.
Qed.

End Words.

(** ** Collecting the elements with placeholders *)

Module Collecting.
Import JsString ClassNames Page Polyfill Events Vocabulary Notions Run Shim.
Import Submission.

Lemma collected_idem el : collected (collected el) = collected el.
Proof.
  unfold collected. destruct el as [? ? ? ? a p ? ? ? ? ? ? ?]. simpl.
  destruct (truthyText p) eqn:E; simpl; [by rewrite E|].
  by destruct (truthyText a).
Qed.

Lemma hasPlaceholder_collected el :
  hasPlaceholder (collected el) = hasPlaceholder el.
Proof.
  unfold hasPlaceholder, collected.
  destruct el as [? ? ? ? a p ? ? ? ? ? ? ?]. simpl.
  destruct (truthyText p) eqn:E; simpl; [by rewrite E|].
  by destruct (truthyText a).
Qed.

(** The property of a collected element holds a text that is not empty. *)
Lemma placeholder_collected el :
  hasPlaceholder el = true ->
  exists p, Element.placeholder (collected el) = Some p /\ truthy p = true.
Proof.
  unfold hasPlaceholder, collected.
  destruct el as [? ? ? ? a p ? ? ? ? ? ? ?]. simpl.
  destruct (truthyText p) eqn:E; simpl.
  - intros _. destruct p as [p|]; [|done]. by exists p.
  - intros Ha. destruct a as [a|]; [|done]. by exists a.
Qed.

Lemma placeholderAt_insert w e el x :
  elements w !! e = Some el ->
  placeholderAt (set_elements (<[e := collected el]> (elements w)) w) x
  = placeholderAt w x.
Proof.
  intros Hel. unfold placeholderAt. cbn [elements set_elements].
  destruct (decide (x = e)) as [->|Hne].
  - rewrite list_lookup_insert_eq by by eapply lookup_lt_Some.
    by rewrite Hel, hasPlaceholder_collected.
  - by rewrite list_lookup_insert_ne.
Qed.

(** The loop of [getElementsWithPlaceholders], run on references that
name elements of the page. *)
Lemma collectPlaceholders_run l : forall w,
  Forall (onPage w) l ->
  collectPlaceholders l w
  = mkResult [] (Some (List.filter (placeholderAt w) l))
      (set_elements
         (applyAll collected (List.filter (placeholderAt w) l) (elements w))
         w).
Proof.
  induction l as [|e l IH]; intros w Hl.
  - cbn [List.filter applyAll]. by rewrite set_elements_same.
  - apply Forall_cons in Hl as [He Hl].
    destruct (lookup_lt_is_Some_2 _ _ He) as [el Hel].
    cbn [collectPlaceholders List.filter].
    erewrite bind_run by by apply getElement_run.
    assert (Hat : placeholderAt w e = hasPlaceholder el).
    { unfold placeholderAt. by rewrite Hel. }
    rewrite Hat.
    change (truthyText (Element.placeholder el)
            || truthyText (Element.placeholderAttribute el))
      with (hasPlaceholder el).
    destruct (hasPlaceholder el) eqn:Ep; [|by apply IH].
    erewrite bind_run by by apply onElement_run.
    fold (collected el).
    erewrite bind_run.
    2:{ apply IH. unfold onPage in *. cbn [elements set_elements].
        by rewrite length_insert. }
    unfold ret. cbn [elements set_elements applyAll]. rewrite Hel.
    rewrite (List.filter_ext _ (placeholderAt w)); [done|].
    intros x. by apply placeholderAt_insert.
Qed.

(** X6.  When every input of the page is in the store,
[getElementsWithPlaceholders] does not throw and logs nothing; it returns,
in document order, exactly the inputs that have a placeholder as a property
or as an attribute; it sets the [placeholder] property of those and leaves
every other element, the forms and the focus as they are. *)
Theorem getElementsWithPlaceholders_finds (w : World) :
  Forall (onPage w) (inputs w) ->
  let found := List.filter (placeholderAt w) (inputs w) in
  exists w',
    getElementsWithPlaceholders w = mkResult [] (Some found) w'
    /\ forms w' = forms w /\ inputs w' = inputs w
    /\ activeElement w' = activeElement w
    /\ forall e el,
        elements w !! e = Some el ->
        elements w' !! e
        = Some (if bool_decide (e ∈ found) then collected el else el).
Proof.
  intros Hl found.
  exists (set_elements (applyAll collected found (elements w)) w).
  split; [|repeat split].
  - unfold getElementsWithPlaceholders.
    erewrite bind_run by reflexivity. by apply collectPlaceholders_run.
  - intros e el Hel. cbn [elements set_elements].
    rewrite (lookup_applyAll _ _ collected_idem), Hel.
    by destruct (bool_decide (e ∈ found)).
Qed.

Lemma getElementsWithPlaceholders_finds_witness :
  exists w',
    getElementsWithPlaceholders Samples.loginPage
    = mkResult [] (Some [0; 1]) w'
    /\ forms w' = forms Samples.loginPage
    /\ inputs w' = inputs Samples.loginPage
    /\ activeElement w' = activeElement Samples.loginPage
    /\ forall e el,
        elements Samples.loginPage !! e = Some el ->
        elements w' !! e
        = Some (if bool_decide (e ∈ [0; 1]) then collected el else el).
Proof.
  apply (getElementsWithPlaceholders_finds Samples.loginPage).
  repeat constructor.
Defined.

(** X7.  A second call of [getElementsWithPlaceholders] returns the same
elements and changes nothing more; and every element it returns has a
[placeholder] property whose text is not empty. *)
Theorem getElementsWithPlaceholders_again (w : World) :
  Forall (onPage w) (inputs w) ->
  let r := getElementsWithPlaceholders w in
  getElementsWithPlaceholders (world r) = r
  /\ forall found e,
      outcome r = Some found -> e ∈ found ->
      exists el p,
        elements (world r) !! e = Some el
        /\ Element.placeholder el = Some p /\ truthy p = true.
Proof.
  intros Hl r.
  assert (Hr : r = mkResult [] (Some (List.filter (placeholderAt w) (inputs w)))
                 (set_elements
                    (applyAll collected
                       (List.filter (placeholderAt w) (inputs w))
                       (elements w)) w)).
  { unfold r, getElementsWithPlaceholders.
    erewrite bind_run by reflexivity. by apply collectPlaceholders_run. }
  set (found := List.filter (placeholderAt w) (inputs w)) in *.
  set (w1 := set_elements (applyAll collected found (elements w)) w) in *.
  assert (Hsame : forall e, placeholderAt w1 e = placeholderAt w e).
  { intros e. unfold placeholderAt, w1. cbn [elements set_elements].
    rewrite (lookup_applyAll _ _ collected_idem).
    destruct (elements w !! e) as [el|]; [|done]. simpl.
    destruct (bool_decide (e ∈ found)); [|done].
    apply hasPlaceholder_collected. }
  split.
  - rewrite Hr. cbn [world]. unfold getElementsWithPlaceholders.
    erewrite bind_run by reflexivity.
    rewrite collectPlaceholders_run.
    2:{ unfold w1, onPage in *. cbn [elements set_elements inputs].
        by rewrite length_applyAll. }
    change (inputs w1) with (inputs w).
    rewrite (List.filter_ext _ (placeholderAt w) Hsame). fold found.
    f_equal. unfold w1. cbn [elements set_elements]. unfold set_elements.
    cbn [forms inputs activeElement placeholderSupported classListSupported].
    f_equal. apply list_eq. intros e.
    rewrite !(lookup_applyAll _ _ collected_idem).
    destruct (elements w !! e) as [el|]; [|done]. simpl.
    destruct (bool_decide (e ∈ found)); [|done]. by rewrite collected_idem.
  - intros found' e. rewrite Hr. cbn [outcome world]. intros [= <-] He.
    assert (Hat : placeholderAt w e = true).
    { apply list_elem_of_In, List.filter_In in He. tauto. }
    unfold placeholderAt in Hat.
    destruct (elements w !! e) as [el|] eqn:Hel; [|done].
    destruct (placeholder_collected el Hat) as (p & Hp & Ht).
    exists (collected el), p. split; [|done].
    unfold w1. cbn [elements set_elements].
    rewrite (lookup_applyAll _ _ collected_idem), Hel. simpl.
    by rewrite bool_decide_eq_true_2.
Qed.

Lemma getElementsWithPlaceholders_again_witness :
  let r := getElementsWithPlaceholders Samples.loginPage in
  getElementsWithPlaceholders (world r) = r
  /\ forall found e,
      outcome r = Some found -> e ∈ found ->
      exists el p,
        elements (world r) !! e = Some el
        /\ Element.placeholder el = Some p /\ truthy p = true.
Proof.
  apply (getElementsWithPlaceholders_again Samples.loginPage).
  repeat constructor.
Defined.

End Collecting.

(** ** The constructor, element by element *)

Module Construction.
Import JsString ClassNames Page Polyfill Events Vocabulary Notions Run Shim.
Import Submission Framing Invariant Collecting.

Lemma world_bind {A B} (m : M A) (k : A -> M B) w :
  world (bind m k w)
  = match outcome (m w) with
    | Some a => world (k a (world (m w)))
    | None => world (m w)
    end.
Proof. unfold bind. by destruct (outcome (m w)). Qed.

Lemma outcome_bind {A B} (m : M A) (k : A -> M B) w :
  outcome (bind m k w)
  = match outcome (m w) with
    | Some a => outcome (k a (world (m w)))
    | None => None
    end.
Proof. unfold bind. by destruct (outcome (m w)). Qed.

(** One round of the loop adds elements at the end of the store, if any,
and leaves the browser as it is. *)
Lemma polyfillEither_length x w :
  List.length (elements w)
  <= List.length (elements (world (polyfillEither x w)))
  /\ classListSupported (world (polyfillEither x w)) = classListSupported w.
Proof.
  unfold polyfillEither. destruct (elements w !! x) as [elx|] eqn:Hx.
  - erewrite bind_run by by apply getElement_run.
    destruct (String.eqb (Element.type elx) "password") eqn:Et.
    + apply String.eqb_eq in Et.
      rewrite (polyfillPassword_run w x elx Hx Et).
      cbn [world elements set_inputs set_elements classListSupported].
      rewrite length_app, length_insert. split; [lia|done].
    + destruct (formOf w elx) as [[r fm]|] eqn:Hf.
      * rewrite (polyfill_run w x elx r fm Hx Hf).
        cbn [world elements set_forms set_elements classListSupported].
        by rewrite length_insert.
      * rewrite (polyfill_throw w x elx Hx Hf).
        cbn [world elements set_elements classListSupported].
        by rewrite length_insert.
  - erewrite bind_throw by by apply getElement_fail. done.
Qed.

(** One round of the loop leaves the other elements as they are. *)
Lemma polyfillEither_other x w e :
  x <> e -> onPage w e ->
  elements (world (polyfillEither x w)) !! e = elements w !! e.
Proof.
  intros Hne He. unfold polyfillEither, onPage in *.
  destruct (elements w !! x) as [elx|] eqn:Hx.
  - erewrite bind_run by by apply getElement_run.
    destruct (String.eqb (Element.type elx) "password") eqn:Et.
    + apply String.eqb_eq in Et.
      rewrite (polyfillPassword_run w x elx Hx Et).
      cbn [world elements set_inputs set_elements].
      rewrite lookup_app_l by by rewrite length_insert.
      by rewrite list_lookup_insert_ne.
    + rewrite (polyfill_elements w x elx Hx).
      by rewrite list_lookup_insert_ne.
  - erewrite bind_throw by by apply getElement_fail. done.
Qed.

(** The loop leaves the elements it does not go through as they are. *)
Lemma forEach_other l : forall w e,
  e ∉ l -> onPage w e ->
  elements (world (forEach l polyfillEither w)) !! e = elements w !! e.
Proof.
  induction l as [|x l IH]; intros w e Hin He; [done|].
  apply not_elem_of_cons in Hin as [Hne Hin].
  cbn [forEach]. rewrite world_bind.
  destruct (outcome (polyfillEither x w)) as [[]|].
  - rewrite IH; [by apply polyfillEither_other| done |].
    unfold onPage in *. pose proof (polyfillEither_length x w). lia.
  - by apply polyfillEither_other.
Qed.

(** Collecting leaves an element without placeholder as it is, and does
not return it. *)
Lemma collectPlaceholders_other l : forall w e el,
  elements w !! e = Some el -> hasPlaceholder el = false ->
  elements (world (collectPlaceholders l w)) !! e = Some el
  /\ forall found,
      outcome (collectPlaceholders l w) = Some found -> e ∉ found.
Proof.
  induction l as [|x l IH]; intros w e el Hel Hp.
  - split; [done|]. intros found [= <-]. apply not_elem_of_nil.
  - cbn [collectPlaceholders].
    destruct (elements w !! x) as [elx|] eqn:Hx.
    2:{ erewrite bind_throw by by apply getElement_fail. done. }
    erewrite bind_run by by apply getElement_run.
    change (truthyText (Element.placeholder elx)
            || truthyText (Element.placeholderAttribute elx))
      with (hasPlaceholder elx).
    destruct (hasPlaceholder elx) eqn:Epx; [|by apply IH].
    assert (Hne : x <> e) by congruence.
    erewrite bind_run by by apply onElement_run.
    edestruct (IH (set_elements
                     (<[x := collected elx]> (elements w)) w) e el)
      as [Hw Hf]; [|done|].
    { cbn [elements set_elements]. by rewrite list_lookup_insert_ne. }
    fold (collected elx). rewrite world_bind, outcome_bind.
    destruct (outcome (collectPlaceholders l _)) as [found|] eqn:Eo.
    + split; [done|]. intros found' [= <-].
      apply not_elem_of_cons. split; [done|]. by apply Hf.
    + done.
Qed.

(** The constructor in a browser without placeholders: collecting, then
the loop. *)
Lemma constructor_eq w :
  placeholderSupported w = false ->
  placeholderPolyfill w
  = bind (collectPlaceholders (inputs w))
      (fun found => forEach found polyfillEither) w.
Proof.
  intros Hs. unfold placeholderPolyfill.
  rewrite (bind_run placeholderIsSupported _ w (placeholderSupported w) w
             eq_refl), Hs.
  cbn [negb]. unfold getElementsWithPlaceholders.
  rewrite bind_assoc. by rewrite (bind_run get _ w w w eq_refl).
Qed.

(** X8.  The constructor leaves every element that has no placeholder exactly
as it is, whether it returns or throws: no value, class or handler of such
an element changes. *)
Theorem constructor_skips_plain_inputs (w : World) e el :
  elements w !! e = Some el ->
  hasPlaceholder el = false ->
  elements (world (placeholderPolyfill w)) !! e = Some el.
Proof.
  intros Hel Hp. destruct (placeholderSupported w) eqn:Hs.
  { unfold placeholderPolyfill.
    by rewrite (bind_run placeholderIsSupported _ w (placeholderSupported w)
                  w eq_refl), Hs. }
  rewrite (constructor_eq w Hs), world_bind.
  destruct (collectPlaceholders_other (inputs w) w e el Hel Hp) as [Hw Hf].
  destruct (outcome (collectPlaceholders (inputs w) w)) as [found|];
    [|done].
  rewrite forEach_other; [done|by apply Hf|].
  by eapply lookup_lt_Some.
Qed.

Lemma constructor_skips_plain_inputs_witness :
  elements (world (placeholderPolyfill Pages.signupPage)) !! 1
  = Some Pages.cityField.
Proof.
  by apply (constructor_skips_plain_inputs Pages.signupPage 1 Pages.cityField).
Defined.

(** *** An input outside any form *)



(** *** When the constructor returns *)

Lemma forEach_length l : forall w,
  List.length (elements w)
  <= List.length (elements (world (forEach l polyfillEither w)))
  /\ classListSupported (world (forEach l polyfillEither w))
     = classListSupported w.
Proof.
  induction l as [|x l IH]; intros w; [done|].
  cbn [forEach]. rewrite world_bind.
  destruct (polyfillEither_length x w) as [Hlen Hcl].
  destruct (outcome (polyfillEither x w)) as [[]|]; [|done].
  destruct (IH (world (polyfillEither x w))) as [Hlen' Hcl'].
  split; [lia|congruence].
Qed.

(** A loop that returns, over references without repetition: the round of
an element finds the element as it was before the loop, and the rounds
after it are for other elements. *)
Lemma forEach_split l : forall w e,
  NoDup l -> e ∈ l -> Forall (onPage w) l ->
  outcome (forEach l polyfillEither w) = Some tt ->
  exists w1 l2,
    elements w1 !! e = elements w !! e
    /\ List.length (elements w) <= List.length (elements w1)
    /\ classListSupported w1 = classListSupported w
    /\ outcome (polyfillEither e w1) = Some tt
    /\ world (forEach l polyfillEither w)
       = world (forEach l2 polyfillEither (world (polyfillEither e w1)))
    /\ (e ∉ l2) /\ (forall y, y ∈ l2 -> y ∈ l).
Proof.
  induction l as [|x l IH]; intros w e Hnd Hin Hl Hout;
    [by apply elem_of_nil in Hin|].
  apply NoDup_cons in Hnd as [Hx Hnd].
  apply Forall_cons in Hl as [Hxp Hl].
  cbn [forEach] in *. rewrite outcome_bind in Hout. rewrite world_bind.
  destruct (outcome (polyfillEither x w)) as [[]|] eqn:Ex; [|done].
  destruct (decide (x = e)) as [->|Hne].
  - exists w, l. rewrite Ex. repeat split; try done.
    intros y Hy. by right.
  - apply elem_of_cons in Hin as [->|Hin]; [done|].
    destruct (polyfillEither_length x w) as [Hlen Hcl].
    destruct (IH (world (polyfillEither x w)) e Hnd Hin) as
      (w1 & l2 & H1 & H2 & H3 & H4 & H5 & H6 & H7); [|done|].
    { eapply Forall_impl; [exact Hl|]. unfold onPage. intros y Hy. lia. }
    exists w1, l2. repeat split; try done.
    + rewrite H1. apply polyfillEither_other; [done|].
      by apply (proj1 (Forall_forall _ _) Hl).
    + lia.
    + congruence.
    + intros y Hy. right. by apply H7.
Qed.

(** What the constructor has at the start of its loop. *)
Lemma constructor_loop (w : World) :
  placeholderSupported w = false ->
  Forall (onPage w) (inputs w) ->
  let found := List.filter (placeholderAt w) (inputs w) in
  let w1 := set_elements (applyAll collected found (elements w)) w in
  placeholderPolyfill w = forEach found polyfillEither w1
  /\ (NoDup (inputs w) -> NoDup found)
  /\ Forall (onPage w1) found
  /\ forall e el,
      e ∈ inputs w -> elements w !! e = Some el -> hasPlaceholder el = true ->
      e ∈ found /\ elements w1 !! e = Some (collected el).
Proof.
  intros Hs Hl found w1. split; [|split; [|split]].
  - rewrite (constructor_eq w Hs).
    by rewrite (bind_run _ _ _ _ _ (collectPlaceholders_run _ w Hl)).
  - intros Hnd. by apply NoDup_ListNoDup, List.NoDup_filter, NoDup_ListNoDup.
  - apply Forall_forall. intros x Hx.
    apply list_elem_of_In, List.filter_In in Hx as [Hx _].
    apply list_elem_of_In in Hx.
    pose proof (proj1 (Forall_forall _ _) Hl x Hx) as Hp.
    unfold onPage, w1 in *. cbn [elements set_elements].
    by rewrite length_applyAll.
  - intros e el Hin Hel Hp.
    assert (Hin' : e ∈ found).
    { apply list_elem_of_In, List.filter_In.
      split; [by apply list_elem_of_In|].
      unfold placeholderAt. by rewrite Hel. }
    split; [done|]. unfold w1. cbn [elements set_elements].
    rewrite (lookup_applyAll _ _ collected_idem), Hel. simpl.
    by rewrite bool_decide_eq_true_2.
Qed.

(** When the constructor returns, on a page whose collection of inputs
names each input once, an input with a placeholder that is not a password
field is as [polyfill] leaves the collected element. *)
Lemma constructor_wires_exactly (w : World) e el :
  placeholderSupported w = false ->
  NoDup (inputs w) ->
  Forall (onPage w) (inputs w) ->
  outcome (placeholderPolyfill w) = Some tt ->
  e ∈ inputs w ->
  elements w !! e = Some el ->
  hasPlaceholder el = true ->
  Element.type el <> "password" ->
  elements (world (placeholderPolyfill w)) !! e
  = Some (wired (collected el)).
Proof.
  intros Hs Hnd Hl Hout Hin Hel Hp Ht.
  destruct (constructor_loop w Hs Hl) as (Heq & Hnd' & Hl' & Hfound).
  destruct (Hfound e el Hin Hel Hp) as [Hin' Hel1].
  rewrite Heq in *.
  destruct (forEach_split _ _ e (Hnd' Hnd) Hin' Hl' Hout)
    as (w2 & l2 & H1 & H2 & _ & _ & -> & H6 & _).
  rewrite Hel1 in H1.
  assert (Hbody : elements (world (polyfillEither e w2)) !! e
                  = Some (wired (collected el))).
  { unfold polyfillEither. erewrite bind_run by by apply getElement_run.
    destruct (String.eqb (Element.type (collected el)) "password") eqn:Et.
    { by apply String.eqb_eq in Et. }
    rewrite (polyfill_elements w2 e _ H1).
    apply list_lookup_insert_eq. by eapply lookup_lt_Some. }
  rewrite forEach_other; [done|done|]. by eapply lookup_lt_Some.
Qed.


Lemma NoDup_three : NoDup [0; 1; 2].
Proof.
  apply NoDup_ListNoDup. repeat constructor; simpl; intuition lia.
Defined.



End Construction.

(** ** Showing and hiding a password field *)

Module Toggle.
Import JsString RegExp ClassNames Page Polyfill Events Vocabulary Notions.
Import Run Patterns Classes Shim Removal Words.
Import Invariant Collecting Construction.

Lemma free_not_hidden el :
  freeOfClass el -> hasClass el displayNone = false.
Proof.
  unfold freeOfClass. intros H0.
  destruct (hasClass el displayNone) eqn:E; [|done].
  apply hasClass_occurrences in E. lia.
Qed.

(** Adding a class to an element that has it adds no occurrence of its
name. *)
Lemma addClass_again (el : Element.t) (c : ClassName) :
  hasClass el c = true ->
  occurrences c (Element.className (addClass el c))
  <= occurrences c (Element.className el).
Proof.
  intros Eh. destruct (Element.classList el) eqn:Ecl.
  - unfold addClass, hasClass in *. rewrite Ecl in *. simpl.
    unfold DOMTokenList.add, DOMTokenList.contains in *. cbv zeta.
    rewrite Eh, occurrences_serialize_sum. apply sum_parse.
  - by rewrite (addClass_present el c Ecl Eh).
Qed.

Lemma sum_filter (f : string -> nat) (P : string -> Prop)
      `{forall t, Decision (P t)} l :
  list_sum (map f (filter P l)) <= list_sum (map f l).
Proof.
  induction l as [|x l IH]; [done|].
  destruct (decide (P x)).
  - rewrite filter_cons_True by done. simpl. lia.
  - rewrite filter_cons_False by done. simpl. lia.
Qed.

(** Removing a class whose name does not occur leaves it that way. *)
Lemma removeClass_absent (el : Element.t) (c : ClassName) :
  occurrences c (Element.className el) = 0 ->
  occurrences c (Element.className (removeClass el c)) = 0.
Proof.
  intros H0.
  assert (Hstep : forall s, occurrences c s = 0 ->
            occurrences c (replaceAll marginPattern ""
                             (replaceString c "" s)) = 0).
  { intros s Hs. rewrite (replaceString_none _ _ _ Hs), replaceAll_margin.
    pose proof (occurrences_trim c s). lia. }
  assert (Eh : hasClass el c = false).
  { destruct (hasClass el c) eqn:E; [|done].
    apply hasClass_occurrences in E. lia. }
  unfold removeClass. destruct (Element.classList el) eqn:Ecl; simpl.
  - apply Hstep. unfold DOMTokenList.remove.
    rewrite occurrences_serialize_sum.
    pose proof (sum_filter (occurrences c) (fun t => t <> text c)
                  (DOMTokenList.parse (Element.className el))).
    pose proof (sum_parse c (Element.className el)). lia.
  - rewrite Eh. by apply Hstep.
Qed.

(** Hiding: after [addClass(element, 'displayNone')] the element is hidden
by the class. *)
Lemma hide_hides el :
  freeOfClass el \/ hiddenByClass el ->
  hiddenByClass (addClass el displayNone).
Proof.
  intros [Hf|[Hh H1]]; split; try apply hasClass_addClass.
  - by apply addClass_once.
  - pose proof (addClass_again el displayNone Hh).
    pose proof (hasClass_occurrences _ _ (hasClass_addClass el displayNone)).
    lia.
Qed.

(** Showing: after [removeClass(element, 'displayNone')] the name of the
class is gone. *)
Lemma show_shows el :
  freeOfClass el \/ hiddenByClass el ->
  freeOfClass (removeClass el displayNone).
Proof.
  intros [Hf|[Hh H1]].
  - by apply removeClass_absent.
  - by apply removeClass_none.
Qed.

Lemma value_addClass el c :
  Element.value (addClass el c) = Element.value el.
Proof. by rewrite addClass_eq. Qed.

Lemma value_removeClass el c :
  Element.value (removeClass el c) = Element.value el.
Proof. by rewrite removeClass_eq. Qed.

(** What [onClickPassword] does to the page. *)
Lemma onClickPassword_run w p d pw dc :
  p <> d ->
  elements w !! p = Some pw -> elements w !! d = Some dc ->
  onClickPassword p d w
  = mkResult [] (Some tt)
      (set_activeElement (Some p)
         (set_elements
            (<[p := removeClass pw displayNone]>
               (<[d := addClass dc displayNone]> (elements w))) w)).
Proof.
  intros Hne Hp Hd. unfold onClickPassword.
  erewrite bind_run by by apply onElement_run.
  erewrite bind_run.
  2:{ apply onElement_run. cbn [elements set_elements].
      rewrite list_lookup_insert_ne by done. exact Hp. }
  unfold focus. erewrite bind_run.
  2:{ apply getElement_run. cbn [elements set_elements].
      apply list_lookup_insert_eq. rewrite length_insert.
      by eapply lookup_lt_Some. }
  done.
Qed.


(** X11.  [onClickPassword] on a password field and its decoy, each of them
hidden by the class [displayNone] or free of its name: the call returns,
the decoy is hidden, the password field is not, the password field has the
focus, and no value and no other element changes.  [onFocusPassword] is
the same function. *)
Theorem onClickPassword_shows_password w p d pw dc :
  p <> d ->
  elements w !! p = Some pw -> elements w !! d = Some dc ->
  freeOfClass pw \/ hiddenByClass pw ->
  freeOfClass dc \/ hiddenByClass dc ->
  exists w' pw' dc',
    onClickPassword p d w = mkResult [] (Some tt) w'
    /\ onFocusPassword p d w = mkResult [] (Some tt) w'
    /\ activeElement w' = Some p /\ forms w' = forms w
    /\ elements w' !! p = Some pw' /\ elements w' !! d = Some dc'
    /\ freeOfClass pw' /\ hasClass pw' displayNone = false
    /\ hiddenByClass dc'
    /\ Element.value pw' = Element.value pw
    /\ Element.value dc' = Element.value dc
    /\ forall x, x <> p -> x <> d -> elements w' !! x = elements w !! x.
Proof.
  intros Hne Hp Hd Tp Td.
  exists (set_activeElement (Some p)
            (set_elements
               (<[p := removeClass pw displayNone]>
                  (<[d := addClass dc displayNone]> (elements w))) w)),
    (removeClass pw displayNone), (addClass dc displayNone).
  pose proof (onClickPassword_run w p d pw dc Hne Hp Hd) as Hrun.
  split; [exact Hrun|]. split; [exact Hrun|].
  cbn [activeElement forms elements set_activeElement set_elements].
  repeat split.
  - apply list_lookup_insert_eq. rewrite length_insert.
    by eapply lookup_lt_Some.
  - rewrite list_lookup_insert_ne by done.
    apply list_lookup_insert_eq. by eapply lookup_lt_Some.
  - by apply show_shows.
  - by apply free_not_hidden, show_shows.
  - by apply hide_hides.
  - by apply hide_hides.
  - apply value_removeClass.
  - apply value_addClass.
  - intros x Hxp Hxd. by rewrite !list_lookup_insert_ne.
Qed.

Lemma onClickPassword_shows_password_witness :
  exists w' pw' dc',
    onClickPassword 1 2 Samples.wiredPage = mkResult [] (Some tt) w'
    /\ onFocusPassword 1 2 Samples.wiredPage = mkResult [] (Some tt) w'
    /\ activeElement w' = Some 1 /\ forms w' = forms Samples.wiredPage
    /\ elements w' !! 1 = Some pw' /\ elements w' !! 2 = Some dc'
    /\ freeOfClass pw' /\ hasClass pw' displayNone = false
    /\ hiddenByClass dc'
    /\ Element.value pw'
       = Element.value (hiddenPassword 1 2 (collected Samples.passwordField))
    /\ Element.value dc'
       = Element.value
           (decoyOf Samples.loginPage 1 2 (collected Samples.passwordField))
    /\ forall x, x <> 1 -> x <> 2 ->
         elements w' !! x = elements Samples.wiredPage !! x.
Proof.
  apply (onClickPassword_shows_password Samples.wiredPage 1 2
           (hiddenPassword 1 2 (collected Samples.passwordField))
           (decoyOf Samples.loginPage 1 2 (collected Samples.passwordField))).
  - lia.
  - reflexivity.
  - reflexivity.
  - right. split; reflexivity.
  - left. reflexivity.
Defined.






(** *** The pair on the page *)







End Toggle.

(** ** What a polyfilled field shows and sends *)

Module Typing.
Import JsString RegExp ClassNames Page Polyfill Events Vocabulary Notions.
Import Run Classes Shim Framing Behaviour Invariant Removal Words.
Import Collecting Construction.

(** The element [polyfill] leaves, for an element whose class attribute
does not have the name of the marker class. *)
Lemma wired_facts el :
  hasClass (wired el) placeholderClassName = true
  /\ Element.value (wired el) = placeholderText el
  /\ Element.onfocus (wired el) = Some PolyfillOnFocus
  /\ Element.onblur (wired el) = Some PolyfillOnBlur
  /\ Element.form (wired el) = Element.form el
  /\ (occurrences placeholderClassName (Element.className el) = 0 ->
      occurrences placeholderClassName (Element.className (wired el)) = 1).
Proof.
  destruct (handlers_wired el) as (_ & Hf & Hb).
  split; [apply hasClass_wired|]. split; [apply value_activatePlaceholder|].
  split; [exact Hf|]. split; [exact Hb|]. split; [apply form_wired|].
  intros H0. unfold wired, activatePlaceholder, disableTextSelection.
  cbv zeta.
  cbn [Element.className Element.set_onblur Element.set_onfocus
         Element.set_onclick Element.set_onmousedown
         Element.set_onselectstart].
  by apply addClass_once.
Qed.




Lemma hasClass_set_value el v c :
  hasClass (Element.set_value v el) c = hasClass el c.
Proof. reflexivity. Qed.

(** A field that lost the marker class keeps a text typed into it when it
loses the focus. *)
Lemma typed_stays el txt :
  txt <> "" ->
  onBlur (Element.set_value txt (onFocus el))
  = Element.set_value txt (onFocus el).
Proof.
  intros Htxt. unfold onBlur. cbn [Element.value Element.set_value].
  destruct (String.eqb txt "") eqn:E; [|done]. by apply String.eqb_eq in E.
Qed.

(** X17.  On a page without other scripts, when the constructor returns: after
the user focuses a polyfilled field whose class attribute did not have the
name [placeholder], types a text that is not empty and leaves the field,
the field holds that text without the marker class, and a submission of
its form sends that text, also when it is the placeholder text itself. *)
Theorem typed_text_is_sent foreign (w : World) e el r txt :
  scriptFree w ->
  placeholderSupported w = false ->
  NoDup (inputs w) ->
  Forall (onPage w) (inputs w) ->
  outcome (placeholderPolyfill w) = Some tt ->
  e ∈ inputs w ->
  elements w !! e = Some el ->
  hasPlaceholder el = true ->
  Element.type el <> "password" ->
  Element.form el = Some r ->
  occurrences placeholderClassName (Element.className el) = 0 ->
  txt <> "" ->
  let w' :=
    world (run foreign [Focus e; Input e txt; Blur e]
             (world (placeholderPolyfill w))) in
  exists kept es data w'',
    elements w' !! e = Some kept
    /\ Element.value kept = txt
    /\ hasClass kept placeholderClassName = false
    /\ dispatch foreign (SubmitEvent r) w'
       = mkResult
           (map Invoke (map BeforeOnSubmitOf es)
            ++ [Submit r data]
            ++ map Invoke (map AfterOnSubmitOf es))
           (Some tt) w''
    /\ exists sent, data !! e = Some sent /\ Element.value sent = txt.
Proof.
  intros Hsf Hs Hnd Hl Hout Hin Hel Hp Ht Hform H0 Htxt w'.
  pose proof (constructor_wires_exactly w e el Hs Hnd Hl Hout Hin Hel Hp Ht)
    as Hel1.
  pose proof (placeholderPolyfill_Wired w (scriptFree_Wired w Hsf)) as HW.
  destruct (wired_facts (collected el)) as (Hh & _ & Hf & Hb & Hfm & Hocc).
  specialize (Hocc H0).
  set (el1 := wired (collected el)) in *.
  set (w0 := world (placeholderPolyfill w)) in *.
  destruct (focus_removes_marker el1 Hh Hocc) as (Hgone & _).
  destruct (hard_inv _ _ (hard_onFocus el1)) as (_ & _ & Hf2 & Hb2 & Hfm2).
  set (el2 := Element.set_value txt (onFocus el1)).
  (* the three events *)
  set (wa := world (dispatch foreign (Focus e) w0)).
  pose proof (dispatch_focus foreign w0 e el1 Hel1 Hf) as Ha. fold wa in Ha.
  assert (Hela : elements wa !! e = Some (onFocus el1)).
  { rewrite Ha. apply list_lookup_insert_eq. by eapply lookup_lt_Some. }
  set (wb := world (dispatch foreign (Input e txt) wa)).
  assert (Helb : elements wb !! e = Some el2).
  { unfold wb. cbn [dispatch]. rewrite (onElement_run wa e _ _ Hela).
    cbn [world elements set_elements].
    apply list_lookup_insert_eq. by eapply lookup_lt_Some. }
  set (wc := world (dispatch foreign (Blur e) wb)).
  assert (Helc : elements wc !! e = Some el2).
  { unfold wc. rewrite (dispatch_blur foreign wb e el2 Helb).
    - replace (onBlur el2) with el2 by (symmetry; by apply typed_stays).
      apply list_lookup_insert_eq. by eapply lookup_lt_Some.
    - unfold el2. cbn [Element.onblur Element.set_value]. congruence. }
  assert (Hw' : w' = wc) by reflexivity.
  destruct (run_soft foreign [Focus e; Input e txt; Blur e] w0 HW)
    as [_ HWc].
  fold w' in HWc. rewrite Hw' in *.
  destruct (wired_submission foreign wc e el2 r HWc Helc)
    as (es & data & w'' & _ & Hd & Hdata).
  { unfold el2. cbn [Element.onfocus Element.set_value]. congruence. }
  { unfold el2. cbn [Element.form Element.set_value].
    rewrite Hfm2, Hfm. exact Hform. }
  assert (Hno : hasClass el2 placeholderClassName = false).
  { unfold el2. by rewrite hasClass_set_value. }
  exists el2, es, data, w''.
  split; [done|]. split; [done|]. split; [done|]. split; [done|].
  exists el2. split; [|done].
  rewrite Hdata. unfold beforeOnSubmit. by rewrite Hno.
Qed.

Lemma NoDup_two : NoDup [0; 1].
Proof.
  apply NoDup_ListNoDup. repeat constructor; simpl; intuition lia.
Defined.

Lemma typed_text_is_sent_witness :
  let w' :=
    world (run Samples.inert [Focus 0; Input 0 "Name"; Blur 0]
             (world (placeholderPolyfill Samples.plainPage))) in
  exists kept es data w'',
    elements w' !! 0 = Some kept
    /\ Element.value kept = "Name"
    /\ hasClass kept placeholderClassName = false
    /\ dispatch Samples.inert (SubmitEvent 0) w'
       = mkResult
           (map Invoke (map BeforeOnSubmitOf es)
            ++ [Submit 0 data]
            ++ map Invoke (map AfterOnSubmitOf es))
           (Some tt) w''
    /\ exists sent, data !! 0 = Some sent /\ Element.value sent = "Name".
Proof.
  apply (typed_text_is_sent Samples.inert Samples.plainPage 0
           Samples.nameField 0 "Name"); try done.
  - apply plainPage_scriptFree.
  - exact NoDup_two.
  - repeat constructor.
  - by left.
Defined.

(** *** Clicks *)




End Typing.

(** ** When the constructor returns, and what it creates *)

Module Returning.
Import JsString ClassNames Page Polyfill Events Vocabulary Notions Run Shim.
Import Submission Framing Invariant Collecting Construction.

(** One round of the loop keeps the number of forms. *)
Lemma polyfillEither_forms x w :
  List.length (forms (world (polyfillEither x w))) = List.length (forms w).
Proof.
  unfold polyfillEither. destruct (elements w !! x) as [elx|] eqn:Hx.
  - erewrite bind_run by by apply getElement_run.
    destruct (String.eqb (Element.type elx) "password") eqn:Et.
    + apply String.eqb_eq in Et.
      by rewrite (polyfillPassword_run w x elx Hx Et).
    + destruct (formOf w elx) as [[r fm]|] eqn:Hf.
      * rewrite (polyfill_run w x elx r fm Hx Hf).
        cbn [world forms set_forms set_elements]. by rewrite length_insert.
      * by rewrite (polyfill_throw w x elx Hx Hf).
  - erewrite bind_throw by by apply getElement_fail. done.
Qed.





(** *** Counting the elements *)

Lemma polyfillEither_count x w :
  onPage w x ->
  List.length (elements (world (polyfillEither x w)))
  = List.length (elements w) + (if passwordAt w x then 1 else 0).
Proof.
  intros Hx. destruct (lookup_lt_is_Some_2 _ _ Hx) as [elx Helx].
  unfold polyfillEither, passwordAt. rewrite Helx.
  erewrite bind_run by by apply getElement_run.
  destruct (String.eqb (Element.type elx) "password") eqn:Et.
  - apply String.eqb_eq in Et.
    rewrite (polyfillPassword_run w x elx Helx Et).
    cbn [world elements set_inputs set_elements].
    rewrite length_app, length_insert. simpl. lia.
  - rewrite (polyfill_elements w x elx Helx), length_insert. lia.
Qed.

Lemma forEach_count l : forall w,
  NoDup l -> Forall (onPage w) l ->
  outcome (forEach l polyfillEither w) = Some tt ->
  List.length (elements (world (forEach l polyfillEither w)))
  = List.length (elements w) + List.length (List.filter (passwordAt w) l).
Proof.
  induction l as [|x l IH]; intros w Hnd Hl Hout; [simpl; lia|].
  apply NoDup_cons in Hnd as [Hx Hnd].
  apply Forall_cons in Hl as [Hxp Hl].
  cbn [forEach] in *. rewrite outcome_bind in Hout. rewrite world_bind.
  destruct (outcome (polyfillEither x w)) as [[]|] eqn:Ex; [|done].
  destruct (polyfillEither_length x w) as [Hlen _].
  rewrite IH; [|done| |done].
  2:{ eapply Forall_impl; [exact Hl|]. unfold onPage. intros y Hy. lia. }
  rewrite (polyfillEither_count x w Hxp).
  rewrite (List.filter_ext_in (passwordAt (world (polyfillEither x w)))
             (passwordAt w) l).
  2:{ intros y Hy. apply list_elem_of_In in Hy. unfold passwordAt.
      rewrite polyfillEither_other; [done| |].
      - intros ->. done.
      - by apply (proj1 (Forall_forall _ _) Hl). }
  cbn [List.filter]. destruct (passwordAt w x); simpl; lia.
Qed.

Lemma filter_passwords w l :
  List.filter
    (passwordAt
       (set_elements
          (applyAll collected (List.filter (placeholderAt w) (inputs w))
             (elements w)) w))
    (List.filter (placeholderAt w) l)
  = List.filter (fun e => placeholderAt w e && passwordAt w e) l.
Proof.
  induction l as [|x l IH]; [done|]. cbn [List.filter].
  destruct (placeholderAt w x) eqn:Ep; [|done].
  cbn [List.filter andb]. rewrite IH.
  assert (Hsame : passwordAt
                    (set_elements
                       (applyAll collected
                          (List.filter (placeholderAt w) (inputs w))
                          (elements w)) w) x
                  = passwordAt w x).
  { unfold passwordAt. cbn [elements set_elements].
    rewrite (lookup_applyAll _ _ collected_idem).
    destruct (elements w !! x) as [elx|]; [|done]. simpl.
    by destruct (bool_decide _). }
  by rewrite Hsame.
Qed.

Lemma forEach_forms l : forall w,
  List.length (forms (world (forEach l polyfillEither w)))
  = List.length (forms w).
Proof.
  induction l as [|x l IH]; intros w; [done|].
  cbn [forEach]. rewrite world_bind.
  destruct (outcome (polyfillEither x w)) as [[]|].
  - by rewrite IH, polyfillEither_forms.
  - apply polyfillEither_forms.
Qed.

(** X20.  When the constructor returns, on a page whose collection of inputs
names each input once: the store has one more element for each password
field with a placeholder and no other new element, and the number of
forms is the same. *)
Theorem constructor_adds_one_decoy_per_password (w : World) :
  placeholderSupported w = false ->
  NoDup (inputs w) ->
  Forall (onPage w) (inputs w) ->
  outcome (placeholderPolyfill w) = Some tt ->
  List.length (elements (world (placeholderPolyfill w)))
  = List.length (elements w)
    + List.length
        (List.filter (fun e => placeholderAt w e && passwordAt w e)
           (inputs w))
  /\ List.length (forms (world (placeholderPolyfill w)))
     = List.length (forms w).
Proof.
  intros Hs Hnd Hl Hout.
  destruct (constructor_loop w Hs Hl) as (Heq & Hnd' & Hl' & _).
  rewrite Heq in *. split.
  - rewrite (forEach_count _ _ (Hnd' Hnd) Hl' Hout).
    cbn [elements set_elements].
    by rewrite length_applyAll, filter_passwords.
  - by rewrite forEach_forms.
Qed.

Lemma constructor_adds_one_decoy_per_password_witness :
  List.length (elements (world (placeholderPolyfill Pages.signupPage))) = 4
  /\ List.length (forms (world (placeholderPolyfill Pages.signupPage))) = 1.
Proof.
  apply (constructor_adds_one_decoy_per_password Pages.signupPage).
  - reflexivity.
  - exact NoDup_three.
  - repeat constructor.
  - reflexivity.
Defined.

End Returning.
